(** * Transaction Deletion Record: the resumable company-purge pipeline

    A shallow embedding of
    [erpnext/setup/doctype/transaction_deletion_record/transaction_deletion_record.py]
    together with the properties of its specification.

    The document class is embedded method by method.  The record store, the
    background queue and the notification cache it talks to through the
    [frappe] API are explicit components of a [World]; every method is a
    computation in a state-and-exception monad over that world. *)

From Stdlib Require Import ZArith String Ascii List Lia.
From stdpp Require Import gmap strings list fin_maps.

Local Open Scope string_scope.
Local Open Scope Z_scope.

(** ** Strings *)

Module Str.

(** [c in s] for a one-character needle. *)
Fixpoint contains (c : ascii) (s : string) : bool :=
  match s with
  | EmptyString => false
  | String d rest => if Ascii.eqb d c then true else contains c rest
  end.

(** [s.rsplit(sep, 1)] for a one-character separator: [Some (before, after)]
    around the last occurrence of [sep]; [None] stands for the one-element
    list [[s]] that Python returns when [sep] does not occur. *)
Fixpoint rsplit1 (sep : ascii) (s : string) : option (string * string) :=
  match s with
  | EmptyString => None
  | String c rest =>
      match rsplit1 sep rest with
      | Some (before, after) => Some (String c before, after)
      | None => if Ascii.eqb c sep then Some (EmptyString, rest) else None
      end
  end.

(** [s.replace(old, "")]: every non-overlapping occurrence of [old], found
    left to right, is removed.  [skip] counts the characters of the
    occurrence being removed that are still ahead.  Python leaves [s] as it
    is when [old] is empty. *)
Fixpoint remove_from (old : string) (skip : nat) (s : string) : string :=
  match s with
  | EmptyString => EmptyString
  | String c rest =>
      match skip with
      | S k => remove_from old k rest
      | O =>
          if String.prefix old s
          then remove_from old (Nat.pred (String.length old)) rest
          else String c (remove_from old O rest)
      end
  end.

Definition remove_all (old s : string) : string :=
  match old with
  | EmptyString => s
  | _ => remove_from old O s
  end.

Definition is_digit (c : ascii) : bool :=
  let n := nat_of_ascii c in (Nat.leb 48 n && Nat.leb n 57)%bool.

Fixpoint all_digits (s : string) : bool :=
  match s with
  | EmptyString => true
  | String c rest => (is_digit c && all_digits rest)%bool
  end.

Fixpoint has_non_digit (s : string) : bool :=
  match s with
  | EmptyString => false
  | String c rest => (negb (is_digit c) || has_non_digit rest)%bool
  end.

(** Value of a string of decimal digits, most significant first. *)
Fixpoint decimal_from (acc : Z) (s : string) : Z :=
  match s with
  | EmptyString => acc
  | String c rest => decimal_from (10 * acc + (Z.of_nat (nat_of_ascii c) - 48)) rest
  end.

Definition decimal (s : string) : Z := decimal_from 0 s.

(** SQL [LIKE]: [%] matches any run of characters, [_] any one character,
    and a backslash makes the next pattern character literal.  Characters
    are compared exactly (a binary collation). *)
Fixpoint like (pat : string) (s : string) : bool :=
  match pat with
  | EmptyString => match s with EmptyString => true | _ => false end
  | String p pat' =>
      if Ascii.eqb p "%" then
        (fix star (t : string) : bool :=
           (like pat' t ||
            match t with
            | EmptyString => false
            | String _ t' => star t'
            end)%bool) s
      else if Ascii.eqb p "_" then
        match s with
        | EmptyString => false
        | String _ s' => like pat' s'
        end
      else if Ascii.eqb p "\" then
        match pat' with
        | EmptyString =>
            match s with
            | String c EmptyString => Ascii.eqb c "\"
            | _ => false
            end
        | String q pat'' =>
            match s with
            | EmptyString => false
            | String c s' => (Ascii.eqb c q && like pat'' s')%bool
            end
        end
      else
        match s with
        | EmptyString => false
        | String c s' => (Ascii.eqb c p && like pat' s')%bool
        end
  end.

(** The greater of two strings in the byte-wise lexicographic order. *)
Definition max (a b : string) : string :=
  match String.compare a b with
  | Lt => b
  | _ => a
  end.

Definition max_list (l : list string) : option string :=
  match l with
  | [] => None
  | x :: rest => Some (fold_left max rest x)
  end.

End Str.

(** [frappe.utils.cint] is [int(float(s))], with 0 when that raises.  It is
    modelled on strings of decimal digits short enough for the float to be
    exact (at most 15 digits), where it is the decimal value; text that is
    not a number gives the default 0. *)
Definition cint (s : string) : Z :=
  match s with
  | EmptyString => 0
  | _ => if Str.all_digits s then Str.decimal s else 0
  end.

(** ** The record store *)

(** A cell of a table row. [DF.Check] columns hold [VInt 0] or [VInt 1]. *)
Inductive value : Type :=
| VNull
| VStr (s : string)
| VInt (z : Z).

Global Instance value_eq_dec : EqDecision value.
Proof. solve_decision. Defined.

(** A row maps column names to cells; a database maps a doctype name to the
    rows of its table, in storage order. *)
Abbreviation Row := (gmap string value).
Abbreviation DB := (gmap string (list (gmap string value))).

Definition col (r : Row) (c : string) : value := default VNull (r !! c).

Definition str_col (r : Row) (c : string) : option string :=
  match col r c with
  | VStr s => Some s
  | _ => None
  end.

Definition table (d : DB) (t : string) : list Row := default [] (d !! t).

(** [pluck=c] and list comprehensions such as [[r.name for r in rows]]. *)
Definition pluck (c : string) (rows : list Row) : list string :=
  omap (λ r, str_col r c) rows.

(** A filter [{c: s}] on a text column, and [{c: ["in", names]}]. *)
Definition col_is (c s : string) (r : Row) : Prop := col r c = VStr s.
Definition col_in (c : string) (names : list string) (r : Row) : Prop :=
  ∃ s, col r c = VStr s ∧ s ∈ names.

Global Instance col_is_dec c s r : Decision (col_is c s r).
Proof. unfold col_is. apply _. Defined.

Global Instance col_in_dec c names r : Decision (col_in c names r).
Proof.
  unfold col_in. destruct (col r c) as [|s|z] eqn:E.
  - right. intros (s' & H & _). discriminate.
  - destruct (decide (s ∈ names)) as [Hin|Hout].
    + left. eauto.
    + right. intros (s' & H & Hs). by simplify_eq.
  - right. intros (s' & H & _). discriminate.
Defined.

(** [frappe.get_all(doctype, filters=..., limit=n)]: the matching rows, at
    most [n] of them when a limit is given.  The order of the list of a
    table stands for the order in which the query returns its rows. *)
Definition get_all (d : DB) (doctype : string) (P : Row → Prop)
    `{!∀ r, Decision (P r)} (limit : option nat) : list Row :=
  let rows := filter P (table d doctype) in
  match limit with
  | Some n => take n rows
  | None => rows
  end.

(** [frappe.db.count(doctype, filters)]. *)
Definition db_count (d : DB) (doctype : string) (P : Row → Prop)
    `{!∀ r, Decision (P r)} : nat :=
  length (filter P (table d doctype)).

(** [frappe.db.delete(doctype, filters)] and SQL [delete from ... where]. *)
Definition db_delete (doctype : string) (P : Row → Prop)
    `{!∀ r, Decision (P r)} (d : DB) : DB :=
  alter (filter (λ r, ¬ P r)) doctype d.

(** SQL [update ... set c = v where P]. *)
Definition db_update (doctype : string) (P : Row → Prop)
    `{!∀ r, Decision (P r)} (c : string) (v : value) (d : DB) : DB :=
  alter (fmap (λ r, if decide (P r) then <[c := v]> r else r)) doctype d.

(** [frappe.db.get_value(doctype, name, c)]: the cell of the first row called
    [name]; [VNull] stands for Python's [None]. *)
Definition db_get_value (d : DB) (doctype name c : string) : value :=
  match filter (col_is "name" name) (table d doctype) with
  | r :: _ => col r c
  | [] => VNull
  end.

(** [create_batch(iterable, size)]: consecutive slices of [size] items. *)
Fixpoint create_batch_fuel {A} (fuel : nat) (l : list A) (size : nat) : list (list A) :=
  match fuel, l with
  | _, [] => []
  | O, _ => []
  | S fuel', _ => take size l :: create_batch_fuel fuel' (drop size l) size
  end.

Definition create_batch {A} (l : list A) (size : nat) : list (list A) :=
  create_batch_fuel (length l) l size.

(** ** The document *)

(** A row of the child doctype [Transaction Deletion Record Item].  The row
    is identified inside its table by [idx], the 1-based position that
    [Document.append] assigns; it stands for the row's primary key. *)
Record TransactionDeletionRecordItem : Type := {
  idx : nat;
  doctype_name : string;
  docfield_name : string;
  no_of_docs : Z;
  done : bool
}.

Record TransactionDeletionRecord : Type := {
  name : string;
  company : string;
  clear_notifications : bool;
  delete_bin_data : bool;
  delete_leads_and_addresses : bool;
  delete_transactions : bool;
  doctypes : list TransactionDeletionRecordItem;
  doctypes_to_be_ignored : list TransactionDeletionRecordItem;
  initialize_doctypes_table : bool;
  reset_company_default_values : bool;
  status : string
}.

Abbreviation Job := TransactionDeletionRecord.

(** [self.doctype]. *)
Definition self_doctype : string := "Transaction Deletion Record".

(** [self.batch_size], set by [__init__]. *)
Definition batch_size : nat := 5000.

(** Attribute assignment, one setter per attribute the class writes. *)
Definition set_clear_notifications (v : bool) (j : Job) : Job :=
  {| name := name j; company := company j; clear_notifications := v;
     delete_bin_data := delete_bin_data j;
     delete_leads_and_addresses := delete_leads_and_addresses j;
     delete_transactions := delete_transactions j; doctypes := doctypes j;
     doctypes_to_be_ignored := doctypes_to_be_ignored j;
     initialize_doctypes_table := initialize_doctypes_table j;
     reset_company_default_values := reset_company_default_values j;
     status := status j |}.

Definition set_delete_bin_data (v : bool) (j : Job) : Job :=
  {| name := name j; company := company j;
     clear_notifications := clear_notifications j; delete_bin_data := v;
     delete_leads_and_addresses := delete_leads_and_addresses j;
     delete_transactions := delete_transactions j; doctypes := doctypes j;
     doctypes_to_be_ignored := doctypes_to_be_ignored j;
     initialize_doctypes_table := initialize_doctypes_table j;
     reset_company_default_values := reset_company_default_values j;
     status := status j |}.

Definition set_delete_leads_and_addresses (v : bool) (j : Job) : Job :=
  {| name := name j; company := company j;
     clear_notifications := clear_notifications j;
     delete_bin_data := delete_bin_data j; delete_leads_and_addresses := v;
     delete_transactions := delete_transactions j; doctypes := doctypes j;
     doctypes_to_be_ignored := doctypes_to_be_ignored j;
     initialize_doctypes_table := initialize_doctypes_table j;
     reset_company_default_values := reset_company_default_values j;
     status := status j |}.

Definition set_delete_transactions (v : bool) (j : Job) : Job :=
  {| name := name j; company := company j;
     clear_notifications := clear_notifications j;
     delete_bin_data := delete_bin_data j;
     delete_leads_and_addresses := delete_leads_and_addresses j;
     delete_transactions := v; doctypes := doctypes j;
     doctypes_to_be_ignored := doctypes_to_be_ignored j;
     initialize_doctypes_table := initialize_doctypes_table j;
     reset_company_default_values := reset_company_default_values j;
     status := status j |}.

Definition set_doctypes (v : list TransactionDeletionRecordItem) (j : Job) : Job :=
  {| name := name j; company := company j;
     clear_notifications := clear_notifications j;
     delete_bin_data := delete_bin_data j;
     delete_leads_and_addresses := delete_leads_and_addresses j;
     delete_transactions := delete_transactions j; doctypes := v;
     doctypes_to_be_ignored := doctypes_to_be_ignored j;
     initialize_doctypes_table := initialize_doctypes_table j;
     reset_company_default_values := reset_company_default_values j;
     status := status j |}.

Definition set_doctypes_to_be_ignored (v : list TransactionDeletionRecordItem) (j : Job) : Job :=
  {| name := name j; company := company j;
     clear_notifications := clear_notifications j;
     delete_bin_data := delete_bin_data j;
     delete_leads_and_addresses := delete_leads_and_addresses j;
     delete_transactions := delete_transactions j; doctypes := doctypes j;
     doctypes_to_be_ignored := v;
     initialize_doctypes_table := initialize_doctypes_table j;
     reset_company_default_values := reset_company_default_values j;
     status := status j |}.

Definition set_initialize_doctypes_table (v : bool) (j : Job) : Job :=
  {| name := name j; company := company j;
     clear_notifications := clear_notifications j;
     delete_bin_data := delete_bin_data j;
     delete_leads_and_addresses := delete_leads_and_addresses j;
     delete_transactions := delete_transactions j; doctypes := doctypes j;
     doctypes_to_be_ignored := doctypes_to_be_ignored j;
     initialize_doctypes_table := v;
     reset_company_default_values := reset_company_default_values j;
     status := status j |}.

Definition set_reset_company_default_values (v : bool) (j : Job) : Job :=
  {| name := name j; company := company j;
     clear_notifications := clear_notifications j;
     delete_bin_data := delete_bin_data j;
     delete_leads_and_addresses := delete_leads_and_addresses j;
     delete_transactions := delete_transactions j; doctypes := doctypes j;
     doctypes_to_be_ignored := doctypes_to_be_ignored j;
     initialize_doctypes_table := initialize_doctypes_table j;
     reset_company_default_values := v;
     status := status j |}.

Definition set_status (v : string) (j : Job) : Job :=
  {| name := name j; company := company j;
     clear_notifications := clear_notifications j;
     delete_bin_data := delete_bin_data j;
     delete_leads_and_addresses := delete_leads_and_addresses j;
     delete_transactions := delete_transactions j; doctypes := doctypes j;
     doctypes_to_be_ignored := doctypes_to_be_ignored j;
     initialize_doctypes_table := initialize_doctypes_table j;
     reset_company_default_values := reset_company_default_values j;
     status := v |}.

Definition set_done (v : bool) (i : TransactionDeletionRecordItem) : TransactionDeletionRecordItem :=
  {| idx := idx i; doctype_name := doctype_name i;
     docfield_name := docfield_name i; no_of_docs := no_of_docs i; done := v |}.

(** ** The world and the monad *)

(** A call handed to [frappe.enqueue]. *)
Record Enqueued : Type := {
  q_function : string;
  q_doctype : string;
  q_name : string;
  q_doc_method : string;
  q_queue : string;
  q_enqueue_after_commit : bool
}.

(** What a unit of work can see and change: the tables, the stored copy of
    the job document (its own row and child rows), the background queue and
    the notification cache. *)
Record World : Type := {
  db : DB;
  stored : Job;
  queue : list Enqueued;
  notification_cache : list (string * Z)
}.

Definition set_db (d : DB) (w : World) : World :=
  {| db := d; stored := stored w; queue := queue w;
     notification_cache := notification_cache w |}.
Definition set_stored (j : Job) (w : World) : World :=
  {| db := db w; stored := j; queue := queue w;
     notification_cache := notification_cache w |}.
Definition set_queue (q : list Enqueued) (w : World) : World :=
  {| db := db w; stored := stored w; queue := q;
     notification_cache := notification_cache w |}.
Definition set_notification_cache (c : list (string * Z)) (w : World) : World :=
  {| db := db w; stored := stored w; queue := queue w;
     notification_cache := c |}.

(** The exceptions the class can raise. *)
Inductive exn : Type :=
| PermissionError
| ValidationError (title : string)
| ValueError
| DoesNotExistError
| AttributeError.

Inductive result (A : Type) : Type :=
| Ok (a : A)
| Raise (e : exn).
Arguments Ok {A} a.
Arguments Raise {A} e.

Definition M (A : Type) : Type := World → result (A * World).

Global Instance M_ret : MRet M := λ A a w, Ok (a, w).
Global Instance M_bind : MBind M := λ A B f m w,
  match m w with
  | Ok (a, w') => f a w'
  | Raise e => Raise e
  end.

Definition get_db : M DB := λ w, Ok (db w, w).
Definition modify_db (f : DB → DB) : M () := λ w, Ok ((), set_db (f (db w)) w).
Definition raise {A} (e : exn) : M A := λ _, Raise e.

(** A Python [for x in l: body], the body threading the document. *)
Fixpoint for_each {A S} (l : list A) (body : A → S → M S) (s : S) : M S :=
  match l with
  | [] => mret s
  | x :: rest => s' ← body x s; for_each rest body s'
  end.

(** ** Framework calls on the document *)

(** [self.db_set(field, value)]: assigns the attribute and writes the same
    column of the stored row. *)
Definition db_set (assign : Job → Job) (self : Job) : M Job :=
  λ w, Ok (assign self, set_stored (assign (stored w)) w).

(** [self.save()] on a submitted document: the document and its child rows
    are written back; the framework runs no [validate] or [before_save] hook
    for an update after submission. *)
Definition save (self : Job) : M () :=
  λ w, Ok ((), set_stored self w).

(** [self.append(table, {...})]: the new child row gets the next [idx]. *)
Definition new_item (table : list TransactionDeletionRecordItem)
    (doctype fieldname : string) (n : Z) : TransactionDeletionRecordItem :=
  {| idx := S (length table); doctype_name := doctype; docfield_name := fieldname;
     no_of_docs := n; done := false |}.

(** [frappe.db.set_value(docfield.doctype, docfield.name, "done", 1)]: the
    stored child row is updated; the document in memory is not. *)
Definition set_value_done (item : TransactionDeletionRecordItem) : M () :=
  λ w,
    let mark i := if decide (idx i = idx item) then set_done true i else i in
    Ok ((), set_stored (set_doctypes (mark <$> doctypes (stored w)) (stored w)) w).

(** [frappe.enqueue(...)]. *)
Definition enqueue (call : Enqueued) : M () :=
  λ w, Ok ((), set_queue (queue w ++ [call]) w).

(** [frappe.delete_doc(doctype, batch, ignore_permissions=True)] with a list
    of names: the named rows are removed. *)
Definition delete_doc (doctype : string) (names : list string) : M () :=
  modify_db (db_delete doctype (col_in "name" names)).

(** [frappe.desk.notifications.clear_notifications()], imported at module
    level: the cached notification counts are dropped. *)
Definition frappe_clear_notifications : M () :=
  λ w, Ok ((), set_notification_cache [] w).

(** [frappe.only_for(role)], outside test mode: raises [PermissionError]
    unless the session has the role. *)
Definition only_for (session_roles : list string) (role : string) : M () :=
  if decide (role ∈ session_roles) then mret () else raise PermissionError.

(** ** Module-level function *)

Definition builtin_doctypes_to_be_ignored : list string :=
  [ "Account"; "Cost Center"; "Warehouse"; "Budget"; "Party Account";
    "Employee"; "Sales Taxes and Charges Template";
    "Purchase Taxes and Charges Template"; "POS Profile"; "BOM"; "Company";
    "Bank Account"; "Item Tax Template"; "Mode of Payment";
    "Mode of Payment Account"; "Item Default"; "Customer"; "Supplier" ].

(** [hooks] is [frappe.get_hooks("company_data_to_be_ignored") or []]. *)
Definition get_doctypes_to_be_ignored (hooks : list string) : list string :=
  builtin_doctypes_to_be_ignored ++ hooks.

(** ** The methods of [TransactionDeletionRecord] *)

Definition validate_doctypes_to_be_ignored (hooks : list string) (self : Job) : M () :=
  let doctypes_to_be_ignored_list := get_doctypes_to_be_ignored hooks in
  for_each (doctypes_to_be_ignored self)
    (λ doctype (_ : ()),
       if decide (doctype_name doctype ∉ doctypes_to_be_ignored_list)
       then raise (ValidationError "Not Allowed")
       else mret ())
    ().

Definition validate (session_roles hooks : list string) (self : Job) : M () :=
  _ ← only_for session_roles "System Manager";
  validate_doctypes_to_be_ignored hooks self.

Definition populate_doctypes_to_be_ignored_table (hooks : list string) (self : Job) : Job :=
  let doctypes_to_be_ignored_list := get_doctypes_to_be_ignored hooks in
  fold_left
    (λ self doctype,
       set_doctypes_to_be_ignored
         (doctypes_to_be_ignored self ++
          [new_item (doctypes_to_be_ignored self) doctype "" 0]) self)
    doctypes_to_be_ignored_list self.

Definition before_submit (hooks : list string) (self : Job) : Job :=
  match doctypes_to_be_ignored self with
  | [] => populate_doctypes_to_be_ignored_table hooks self
  | _ => self
  end.

Definition reset_task_flags (self : Job) : Job :=
  let self := set_clear_notifications false self in
  let self := set_delete_bin_data false self in
  let self := set_delete_leads_and_addresses false self in
  let self := set_delete_transactions false self in
  set_reset_company_default_values false self.

Definition before_save (self : Job) : Job :=
  let self := set_status "" self in
  reset_task_flags self.

Definition on_submit (self : Job) : M Job :=
  db_set (set_status "Queued") self.

Definition on_cancel (self : Job) : M Job :=
  db_set (set_status "Cancelled") self.

Definition chain_callback (self : Job) (method : string) : M () :=
  enqueue {| q_function := "frappe.utils.background_jobs.run_doc_method";
             q_doctype := self_doctype;
             q_name := name self;
             q_doc_method := method;
             q_queue := "long";
             q_enqueue_after_commit := true |}.

Definition delete_notifications (self : Job) : M Job :=
  self ← (if negb (clear_notifications self) then
            _ ← frappe_clear_notifications;
            db_set (set_clear_notifications true) self
          else mret self);
  _ ← chain_callback self "initialize_doctypes_to_be_deleted_table";
  mret self.

Definition delete_bins (self : Job) : M Job :=
  self ← (if negb (delete_bin_data self) then
            _ ← modify_db (λ d,
                  let warehouses :=
                    pluck "name" (filter (col_is "company" (company self)) (table d "Warehouse")) in
                  db_delete "Bin" (col_in "warehouse" warehouses) d);
            db_set (set_delete_bin_data true) self
          else mret self);
  _ ← chain_callback self "delete_lead_addresses";
  mret self.

(** SQL comparison of two cells: a comparison with [NULL] is never true. *)
Definition sql_ne (a b : value) : Prop := a ≠ VNull ∧ b ≠ VNull ∧ a ≠ b.

Global Instance sql_ne_dec a b : Decision (sql_ne a b).
Proof. unfold sql_ne. apply _. Defined.

(** [select distinct dl1.parent from `tabDynamic Link` dl1
     inner join `tabDynamic Link` dl2
     on dl1.parent=dl2.parent and dl1.link_doctype<>dl2.link_doctype]. *)
Definition joined (dl1 dl2 : Row) : Prop :=
  (∃ p, col dl1 "parent" = VStr p ∧ col dl2 "parent" = VStr p) ∧
  sql_ne (col dl1 "link_doctype") (col dl2 "link_doctype").

Global Instance joined_dec dl1 dl2 : Decision (joined dl1 dl2).
Proof.
  unfold joined. apply and_dec; [|apply _].
  destruct (col dl1 "parent") as [|p|z] eqn:E1;
    [right; intros (p' & H & _); discriminate| |right; intros (p' & H & _); discriminate].
  destruct (decide (col dl2 "parent" = VStr p)) as [E2|E2].
  - left. eauto.
  - right. intros (p' & H1 & H2). by simplify_eq.
Defined.

Definition parents_with_several_link_doctypes (d : DB) : list string :=
  let links := table d "Dynamic Link" in
  pluck "parent" (filter (λ dl1, Exists (joined dl1) links) links).

Definition delete_lead_addresses (self : Job) : M Job :=
  self ← (if negb (delete_leads_and_addresses self) then
            d ← get_db;
            let leads := pluck "name" (get_all d "Lead" (col_is "company" (company self)) None) in
            _ ← (match leads with
                 | [] => mret ()
                 | _ =>
                     let addresses :=
                       pluck "parent" (filter (col_in "link_name" leads) (table d "Dynamic Link")) in
                     _ ← (match addresses with
                          | [] => mret ()
                          | _ =>
                              _ ← modify_db (λ d,
                                    db_delete "Address"
                                      (λ r, col_in "name" addresses r ∧
                                            ¬ col_in "name" (parents_with_several_link_doctypes d) r) d);
                              modify_db
                                (db_delete "Dynamic Link"
                                   (λ r, col_is "link_doctype" "Lead" r ∧
                                         col_is "parenttype" "Address" r ∧
                                         col_in "link_name" leads r))
                          end);
                     modify_db (db_update "Customer" (col_in "lead_name" leads) "lead_name" VNull)
                 end);
            db_set (set_delete_leads_and_addresses true) self
          else mret self);
  _ ← chain_callback self "reset_company_values";
  mret self.

(** [frappe.get_doc("Company", name)] raises when there is no such row;
    [company_obj.save()] writes the two assigned columns back. *)
Definition reset_company_values (self : Job) : M Job :=
  self ← (if negb (reset_company_default_values self) then
            d ← get_db;
            _ ← (match filter (col_is "name" (company self)) (table d "Company") with
                 | [] => raise DoesNotExistError
                 | _ =>
                     _ ← modify_db
                           (db_update "Company" (col_is "name" (company self))
                              "total_monthly_sales" (VInt 0));
                     modify_db
                       (db_update "Company" (col_is "name" (company self))
                          "sales_monthly_history" VNull)
                 end);
            db_set (set_reset_company_default_values true) self
          else mret self);
  _ ← chain_callback self "delete_notifications";
  mret self.

Definition get_doctypes_to_be_ignored_list (self : Job) (d : DB) : list string :=
  let singles := pluck "name" (get_all d "DocType" (λ r, col r "issingle" = VInt 1) None) in
  singles ++ (doctype_name <$> doctypes_to_be_ignored self).

(** The [parent] and [fieldname] of the selected [DocField] rows. *)
Definition parent_and_fieldname (r : Row) : option (string * string) :=
  match str_col r "parent", str_col r "fieldname" with
  | Some p, Some f => Some (p, f)
  | _, _ => None
  end.

Definition get_doctypes_with_company_field (d : DB)
    (doctypes_to_be_ignored_list : list string) : list (string * string) :=
  omap parent_and_fieldname
    (get_all d "DocField"
       (λ r, col_is "fieldtype" "Link" r ∧ col_is "options" "Company" r ∧
             ¬ col_in "parent" doctypes_to_be_ignored_list r)
       None).

Definition get_all_child_doctypes (d : DB) : list string :=
  pluck "name" (get_all d "DocType" (λ r, col r "istable" = VInt 1) None).

Definition get_number_of_docs_linked_with_specified_company
    (self : Job) (d : DB) (doctype company_fieldname : string) : nat :=
  db_count d doctype (col_is company_fieldname (company self)).

Definition populate_doctypes_table (tables : list string)
    (doctype fieldname : string) (n : Z) (self : Job) : M Job :=
  let self :=
    if decide (doctype ∉ tables)
    then set_doctypes (doctypes self ++ [new_item (doctypes self) doctype fieldname n]) self
    else self in
  _ ← save self;
  mret self.

(** The body of the loop over the scanned fields (lines 175-181). *)
Definition initialize_doctypes_to_be_deleted_table_entry (tables : list string)
    (docfield : string * string) (self : Job) : M Job :=
  if decide (docfield.1 ≠ self_doctype) then
    d ← get_db;
    let no_of_docs :=
      get_number_of_docs_linked_with_specified_company self d docfield.1 docfield.2 in
    if decide (0 < no_of_docs)%nat
    then populate_doctypes_table tables docfield.1 docfield.2 0 self
    else mret self
  else mret self.

Definition initialize_doctypes_to_be_deleted_table (self : Job) : M Job :=
  self ← (if negb (initialize_doctypes_table self) then
            d ← get_db;
            let doctypes_to_be_ignored_list := get_doctypes_to_be_ignored_list self d in
            let docfields := get_doctypes_with_company_field d doctypes_to_be_ignored_list in
            let tables := get_all_child_doctypes d in
            self ← for_each docfields
                     (initialize_doctypes_to_be_deleted_table_entry tables) self;
            db_set (set_initialize_doctypes_table true) self
          else mret self);
  _ ← chain_callback self "delete_company_transactions";
  mret self.

Definition delete_child_tables (doctype : string) (reference_doc_names : list string) : M () :=
  d ← get_db;
  let child_tables :=
    pluck "options"
      (get_all d "DocField"
         (λ r, col_is "fieldtype" "Table" r ∧ col_is "parent" doctype r) None) in
  for_each child_tables
    (λ table (_ : ()), modify_db (db_delete table (col_in "parent" reference_doc_names)))
    ().

Definition delete_docs_linked_with_specified_company
    (self : Job) (doctype company_fieldname : string) : M () :=
  modify_db (db_delete doctype (col_is company_fieldname (company self))).

(** The names of [doctype] that satisfy [name like %s] for the parameter
    [prefix + "%"]. *)
Definition names_like (d : DB) (doctype prefix : string) : list string :=
  filter (λ n, Str.like (prefix +:+ "%") n = true) (pluck "name" (table d doctype)).

(** [select max(name) from `tab{doctype}` where name like %s]; [None] is
    SQL's [NULL] for no matching row. *)
Definition max_name_like (d : DB) (doctype prefix : string) : option string :=
  Str.max_list (names_like d doctype prefix).

Definition update_naming_series (naming_series doctype_name : string) : M () :=
  split ← (if Str.contains "." naming_series
           then match Str.rsplit1 "." naming_series with
                | Some ph => mret ph
                | None => raise ValueError
                end
           else match Str.rsplit1 "{" naming_series with
                | Some ph => mret ph
                | None => raise ValueError
                end);
  let prefix : string := split.1 in
  d ← get_db;
  let last :=
    match max_name_like d doctype_name prefix with
    | Some (String c rest) => cint (Str.remove_all prefix (String c rest))
    | _ => 0
    end in
  modify_db (db_update "Series" (col_is "name" prefix) "current" (VInt last)).

Definition delete_version_log (doctype : string) (docnames : list string) : M () :=
  modify_db
    (db_delete "Version" (λ r, col_is "ref_doctype" doctype r ∧ col_in "docname" docnames r)).

Definition delete_communications (doctype : string) (reference_doc_names : list string) : M () :=
  d ← get_db;
  let communication_names :=
    pluck "name"
      (get_all d "Communication"
         (λ r, col_is "reference_doctype" doctype r ∧
               col_in "reference_name" reference_doc_names r) None) in
  match communication_names with
  | [] => mret ()
  | _ =>
      for_each (create_batch communication_names batch_size)
        (λ batch (_ : ()), delete_doc "Communication" batch) ()
  end.

Definition delete_comments (doctype : string) (reference_doc_names : list string) : M () :=
  d ← get_db;
  let comment_names :=
    pluck "name"
      (get_all d "Comment"
         (λ r, col_is "reference_doctype" doctype r ∧
               col_in "reference_name" reference_doc_names r) None) in
  match comment_names with
  | [] => mret ()
  | _ =>
      for_each (create_batch comment_names batch_size)
        (λ batch (_ : ()), delete_doc "Comment" batch) ()
  end.

Definition unlink_attachments (doctype : string) (reference_doc_names : list string) : M () :=
  d ← get_db;
  let file_names :=
    pluck "name"
      (get_all d "File"
         (λ r, col_is "attached_to_doctype" doctype r ∧
               col_in "attached_to_name" reference_doc_names r) None) in
  match file_names with
  | [] => mret ()
  | _ =>
      for_each (create_batch file_names batch_size)
        (λ batch (_ : ()),
           _ ← modify_db (db_update "File" (col_in "name" batch) "attached_to_doctype" VNull);
           modify_db (db_update "File" (col_in "name" batch) "attached_to_name" VNull))
        ()
  end.

(** The identifiers fetched for one inventory entry (lines 197-200). *)
Definition reference_doc_names (self : Job) (d : DB)
    (docfield : TransactionDeletionRecordItem) : list string :=
  pluck "name"
    (get_all d (doctype_name docfield)
       (col_is (docfield_name docfield) (company self)) (Some batch_size)).

(** Lines 210-214: the naming series of the doctype is reconciled when its
    [autoname] has a counter placeholder. *)
Definition reset_naming_series (doctype : string) : M () :=
  d ← get_db;
  match db_get_value d "DocType" doctype "autoname" with
  | VStr (String c rest) =>
      let naming_series := String c rest in
      if Str.contains "#" naming_series
      then update_naming_series naming_series doctype
      else mret ()
  | _ => mret ()
  end.

(** The body of the loop over [self.doctypes] (lines 192-218).  The ignore
    list, the scanned fields and the child doctypes that lines 187-190 read
    are not used by the loop. *)
Definition delete_company_transactions_entry (self : Job)
    (docfield : TransactionDeletionRecordItem) : M () :=
  if decide (doctype_name docfield ≠ self_doctype ∧ done docfield = false) then
    d ← get_db;
    let no_of_docs :=
      get_number_of_docs_linked_with_specified_company
        self d (doctype_name docfield) (docfield_name docfield) in
    if decide (0 < no_of_docs)%nat then
      let names := reference_doc_names self d docfield in
      _ ← delete_version_log (doctype_name docfield) names;
      _ ← delete_communications (doctype_name docfield) names;
      _ ← delete_comments (doctype_name docfield) names;
      _ ← unlink_attachments (doctype_name docfield) names;
      _ ← delete_child_tables (doctype_name docfield) names;
      _ ← delete_docs_linked_with_specified_company
            self (doctype_name docfield) (docfield_name docfield);
      _ ← reset_naming_series (doctype_name docfield);
      chain_callback self "delete_company_transactions"
    else set_value_done docfield
  else mret ().

Definition delete_company_transactions (self : Job) : M Job :=
  if negb (delete_transactions self) then
    _ ← for_each (doctypes self)
          (λ docfield (_ : ()), delete_company_transactions_entry self docfield) ();
    db_set (set_delete_transactions true) self
  else mret self.

Definition start_deletion_process (self : Job) : M Job :=
  self ← delete_bins self;
  self ← delete_lead_addresses self;
  self ← reset_company_values self;
  self ← delete_notifications self;
  self ← initialize_doctypes_to_be_deleted_table self;
  delete_company_transactions self.

(** ** The background worker *)

(** [frappe.utils.background_jobs.run_doc_method]: the document is read back
    from the store and the named method is called on it. *)
Definition doc_method (method : string) : option (Job → M Job) :=
  if decide (method = "delete_bins") then Some delete_bins
  else if decide (method = "delete_lead_addresses") then Some delete_lead_addresses
  else if decide (method = "reset_company_values") then Some reset_company_values
  else if decide (method = "delete_notifications") then Some delete_notifications
  else if decide (method = "initialize_doctypes_to_be_deleted_table")
       then Some initialize_doctypes_to_be_deleted_table
  else if decide (method = "delete_company_transactions") then Some delete_company_transactions
  else if decide (method = "start_deletion_process") then Some start_deletion_process
  else None.

Definition run_doc_method (method : string) : M () :=
  λ w,
    match doc_method method with
    | Some m => match m (stored w) w with
                | Ok (_, w') => Ok ((), w')
                | Raise e => Raise e
                end
    | None => Raise AttributeError
    end.

(** The worker takes the oldest queued call and runs it. *)
Definition run_next : M () :=
  λ w,
    match queue w with
    | [] => Ok ((), w)
    | call :: rest => run_doc_method (q_doc_method call) (set_queue rest w)
    end.

(** ** The declared order of the checkpointed stages *)

Inductive Stage : Type :=
| BinsCleared
| AddressesCleared
| CompanyValuesReset
| NotificationsCleared
| InventoryInitialized.

Definition stage_method (s : Stage) : Job → M Job :=
  match s with
  | BinsCleared => delete_bins
  | AddressesCleared => delete_lead_addresses
  | CompanyValuesReset => reset_company_values
  | NotificationsCleared => delete_notifications
  | InventoryInitialized => initialize_doctypes_to_be_deleted_table
  end.

Definition stage_flag (s : Stage) : Job → bool :=
  match s with
  | BinsCleared => delete_bin_data
  | AddressesCleared => delete_leads_and_addresses
  | CompanyValuesReset => reset_company_default_values
  | NotificationsCleared => clear_notifications
  | InventoryInitialized => initialize_doctypes_table
  end.

(** The method that follows a stage in [start_deletion_process]. *)
Definition next_method (s : Stage) : Job → M Job :=
  match s with
  | BinsCleared => delete_lead_addresses
  | AddressesCleared => reset_company_values
  | CompanyValuesReset => delete_notifications
  | NotificationsCleared => initialize_doctypes_to_be_deleted_table
  | InventoryInitialized => delete_company_transactions
  end.

(** ** Sequences of operations on a job *)

(** What can be done to a job: the framework runs a hook of the class on the
    document in memory, the operator starts the pipeline, or the background
    worker runs the oldest queued call. *)
Inductive Operation : Type :=
| OpValidate (session_roles hooks : list string)
| OpBeforeSubmit (hooks : list string)
| OpBeforeSave
| OpOnSubmit
| OpOnCancel
| OpStartDeletionProcess
| OpWorker.

Definition run_operation (op : Operation) (self : Job) : M Job :=
  match op with
  | OpValidate session_roles hooks => _ ← validate session_roles hooks self; mret self
  | OpBeforeSubmit hooks => mret (before_submit hooks self)
  | OpBeforeSave => mret (before_save self)
  | OpOnSubmit => on_submit self
  | OpOnCancel => on_cancel self
  | OpStartDeletionProcess => start_deletion_process self
  | OpWorker => _ ← run_next; mret self
  end.

(** An operation that raises is rolled back: nothing changes. *)
Definition apply_operation (op : Operation) (st : Job * World) : Job * World :=
  match run_operation op st.1 st.2 with
  | Ok st' => st'
  | Raise _ => st
  end.

Definition apply_operations (ops : list Operation) (st : Job * World) : Job * World :=
  fold_left (λ st op, apply_operation op st) ops st.

(** ** Vocabulary of the statements *)

(** The leads of the job's company, as [delete_lead_addresses] selects them. *)
Definition leads_of_company (self : Job) (d : DB) : list string :=
  pluck "name" (filter (col_is "company" (company self)) (table d "Lead")).

(** The [update `tabCustomer` set lead_name=NULL] applied to one row. *)
Definition without_lead (leads : list string) (customer : Row) : Row :=
  if decide (col_in "lead_name" leads customer)
  then <["lead_name" := VNull]> customer
  else customer.

(** [doctype] has a Link field [fieldname] to Company in the schema. *)
Definition links_to_company (d : DB) (doctype fieldname : string) : Prop :=
  ∃ r, r ∈ table d "DocField" ∧
       col_is "fieldtype" "Link" r ∧ col_is "options" "Company" r ∧
       col r "parent" = VStr doctype ∧ col r "fieldname" = VStr fieldname.

(** [doctype] is flagged [issingle] in the schema. *)
Definition is_single (d : DB) (doctype : string) : Prop :=
  ∃ r, r ∈ table d "DocType" ∧ col r "issingle" = VInt 1 ∧
       col r "name" = VStr doctype.

(** The scanned field for which the loop of
    [initialize_doctypes_to_be_deleted_table] appends an inventory row. *)
Definition discovered (self : Job) (d : DB) (tables : list string)
    (docfield : string * string) : Prop :=
  docfield.1 ≠ self_doctype ∧
  (0 < get_number_of_docs_linked_with_specified_company self d docfield.1 docfield.2)%nat ∧
  docfield.1 ∉ tables.

Global Instance discovered_dec self d tables docfield :
  Decision (discovered self d tables docfield).
Proof. unfold discovered. apply _. Defined.

(** The inventory that the loop builds from [inventory], field by field. *)
Fixpoint extend_inventory (self : Job) (d : DB) (tables : list string)
    (docfields : list (string * string))
    (inventory : list TransactionDeletionRecordItem) :
    list TransactionDeletionRecordItem :=
  match docfields with
  | [] => inventory
  | docfield :: rest =>
      extend_inventory self d tables rest
        (if decide (discovered self d tables docfield)
         then inventory ++ [new_item inventory docfield.1 docfield.2 0]
         else inventory)
  end.

(** The doctype and field of an inventory row. *)
Definition entry_field (e : TransactionDeletionRecordItem) : string * string :=
  (doctype_name e, docfield_name e).

(** Exhaustiveness as the specification words it: the inventory holds
    exactly the doctypes with a Link field to Company that are not ignored
    and have a record of the job's company. *)
Definition spec_inventory_exhaustive (self : Job) (d : DB)
    (inventory : list TransactionDeletionRecordItem) : Prop :=
  ∀ doctype,
    doctype ∈ (doctype_name <$> inventory) ↔
    (∃ fieldname,
       links_to_company d doctype fieldname ∧
       (0 < get_number_of_docs_linked_with_specified_company self d doctype fieldname)%nat) ∧
    doctype ∉ get_doctypes_to_be_ignored_list self d.

(** The tables of dependent artifacts that the transaction stage writes
    whatever the inventory holds. *)
Definition artifact_tables : list string :=
  ["Version"; "Communication"; "Comment"; "File"; "Series"].

(** The rows of [doctype] are [rows], and no Table field of the schema has
    [doctype] as its child table. *)
Definition untouched (doctype : string) (rows : list Row) (d : DB) : Prop :=
  table d doctype = rows ∧
  ∀ r, r ∈ table d "DocField" → col_is "fieldtype" "Table" r →
       ¬ col_is "options" doctype r.

(** A computation that, when it returns, has kept [J] true of the tables. *)
Definition keeps {A} (J : DB → Prop) (m : M A) : Prop :=
  ∀ w a w', J (db w) → m w = Ok (a, w') → J (db w').

(** A computation that, started in a world satisfying [I], returns only
    values satisfying [R] in worlds satisfying [I]. *)
Definition ensures {A} (I : World → Prop) (R : A → Prop) (m : M A) : Prop :=
  ∀ w a w', I w → m w = Ok (a, w') → R a ∧ I w'.

(** Every checkpoint flag of the job is set. *)
Definition all_flags_set (j : Job) : Prop :=
  clear_notifications j = true ∧ delete_bin_data j = true ∧
  delete_leads_and_addresses j = true ∧ delete_transactions j = true ∧
  initialize_doctypes_table j = true ∧ reset_company_default_values j = true.

(** The status moves as the specification words them: an operation leaves
    the status as it is or makes one of the listed moves. *)
Definition spec_status_transition (before after : Job) : Prop :=
  status after = status before ∨
  (status before = "Queued" ∧ status after = "Running") ∨
  ((status before = "Queued" ∨ status before = "Running") ∧
   status after = "Cancelled") ∨
  (status before = "Running" ∧ status after = "Completed" ∧ all_flags_set after).

(** The status of the stored document, or of a document in memory, is one
    of [allowed]. *)
Definition stored_status_allowed (allowed : list string) (w : World) : Prop :=
  status (stored w) ∈ allowed.
Definition status_allowed (allowed : list string) (j : Job) : Prop :=
  status j ∈ allowed.
Definition anything {A} (_ : A) : Prop := True.

(** [m] is the greatest element of [l] in the byte-wise order. *)
Definition is_greatest (m : string) (l : list string) : Prop :=
  m ∈ l ∧ ∀ n, n ∈ l → String.compare n m ≠ Gt.

(** The [update `tabSeries` set current = n where name = prefix] applied to
    one row. *)
Definition set_current (prefix : string) (n : Z) (series : Row) : Row :=
  if decide (col_is "name" prefix series)
  then <["current" := VInt n]> series
  else series.

(** A [LIKE] pattern character that does not stand for itself. *)
Definition is_wildcard (c : ascii) : bool :=
  (Ascii.eqb c "%" || Ascii.eqb c "_" || Ascii.eqb c "\")%bool.

Fixpoint has_wildcard (s : string) : bool :=
  match s with
  | EmptyString => false
  | String c rest => (is_wildcard c || has_wildcard rest)%bool
  end.

(** ** Sample data *)

Definition row (cells : list (string * value)) : Row := list_to_map cells.
Definition database (tables : list (string * list Row)) : DB := list_to_map tables.

(** A submitted job for company C1 that has not started. *)
Definition purge_job : Job :=
  {| name := "TDR-0001"; company := "C1";
     clear_notifications := false; delete_bin_data := false;
     delete_leads_and_addresses := false; delete_transactions := false;
     doctypes := []; doctypes_to_be_ignored := [];
     initialize_doctypes_table := false;
     reset_company_default_values := false; status := "Queued" |}.

Definition world_of (d : DB) (job : Job) : World :=
  {| db := d; stored := job; queue := []; notification_cache := [] |}.

(** Address A1 is linked to lead L1 of C1 and to a customer; address A2 is
    linked to lead L1 only. *)
Definition a1_lead_link : Row :=
  row [("parent", VStr "A1"); ("parenttype", VStr "Address");
       ("link_doctype", VStr "Lead"); ("link_name", VStr "L1")].
Definition a1_customer_link : Row :=
  row [("parent", VStr "A1"); ("parenttype", VStr "Address");
       ("link_doctype", VStr "Customer"); ("link_name", VStr "CU9")].
Definition a2_lead_link : Row :=
  row [("parent", VStr "A2"); ("parenttype", VStr "Address");
       ("link_doctype", VStr "Lead"); ("link_name", VStr "L1")].
Definition a1_address : Row := row [("name", VStr "A1")].
Definition a2_address : Row := row [("name", VStr "A2")].

Definition lead_world : World :=
  world_of
    (database
       [ ("Lead", [row [("name", VStr "L1"); ("company", VStr "C1")];
                   row [("name", VStr "L7"); ("company", VStr "C2")]]);
         ("Dynamic Link", [a1_lead_link; a1_customer_link; a2_lead_link]);
         ("Address", [a1_address; a2_address]);
         ("Customer", [row [("name", VStr "CU9"); ("lead_name", VStr "L1")]]) ])
    purge_job.

(** A schema with three doctypes that have a Link field to Company: an
    ordinary one, a child table, and the job's own doctype.  Each has one
    record of company C1. *)
Definition company_link (doctype : string) : Row :=
  row [("parent", VStr doctype); ("fieldname", VStr "company");
       ("fieldtype", VStr "Link"); ("options", VStr "Company")].

Definition doctype_row (doctype : string) (issingle istable : Z) : Row :=
  row [("name", VStr doctype); ("issingle", VInt issingle); ("istable", VInt istable)].

Definition scan_world : World :=
  world_of
    (database
       [ ("DocType", [doctype_row "Sales Invoice" 0 0;
                      doctype_row "Customer Credit Limit" 0 1;
                      doctype_row "Transaction Deletion Record" 0 0]);
         ("DocField", [company_link "Sales Invoice";
                       company_link "Customer Credit Limit";
                       company_link "Transaction Deletion Record"]);
         ("Sales Invoice", [row [("name", VStr "SINV-0001"); ("company", VStr "C1")]]);
         ("Customer Credit Limit",
            [row [("name", VStr "ccl1"); ("parent", VStr "CU9"); ("company", VStr "C1")]]);
         ("Transaction Deletion Record",
            [row [("name", VStr "TDR-0001"); ("company", VStr "C1")]]) ])
    purge_job.

(** Global Defaults is a single doctype with a Link field to Company; it is
    in no excluded-doctypes table.  Sales Invoice is an ordinary doctype. *)
Definition singles_world : World :=
  world_of
    (database
       [ ("DocType", [doctype_row "Sales Invoice" 0 0;
                      doctype_row "Global Defaults" 1 0]);
         ("DocField", [company_link "Sales Invoice";
                       row [("parent", VStr "Global Defaults");
                            ("fieldname", VStr "default_company");
                            ("fieldtype", VStr "Link"); ("options", VStr "Company")]]);
         ("Sales Invoice", [row [("name", VStr "SINV-0001"); ("company", VStr "C1")]]);
         ("Global Defaults",
            [row [("name", VStr "Global Defaults"); ("default_company", VStr "C1")]]) ])
    purge_job.

(** Sales Invoice and Purchase Invoice are named by a series with a counter
    placeholder, Quotation by a field.  The invoices of C1 are gone: two
    sales invoices of C2 are left and no purchase invoice. *)
Definition series_world : World :=
  world_of
    (database
       [ ("DocType",
            [row [("name", VStr "Sales Invoice"); ("autoname", VStr "INV-.#####")];
             row [("name", VStr "Purchase Invoice"); ("autoname", VStr "PINV-.#####")];
             row [("name", VStr "Quotation"); ("autoname", VStr "field:title")]]);
         ("Sales Invoice", [row [("name", VStr "INV-00007"); ("company", VStr "C2")];
                            row [("name", VStr "INV-00042"); ("company", VStr "C2")]]);
         ("Purchase Invoice", []);
         ("Series", [row [("name", VStr "INV-"); ("current", VInt 57)];
                     row [("name", VStr "PINV-"); ("current", VInt 12)]]) ])
    purge_job.

(** The scenario of the specification: the inventory holds Sales Invoice,
    with three invoices of C1 that carry comments and item rows, and
    Quotation, whose only record belongs to another company.  The five
    earlier stages are done. *)
Definition inventory_row (i : nat) (doctype : string) : TransactionDeletionRecordItem :=
  {| idx := i; doctype_name := doctype; docfield_name := "company";
     no_of_docs := 0; done := false |}.

Definition scenario_job : Job :=
  {| name := "TDR-0001"; company := "C1";
     clear_notifications := true; delete_bin_data := true;
     delete_leads_and_addresses := true; delete_transactions := false;
     doctypes := [inventory_row 1 "Sales Invoice"; inventory_row 2 "Quotation"];
     doctypes_to_be_ignored := [];
     initialize_doctypes_table := true;
     reset_company_default_values := true; status := "Queued" |}.

Definition invoice (name company : string) : Row :=
  row [("name", VStr name); ("company", VStr company)].

Definition comment_on (name doctype docname : string) : Row :=
  row [("name", VStr name); ("reference_doctype", VStr doctype);
       ("reference_name", VStr docname)].

Definition item_of (name parent : string) : Row :=
  row [("name", VStr name); ("parent", VStr parent);
       ("parenttype", VStr "Sales Invoice")].

Definition scenario_world : World :=
  world_of
    (database
       [ ("DocType", [doctype_row "Sales Invoice" 0 0; doctype_row "Quotation" 0 0;
                      doctype_row "Sales Invoice Item" 0 1]);
         ("DocField", [company_link "Sales Invoice"; company_link "Quotation";
                       row [("parent", VStr "Sales Invoice"); ("fieldname", VStr "items");
                            ("fieldtype", VStr "Table");
                            ("options", VStr "Sales Invoice Item")]]);
         ("Sales Invoice", [invoice "SINV-00001" "C1"; invoice "SINV-00002" "C1";
                            invoice "SINV-00003" "C1"]);
         ("Quotation", [invoice "QTN-00001" "C2"]);
         ("Sales Invoice Item", [item_of "i1" "SINV-00001"; item_of "i2" "SINV-00002";
                                 item_of "i3" "SINV-00003"]);
         ("Comment", [comment_on "c1" "Sales Invoice" "SINV-00001";
                      comment_on "c2" "Sales Invoice" "SINV-00003"]) ])
    scenario_job.

(** One invoice more than a batch: SINV-00001 to SINV-05001, all of C1, the
    first and the last with a comment. *)
Definition digit (n : nat) : ascii := ascii_of_nat (48 + n mod 10).

Definition five_digits (n : nat) : string :=
  String (digit (n / 10 / 10 / 10 / 10))
    (String (digit (n / 10 / 10 / 10))
       (String (digit (n / 10 / 10))
          (String (digit (n / 10)) (String (digit n) EmptyString)))).

Definition numbered_invoice (n : nat) : Row :=
  invoice ("SINV-" +:+ five_digits n) "C1".

Definition large_job : Job :=
  {| name := "TDR-0001"; company := "C1";
     clear_notifications := true; delete_bin_data := true;
     delete_leads_and_addresses := true; delete_transactions := false;
     doctypes := [inventory_row 1 "Sales Invoice"];
     doctypes_to_be_ignored := [];
     initialize_doctypes_table := true;
     reset_company_default_values := true; status := "Queued" |}.

Definition large_world : World :=
  world_of
    (database
       [ ("DocType", [doctype_row "Sales Invoice" 0 0]);
         ("DocField", [company_link "Sales Invoice"]);
         ("Sales Invoice", numbered_invoice <$> seq 1 (S batch_size));
         ("Comment", [comment_on "c1" "Sales Invoice" "SINV-00001";
                      comment_on "c2" "Sales Invoice" "SINV-05001"]) ])
    large_job.

(** The call that [chain_callback] queues for the sample jobs. *)
Definition queued (method : string) : Enqueued :=
  {| q_function := "frappe.utils.background_jobs.run_doc_method";
     q_doctype := self_doctype; q_name := "TDR-0001"; q_doc_method := method;
     q_queue := "long"; q_enqueue_after_commit := true |}.

(** [large_world] after one run of the transaction stage. *)
Definition large_world_after : World :=
  {| db := database
             [ ("DocType", [doctype_row "Sales Invoice" 0 0]);
               ("DocField", [company_link "Sales Invoice"]);
               ("Sales Invoice", []);
               ("Comment", [comment_on "c2" "Sales Invoice" "SINV-05001"]) ];
     stored := set_delete_transactions true large_job;
     queue := [queued "delete_company_transactions"];
     notification_cache := [] |}.

(** [scenario_world] after one run of the transaction stage. *)
Definition scenario_world_after : World :=
  {| db := database
             [ ("DocType", [doctype_row "Sales Invoice" 0 0; doctype_row "Quotation" 0 0;
                            doctype_row "Sales Invoice Item" 0 1]);
               ("DocField", [company_link "Sales Invoice"; company_link "Quotation";
                             row [("parent", VStr "Sales Invoice");
                                  ("fieldname", VStr "items");
                                  ("fieldtype", VStr "Table");
                                  ("options", VStr "Sales Invoice Item")]]);
               ("Sales Invoice", []);
               ("Quotation", [invoice "QTN-00001" "C2"]);
               ("Sales Invoice Item", []);
               ("Comment", []) ];
     stored :=
       set_delete_transactions true
         (set_doctypes
            [inventory_row 1 "Sales Invoice"; set_done true (inventory_row 2 "Quotation")]
            scenario_job);
     queue := [queued "delete_company_transactions"];
     notification_cache := [] |}.

(** A store on which the whole pipeline runs: the company record exists and
    one sales invoice refers to it. *)
Definition pipeline_world : World :=
  world_of
    (database
       [ ("DocType", [doctype_row "Sales Invoice" 0 0]);
         ("DocField", [company_link "Sales Invoice"]);
         ("Sales Invoice", [invoice "SINV-00001" "C1"]);
         ("Company", [row [("name", VStr "C1"); ("total_monthly_sales", VInt 900)]]) ])
    purge_job.

(** A job whose inventory holds Sales Invoice, named by the series INV-:
    one invoice of C1 and two of another company. *)
Definition series_stage_world : World :=
  world_of
    (database
       [ ("DocType",
            [row [("name", VStr "Sales Invoice"); ("autoname", VStr "INV-.#####")]]);
         ("DocField", [company_link "Sales Invoice"]);
         ("Sales Invoice", [invoice "INV-00007" "C2"; invoice "INV-00042" "C2";
                            invoice "INV-00043" "C1"]);
         ("Series", [row [("name", VStr "INV-"); ("current", VInt 43)]]) ])
    large_job.

(** ** Vocabulary of the further properties *)

(** The Bin row [bin] is kept in a warehouse of the job's company. *)
Definition in_warehouse_of_company (self : Job) (d : DB) (bin : Row) : Prop :=
  ∃ warehouse name,
    warehouse ∈ table d "Warehouse" ∧
    col_is "company" (company self) warehouse ∧
    col warehouse "name" = VStr name ∧
    col bin "warehouse" = VStr name.

(** The Dynamic Link row [link] is an Address link to a lead of the job's
    company: the rows that [delete_lead_addresses] removes. *)
Definition is_lead_address_link (self : Job) (d : DB) (link : Row) : Prop :=
  col_is "link_doctype" "Lead" link ∧ col_is "parenttype" "Address" link ∧
  col_in "link_name" (leads_of_company self d) link.

(** The two assignments of [reset_company_values] applied to one Company
    row. *)
Definition reset_sales (company : string) (r : Row) : Row :=
  if decide (col_is "name" company r)
  then <["sales_monthly_history" := VNull]> (<["total_monthly_sales" := VInt 0]> r)
  else r.

(** The Address row [a] is the parent of a link row to a lead of the job's
    company: the addresses that [delete_lead_addresses] considers. *)
Definition address_of_lead (self : Job) (d : DB) (a : Row) : Prop :=
  ∃ link p,
    link ∈ table d "Dynamic Link" ∧
    col_in "link_name" (leads_of_company self d) link ∧
    col link "parent" = VStr p ∧
    col a "name" = VStr p.

(** The six checkpointed steps of the pipeline: the five stages with a
    successor, and the transaction stage that ends it. *)
Inductive Step : Type :=
| Checkpointed (s : Stage)
| TransactionsDeleted.

Definition step_method (st : Step) : Job → M Job :=
  match st with
  | Checkpointed s => stage_method s
  | TransactionsDeleted => delete_company_transactions
  end.

Definition step_flag (st : Step) : Job → bool :=
  match st with
  | Checkpointed s => stage_flag s
  | TransactionsDeleted => delete_transactions
  end.

(** A computation that returns only values satisfying [R]. *)
Definition returns {A} (R : A → Prop) (m : M A) : Prop :=
  ∀ w a w', m w = Ok (a, w') → R a.

Global Instance Stage_eq_dec : EqDecision Stage.
Proof. solve_decision. Defined.

Global Instance Step_eq_dec : EqDecision Step.
Proof. solve_decision. Defined.

(** A property of the tables that no deletion of rows and no write of a cell
    that is not text can break. *)
Definition stable (J : DB → Prop) : Prop :=
  (∀ t (P : Row → Prop) (dec : ∀ r, Decision (P r)) d,
     J d → J (@db_delete t P dec d)) ∧
  (∀ t (P : Row → Prop) (dec : ∀ r, Decision (P r)) c v d,
     (∀ s, v ≠ VStr s) → J d → J (@db_update t P dec c v d)).

(** A computation that, when it returns, has made [J] true of the tables. *)
Definition establishes {A} (J : DB → Prop) (m : M A) : Prop :=
  ∀ w a w', m w = Ok (a, w') → J (db w').

(** The company has no record in the doctype of an inventory entry. *)
Definition purged (self : Job) (item : TransactionDeletionRecordItem) (d : DB) : Prop :=
  get_number_of_docs_linked_with_specified_company
    self d (doctype_name item) (docfield_name item) = O.

(** A computation that, started with [J] true of the tables, returns only
    with [J'] true of them. *)
Definition leads_to {A} (J J' : DB → Prop) (m : M A) : Prop :=
  ∀ w a w', J (db w) → m w = Ok (a, w') → J' (db w').

(** An inventory entry the transaction stage works on. *)
Definition open_entry (item : TransactionDeletionRecordItem) : Prop :=
  doctype_name item ≠ self_doctype ∧ done item = false.

(** The rows of [doctype] that the open entries of an inventory leave: each
    open entry for [doctype] drops the rows whose field holds the company. *)
Fixpoint survivors (self : Job) (doctype : string)
    (inventory : list TransactionDeletionRecordItem) (rows : list Row) : list Row :=
  match inventory with
  | [] => rows
  | item :: rest =>
      survivors self doctype rest
        (if decide (doctype_name item = doctype ∧ open_entry item)
         then filter (λ r, ¬ col_is (docfield_name item) (company self) r) rows
         else rows)
  end.

(** The SQL [update `tabFile` set attached_to_doctype = NULL,
    attached_to_name = NULL] applied to one row. *)
Definition detached (file : Row) : Row :=
  <["attached_to_name" := VNull]> (<["attached_to_doctype" := VNull]> file).

(** The names that [get_all] finds for the references of [doctype] to
    [names]; [table], [ref_doctype] and [ref_name] name the table queried and
    its two reference columns. *)
Definition referring (d : DB) (t ref_doctype ref_name doctype : string)
    (names : list string) : list string :=
  pluck "name"
    (get_all d t (λ r, col_is ref_doctype doctype r ∧ col_in ref_name names r) None).

(** A computation that, when it returns, has left the stored job and the
    queue as they were. *)
Definition keeps_job {A} (m : M A) : Prop :=
  ∀ w a w', m w = Ok (a, w') → stored w' = stored w ∧ queue w' = queue w.

(** An inventory row as it was, or marked done. *)
Definition marked (before after : TransactionDeletionRecordItem) : Prop :=
  after = before ∨ after = set_done true before.

(** How a job document moves forward: its name, company, status and
    excluded-doctypes table stay, a checkpoint flag that is set stays set,
    and the inventory keeps its rows, some of them marked done, with new
    rows after them. *)
Definition advances (before after : Job) : Prop :=
  name after = name before ∧
  company after = company before ∧
  status after = status before ∧
  doctypes_to_be_ignored after = doctypes_to_be_ignored before ∧
  (∀ st, step_flag st before = true → step_flag st after = true) ∧
  ∃ kept added,
    doctypes after = (kept ++ added)%list ∧
    Forall2 marked (doctypes before) kept.

(** A computation that, when it returns, has moved the stored job forward. *)
Definition advances_stored {A} (m : M A) : Prop :=
  ∀ w a w', m w = Ok (a, w') → advances (stored w) (stored w').

(** The background worker running [n] queued calls one after the other. *)
Fixpoint run_worker (n : nat) : M () :=
  match n with
  | O => mret ()
  | S n' => _ ← run_next; run_worker n'
  end.

(** The number of calls that a queued call of [method] stands for once every
    checkpoint flag is set: the call itself and those chained from it. *)
Definition chain_length (method : string) : nat :=
  if decide (method = "delete_bins") then 6
  else if decide (method = "delete_lead_addresses") then 5
  else if decide (method = "reset_company_values") then 4
  else if decide (method = "delete_notifications") then 3
  else if decide (method = "initialize_doctypes_to_be_deleted_table") then 2
  else if decide (method = "delete_company_transactions") then 1
  else if decide (method = "start_deletion_process") then 16
  else 0.

Definition pending (q : list Enqueued) : nat :=
  sum_list ((λ call, chain_length (q_doc_method call)) <$> q).

(** The world with another status on the stored job, and a result carried
    over to it. *)
Definition with_status (v : string) (w : World) : World :=
  set_stored (set_status v (stored w)) w.

Definition lifted {A} (v : string) (g : A → A) (r : result (A * World)) :
    result (A * World) :=
  match r with
  | Ok (a, w') => Ok (g a, with_status v w')
  | Raise e => Raise e
  end.

(** [m1], run on the world with status [v], does what [m2] does on the
    world itself. *)
Definition blind {A} (v : string) (g : A → A) (m1 m2 : M A) : Prop :=
  ∀ w, m1 (with_status v w) = lifted v g (m2 w).

(** ** Further sample data *)

(** Two bins, one in a warehouse of C1 and one in a warehouse of C2. *)
Definition bins_world : World :=
  world_of
    (database
       [ ("Warehouse", [row [("name", VStr "Stores - C1"); ("company", VStr "C1")];
                        row [("name", VStr "Stores - C2"); ("company", VStr "C2")]]);
         ("Bin", [row [("name", VStr "b1"); ("warehouse", VStr "Stores - C1")];
                  row [("name", VStr "b2"); ("warehouse", VStr "Stores - C2")]]) ])
    purge_job.

(** * Properties *)

(** ** Tables after a write *)

Lemma table_db_delete t P `{!∀ r, Decision (P r)} (d : DB) t' :
  table (db_delete t P d) t' =
  if decide (t = t') then filter (λ r, ¬ P r) (table d t) else table d t'.
Proof.
  unfold table, db_delete. rewrite lookup_alter.
  case_decide; subst; [|done]. by destruct (d !! t').
Qed.

Lemma table_db_update t P `{!∀ r, Decision (P r)} c v (d : DB) t' :
  table (db_update t P c v d) t' =
  if decide (t = t')
  then (λ r, if decide (P r) then <[c := v]> r else r) <$> table d t
  else table d t'.
Proof.
  unfold table, db_update. rewrite lookup_alter.
  case_decide; subst; [|done]. by destruct (d !! t').
Qed.

Lemma table_db_delete_eq t P `{!∀ r, Decision (P r)} (d : DB) :
  table (db_delete t P d) t = filter (λ r, ¬ P r) (table d t).
Proof. rewrite table_db_delete. by rewrite decide_True. Qed.

Lemma table_db_delete_ne t P `{!∀ r, Decision (P r)} (d : DB) t' :
  t ≠ t' → table (db_delete t P d) t' = table d t'.
Proof. intros. rewrite table_db_delete. by rewrite decide_False. Qed.

Lemma table_db_update_eq t P `{!∀ r, Decision (P r)} c v (d : DB) :
  table (db_update t P c v d) t =
  (λ r, if decide (P r) then <[c := v]> r else r) <$> table d t.
Proof. rewrite table_db_update. by rewrite decide_True. Qed.

Lemma table_db_update_ne t P `{!∀ r, Decision (P r)} c v (d : DB) t' :
  t ≠ t' → table (db_update t P c v d) t' = table d t'.
Proof. intros. rewrite table_db_update. by rewrite decide_False. Qed.

(** Pushes [table] through the writes to tables with literal names. *)
Ltac tables :=
  repeat first
    [ rewrite table_db_delete_eq
    | rewrite table_db_update_eq
    | rewrite table_db_delete_ne by discriminate
    | rewrite table_db_update_ne by discriminate ].

Lemma not_col_in_nil c (r : Row) : ¬ col_in c [] r.
Proof. intros (s & _ & Hs). by apply elem_of_nil in Hs. Qed.

Lemma pluck_elem c (rows : list Row) r s :
  r ∈ rows → col r c = VStr s → s ∈ pluck c rows.
Proof.
  intros Hr Hc. unfold pluck. apply list_elem_of_omap. exists r. split; [done|].
  unfold str_col. by rewrite Hc.
Qed.

Lemma elem_pluck c (rows : list Row) s :
  s ∈ pluck c rows → ∃ r, r ∈ rows ∧ col r c = VStr s.
Proof.
  unfold pluck. intros (r & Hr & Hs)%list_elem_of_omap. exists r. split; [done|].
  unfold str_col in Hs. destruct (col r c); by simplify_eq.
Qed.

(** Closes a decidable goal about the sample data by evaluation. *)
Ltac by_evaluation := apply (bool_decide_unpack _); vm_compute; exact I.

(** ** Idempotent stage guards *)

(** C3: a stage whose checkpoint flag is already set changes nothing in the
    world (tables, stored document, notification cache) or in the document,
    and appends exactly one call to the queue: the [run_doc_method] call of
    the method that follows the stage in the declared order. *)
Theorem completed_stage_only_chains (s : Stage) (self : Job) (w : World) :
  stage_flag s self = true →
  ∃ call,
    stage_method s self w = Ok (self, set_queue (queue w ++ [call]) w) ∧
    q_function call = "frappe.utils.background_jobs.run_doc_method" ∧
    q_doctype call = self_doctype ∧
    q_name call = name self ∧
    q_enqueue_after_commit call = true ∧
    doc_method (q_doc_method call) = Some (next_method s).
Proof.
  intros Hflag. destruct s; simpl in Hflag;
    (eexists; split;
     [ cbv [stage_method delete_bins delete_lead_addresses reset_company_values
            delete_notifications initialize_doctypes_to_be_deleted_table];
       rewrite Hflag; reflexivity
     | repeat split; reflexivity ]).
Qed.

Lemma completed_stage_only_chains_witness :
  ∃ call,
    delete_bins (set_delete_bin_data true purge_job) lead_world =
      Ok (set_delete_bin_data true purge_job,
          set_queue (queue lead_world ++ [call]) lead_world) ∧
    q_function call = "frappe.utils.background_jobs.run_doc_method" ∧
    q_doctype call = self_doctype ∧
    q_name call = "TDR-0001" ∧
    q_enqueue_after_commit call = true ∧
    doc_method (q_doc_method call) = Some delete_lead_addresses.
Proof.
  apply (completed_stage_only_chains BinsCleared (set_delete_bin_data true purge_job)).
  reflexivity.
Defined.


(** ** Validation on submission *)

Lemma for_each_guard {A} (P : A → Prop) `{!∀ x, Decision (P x)} (e : exn)
    (l : list A) (w : World) :
  for_each l (λ x (_ : ()), if decide (¬ P x) then raise e else mret ()) () w =
  if decide (Forall P l) then Ok ((), w) else Raise e.
Proof.
  induction l as [|x l IH].
  - cbn [for_each]. destruct (decide (Forall P [])) as [_|Hnil]; [done|].
    by destruct Hnil.
  - cbn [for_each]. unfold mbind, M_bind.
    destruct (decide (¬ P x)) as [Hx|Hx].
    + cbn. destruct (decide (Forall P (x :: l))) as [HF|_]; [|done].
      by inversion HF.
    + apply dec_stable in Hx. cbn. fold (@mbind M _). rewrite IH.
      destruct (decide (Forall P l)) as [Hl|Hl];
        destruct (decide (Forall P (x :: l))) as [HF|HF]; try done.
      * destruct HF. by constructor.
      * by inversion HF.
Qed.

Lemma validate_run (session_roles hooks : list string) (self : Job) (w : World) :
  validate session_roles hooks self w =
    if decide ("System Manager" ∈ session_roles) then
      if decide (Forall (λ row, doctype_name row ∈ get_doctypes_to_be_ignored hooks)
                   (doctypes_to_be_ignored self))
      then Ok ((), w)
      else Raise (ValidationError "Not Allowed")
    else Raise PermissionError.
Proof.
  unfold validate, only_for, mbind, M_bind.
  destruct (decide ("System Manager" ∈ session_roles)) as [Hrole|Hrole]; [|done].
  simpl. unfold validate_doctypes_to_be_ignored.
  apply (for_each_guard
           (λ row, doctype_name row ∈ get_doctypes_to_be_ignored hooks)).
Qed.

(** C8: [validate] raises [PermissionError] for a session without the
    System Manager role; for a privileged session it raises the validation
    error titled "Not Allowed" as soon as some row of the excluded-doctypes
    table is outside the computed list, and returns normally, leaving the
    world as it was, when every row is inside it.  The computed list is the
    built-in list followed by the hook list, and nothing else. *)
Theorem validate_outcome (session_roles hooks : list string) (self : Job) (w : World) :
  validate session_roles hooks self w =
    (if decide ("System Manager" ∈ session_roles) then
       if decide (Forall (λ row, doctype_name row ∈ get_doctypes_to_be_ignored hooks)
                    (doctypes_to_be_ignored self))
       then Ok ((), w)
       else Raise (ValidationError "Not Allowed")
     else Raise PermissionError) ∧
  (∀ doctype, doctype ∈ get_doctypes_to_be_ignored hooks ↔
              doctype ∈ builtin_doctypes_to_be_ignored ∨ doctype ∈ hooks).
Proof.
  split; [apply validate_run|].
  intros doctype. unfold get_doctypes_to_be_ignored. apply elem_of_app.
Qed.

(** ** Flags on submission *)

(** C5: [before_save] clears the status and five flags (notifications, bin
    data, leads and addresses, transactions, company values) but leaves
    [initialize_doctypes_table] as it was.  A document that carries the
    inventory-initialised flag, such as a copy of a finished job, still
    carries it after [before_save] and [on_submit]. *)
Theorem before_save_keeps_inventory_flag (self : Job) (w : World) :
  let saved := before_save self in
  status saved = "" ∧
  clear_notifications saved = false ∧
  delete_bin_data saved = false ∧
  delete_leads_and_addresses saved = false ∧
  delete_transactions saved = false ∧
  reset_company_default_values saved = false ∧
  initialize_doctypes_table saved = initialize_doctypes_table self ∧
  ∃ w', on_submit saved w = Ok (set_status "Queued" saved, w') ∧
        initialize_doctypes_table (set_status "Queued" saved) =
        initialize_doctypes_table self.
Proof.
  simpl. repeat split. eexists. split; reflexivity.
Qed.

(** ** Lead and address cleanup *)



(** ** The inventory after the scan *)

Lemma set_doctypes_id (self : Job) : set_doctypes (doctypes self) self = self.
Proof. by destruct self. Qed.

Lemma extend_inventory_set_doctypes l (self : Job) d tables docfields inventory :
  extend_inventory (set_doctypes l self) d tables docfields inventory =
  extend_inventory self d tables docfields inventory.
Proof.
  revert inventory. induction docfields as [|docfield rest IH]; intros inventory; [done|].
  cbn [extend_inventory]. rewrite IH. reflexivity.
Qed.

Lemma scan_entry (tables : list string) (docfield : string * string) (self : Job) (w : World) :
  ∃ w',
    initialize_doctypes_to_be_deleted_table_entry tables docfield self w =
      Ok (set_doctypes
            (if decide (discovered self (db w) tables docfield)
             then doctypes self ++ [new_item (doctypes self) docfield.1 docfield.2 0]
             else doctypes self) self, w') ∧
    db w' = db w ∧ queue w' = queue w ∧
    notification_cache w' = notification_cache w ∧
    (stored w = self →
     stored w' =
       set_doctypes
         (if decide (discovered self (db w) tables docfield)
          then doctypes self ++ [new_item (doctypes self) docfield.1 docfield.2 0]
          else doctypes self) self).
Proof.
  unfold initialize_doctypes_to_be_deleted_table_entry, discovered.
  destruct (decide (docfield.1 ≠ self_doctype)) as [Hself|Hself].
  - unfold mbind, M_bind, get_db.
    destruct (decide (0 < get_number_of_docs_linked_with_specified_company
                            self (db w) docfield.1 docfield.2)%nat) as [Hn|Hn].
    + unfold populate_doctypes_table, save, mbind, M_bind, mret, M_ret.
      destruct (decide (docfield.1 ∉ tables)) as [Ht|Ht].
      * rewrite decide_True by done. eexists. split; [reflexivity|]. by repeat split.
      * rewrite decide_False by tauto. rewrite set_doctypes_id.
        eexists. split; [reflexivity|]. by repeat split.
    + rewrite decide_False by tauto. rewrite set_doctypes_id.
      eexists. split; [reflexivity|]. by repeat split.
  - rewrite decide_False by tauto. rewrite set_doctypes_id.
    eexists. split; [reflexivity|]. by repeat split.
Qed.

Lemma scan_loop (tables : list string) (docfields : list (string * string)) :
  ∀ (self : Job) (w : World),
    ∃ w',
      for_each docfields (initialize_doctypes_to_be_deleted_table_entry tables) self w =
        Ok (set_doctypes
              (extend_inventory self (db w) tables docfields (doctypes self)) self, w') ∧
      db w' = db w ∧ queue w' = queue w ∧
      notification_cache w' = notification_cache w ∧
      (stored w = self →
       stored w' =
         set_doctypes
           (extend_inventory self (db w) tables docfields (doctypes self)) self).
Proof.
  induction docfields as [|docfield rest IH]; intros self w.
  - exists w. cbn. rewrite set_doctypes_id. done.
  - cbn [for_each extend_inventory].
    destruct (scan_entry tables docfield self w) as (w1 & Hrun & Hdb & Hq & Hn & Hst).
    unfold mbind at 1, M_bind at 1. rewrite Hrun.
    destruct (IH (set_doctypes
                    (if decide (discovered self (db w) tables docfield)
                     then doctypes self ++ [new_item (doctypes self) docfield.1 docfield.2 0]
                     else doctypes self) self) w1)
      as (w' & Hrun' & Hdb' & Hq' & Hn' & Hst').
    rewrite Hdb in Hrun', Hdb', Hst'.
    rewrite extend_inventory_set_doctypes in Hrun', Hst'.
    exists w'. split; [rewrite Hrun'; reflexivity|].
    split; [done|]. split; [congruence|]. split; [congruence|].
    intros Hw. rewrite (Hst' (Hst Hw)). reflexivity.
Qed.


Lemma extend_inventory_elem (self : Job) d tables docfields :
  ∀ inventory docfield,
    docfield ∈ (entry_field <$> extend_inventory self d tables docfields inventory) ↔
    docfield ∈ (entry_field <$> inventory) ∨
    (docfield ∈ docfields ∧ discovered self d tables docfield).
Proof.
  induction docfields as [|[t0 f0] rest IH]; intros inventory docfield;
    cbn [extend_inventory].
  - split; [by left|]. intros [?|[Hin _]]; [done|]. by apply elem_of_nil in Hin.
  - rewrite IH. destruct (decide (discovered self d tables (t0, f0))) as [Hd|Hd].
    + rewrite fmap_app, elem_of_app. cbn. rewrite list_elem_of_singleton.
      unfold entry_field at 2. cbn. rewrite elem_of_cons.
      split.
      * intros [[?|Heq]|[? ?]]; subst; eauto.
      * intros [?|[[Heq|?] ?]]; subst; eauto.
    + rewrite elem_of_cons. split.
      * intros [?|[? ?]]; eauto.
      * intros [?|[[Heq|?] ?]]; subst; eauto. done.
Qed.

Lemma extend_inventory_fresh (self : Job) d tables docfields :
  ∀ inventory,
    Forall (λ e, done e = false) inventory →
    Forall (λ e, done e = false) (extend_inventory self d tables docfields inventory).
Proof.
  induction docfields as [|first rest IH]; intros inventory Hinv; cbn [extend_inventory]; [done|].
  apply IH. case_decide; [|done]. apply Forall_app. split; [done|]. by repeat constructor.
Qed.

Lemma company_field_elem (d : DB) ignored doctype fieldname :
  (doctype, fieldname) ∈ get_doctypes_with_company_field d ignored ↔
  links_to_company d doctype fieldname ∧ doctype ∉ ignored.
Proof.
  unfold get_doctypes_with_company_field, get_all, links_to_company.
  rewrite list_elem_of_omap. split.
  - intros (r & [(Hlink & Hopt & Hign) Hr]%list_elem_of_filter & Hpf).
    unfold parent_and_fieldname, str_col in Hpf.
    destruct (col r "parent") as [|p|] eqn:Hp; try discriminate.
    destruct (col r "fieldname") as [|f|] eqn:Hf; try discriminate.
    simplify_eq. split; [by exists r|].
    intros Hin. apply Hign. exists doctype. by rewrite Hp.
  - intros [(r & Hr & Hlink & Hopt & Hp & Hf) Hign]. exists r. split.
    + apply list_elem_of_filter. split; [|done]. split; [done|]. split; [done|].
      intros (s & Hs & Hin). rewrite Hp in Hs. by simplify_eq.
    + unfold parent_and_fieldname, str_col. by rewrite Hp, Hf.
Qed.

(** C4, as the code has it: started with its flag unset and an empty
    inventory, the scan returns, sets the flag, and leaves an inventory of
    fresh rows that holds exactly the fields [(doctype, fieldname)] such that
    [fieldname] is a Link field to Company of [doctype], [doctype] has a
    record of the job's company, is not in the ignore list (singles and the
    job's excluded doctypes), is not the job's own doctype and is not a child
    table. *)
Theorem inventory_after_scan (self : Job) (w : World) :
  initialize_doctypes_table self = false →
  doctypes self = [] →
  ∃ self' w',
    initialize_doctypes_to_be_deleted_table self w = Ok (self', w') ∧
    initialize_doctypes_table self' = true ∧
    db w' = db w ∧
    (stored w = self → stored w' = self') ∧
    Forall (λ e, done e = false) (doctypes self') ∧
    ∀ doctype fieldname,
      (doctype, fieldname) ∈ (entry_field <$> doctypes self') ↔
      links_to_company (db w) doctype fieldname ∧
      (0 < get_number_of_docs_linked_with_specified_company
             self (db w) doctype fieldname)%nat ∧
      (doctype ∉ get_doctypes_to_be_ignored_list self (db w)) ∧
      doctype ≠ self_doctype ∧
      doctype ∉ get_all_child_doctypes (db w).
Proof.
  intros Hflag Hempty. unfold initialize_doctypes_to_be_deleted_table.
  rewrite Hflag. cbn [negb]. unfold mbind, M_bind, get_db.
  destruct (scan_loop (get_all_child_doctypes (db w))
              (get_doctypes_with_company_field (db w)
                 (get_doctypes_to_be_ignored_list self (db w))) self w)
    as (w1 & Hrun & Hdb & Hq & Hn & Hst).
  rewrite Hrun. unfold db_set, chain_callback, enqueue, mret, M_ret.
  eexists _, _. split; [reflexivity|].
  cbn [initialize_doctypes_table set_initialize_doctypes_table doctypes set_doctypes
       db stored set_stored set_queue].
  split; [done|]. split; [done|]. split.
  { intros Hw. by rewrite (Hst Hw). }
  split.
  { apply extend_inventory_fresh. by rewrite Hempty. }
  intros doctype fieldname. rewrite extend_inventory_elem, Hempty, company_field_elem.
  unfold discovered. cbn. rewrite elem_of_nil. tauto.
Qed.


Lemma inventory_after_scan_witness :
  ∃ self' w',
    initialize_doctypes_to_be_deleted_table purge_job scan_world = Ok (self', w') ∧
    initialize_doctypes_table self' = true ∧
    ("Sales Invoice", "company") ∈ (entry_field <$> doctypes self') ∧
    ¬ ("Customer Credit Limit", "company") ∈ (entry_field <$> doctypes self') ∧
    ¬ ("Transaction Deletion Record", "company") ∈ (entry_field <$> doctypes self').
Proof.
  destruct (inventory_after_scan purge_job scan_world eq_refl eq_refl)
    as (self' & w' & Hrun & Hflag & _ & _ & _ & Hinv).
  exists self', w'. split; [exact Hrun|]. split; [exact Hflag|]. split; [|split].
  - apply Hinv. split.
    + exists (company_link "Sales Invoice"). split; [by_evaluation|]. repeat split.
    + repeat split; by_evaluation.
  - intros Hin. apply Hinv in Hin as (_ & _ & _ & _ & Hchild). revert Hchild. by_evaluation.
  - intros Hin. apply Hinv in Hin as (_ & _ & _ & Hown & _). by apply Hown.
Defined.

(** C4, as stated, fails: in [scan_world] the child table Customer Credit
    Limit has a Link field to Company, a record of C1 and is not ignored (as
    has the job's own doctype), yet the inventory after the scan holds Sales
    Invoice only. *)
Lemma inventory_skips_child_and_own_doctype :
  ∃ self' w',
    initialize_doctypes_to_be_deleted_table purge_job scan_world = Ok (self', w') ∧
    doctype_name <$> doctypes self' = ["Sales Invoice"] ∧
    ¬ spec_inventory_exhaustive purge_job (db scan_world) (doctypes self').
Proof.
  eexists _, _. split; [vm_compute; reflexivity|]. split; [vm_compute; reflexivity|].
  intros Hspec. destruct (Hspec "Customer Credit Limit") as [_ Hback].
  assert ("Customer Credit Limit" ∈ ["Sales Invoice"]) as Hin.
  { apply Hback. split.
    - exists "company". split; [|by_evaluation].
      exists (company_link "Customer Credit Limit").
      split; [by_evaluation|]. repeat split.
    - by_evaluation. }
  revert Hin. by_evaluation.
Qed.

(** ** Singleton doctypes *)

Section Keeps.
Context (J : DB → Prop).

Lemma keeps_ret {A} (a : A) : keeps J (mret a).
Proof. intros w a' w' HJ Hrun. unfold mret, M_ret in Hrun. by simplify_eq. Qed.

Lemma keeps_raise {A} (e : exn) : keeps J (raise (A:=A) e).
Proof. intros w a' w' HJ Hrun. discriminate. Qed.

Lemma keeps_bind {A B} (m : M A) (k : A → M B) :
  keeps J m → (∀ a, keeps J (k a)) → keeps J (m ≫= k).
Proof.
  intros Hm Hk w b w' HJ Hrun. unfold mbind, M_bind in Hrun.
  destruct (m w) as [[a w1]|e] eqn:Hmw; [|discriminate].
  eapply Hk; [|exact Hrun]. eapply Hm; [exact HJ|exact Hmw].
Qed.

Lemma keeps_get_db {B} (k : DB → M B) :
  (∀ d, J d → keeps J (k d)) → keeps J (get_db ≫= k).
Proof.
  intros Hk w b w' HJ Hrun. unfold mbind, M_bind, get_db in Hrun.
  eapply Hk; [exact HJ|exact HJ|exact Hrun].
Qed.

Lemma keeps_modify_db (f : DB → DB) :
  (∀ d, J d → J (f d)) → keeps J (modify_db f).
Proof.
  intros Hf w a w' HJ Hrun. unfold modify_db in Hrun. simplify_eq. cbn. by apply Hf.
Qed.

Lemma keeps_for_each {A S} (l : list A) (body : A → S → M S) :
  (∀ x s, x ∈ l → keeps J (body x s)) → ∀ s, keeps J (for_each l body s).
Proof.
  induction l as [|x l IH]; intros Hbody s; cbn [for_each].
  - apply keeps_ret.
  - apply keeps_bind.
    + apply Hbody. by left.
    + intros s'. apply IH. intros y s'' Hy. apply Hbody. by right.
Qed.

Lemma keeps_same_db {A} (m : M A) :
  (∀ w a w', m w = Ok (a, w') → db w' = db w) → keeps J m.
Proof. intros Hm w a w' HJ Hrun. by rewrite (Hm _ _ _ Hrun). Qed.
End Keeps.

Lemma untouched_db_delete single rows t P `{!∀ r, Decision (P r)} (d : DB) :
  t ≠ single → untouched single rows d → untouched single rows (db_delete t P d).
Proof.
  intros Hne [Hrows Hschema]. split.
  - by rewrite table_db_delete_ne.
  - intros r. rewrite table_db_delete.
    destruct (decide (t = "DocField")) as [Heq|Heq]; [|exact (Hschema r)].
    intros [_ Hr]%list_elem_of_filter. rewrite Heq in Hr. exact (Hschema r Hr).
Qed.

Lemma untouched_db_update single rows t P `{!∀ r, Decision (P r)} c v (d : DB) :
  t ≠ single → t ≠ "DocField" →
  untouched single rows d → untouched single rows (db_update t P c v d).
Proof.
  intros Hne Hschema_ne [Hrows Hschema]. split.
  - by rewrite table_db_update_ne.
  - intros r. rewrite table_db_update_ne by done. exact (Hschema r).
Qed.

(** The parts of the transaction stage keep the rows of a doctype that is
    neither the entry's doctype, nor an artifact table, nor a child table. *)
Section Frame.
Context (single : string) (rows : list Row).
Context (Hartifact : single ∉ artifact_tables).

Local Abbreviation J := (untouched single rows).

Lemma artifact_ne t : t ∈ artifact_tables → t ≠ single.
Proof. intros Hin ->. by apply Hartifact. Qed.

Lemma keeps_delete_doc doctype names :
  doctype ∈ artifact_tables → keeps J (delete_doc doctype names).
Proof.
  intros Hin. apply keeps_modify_db. intros d. apply untouched_db_delete.
  by apply artifact_ne.
Qed.

Lemma keeps_delete_version_log doctype names :
  keeps J (delete_version_log doctype names).
Proof.
  apply keeps_modify_db. intros d. apply untouched_db_delete.
  apply artifact_ne. set_solver.
Qed.

Lemma keeps_delete_communications doctype names :
  keeps J (delete_communications doctype names).
Proof.
  unfold delete_communications. apply keeps_get_db. intros d _.
  destruct (pluck _ _); [apply keeps_ret|].
  apply keeps_for_each. intros batch [] _. apply keeps_delete_doc. set_solver.
Qed.

Lemma keeps_delete_comments doctype names :
  keeps J (delete_comments doctype names).
Proof.
  unfold delete_comments. apply keeps_get_db. intros d _.
  destruct (pluck _ _); [apply keeps_ret|].
  apply keeps_for_each. intros batch [] _. apply keeps_delete_doc. set_solver.
Qed.

Lemma keeps_unlink_attachments doctype names :
  keeps J (unlink_attachments doctype names).
Proof.
  unfold unlink_attachments. apply keeps_get_db. intros d _.
  destruct (pluck _ _); [apply keeps_ret|].
  apply keeps_for_each. intros batch [] _.
  apply keeps_bind; [|intros _];
    (apply keeps_modify_db; intros d'; apply untouched_db_update;
     [apply artifact_ne; set_solver|discriminate]).
Qed.

Lemma keeps_delete_child_tables doctype names :
  keeps J (delete_child_tables doctype names).
Proof.
  unfold delete_child_tables. apply keeps_get_db. intros d [_ Hschema].
  apply keeps_for_each. intros child [] Hchild.
  apply keeps_modify_db. intros d'. apply untouched_db_delete.
  intros ->. apply elem_pluck in Hchild as (r & Hr & Hoptions).
  unfold get_all in Hr. apply list_elem_of_filter in Hr as [[Htable _] Hr].
  by apply (Hschema r).
Qed.

Lemma keeps_update_naming_series naming_series doctype :
  keeps J (update_naming_series naming_series doctype).
Proof.
  unfold update_naming_series. apply keeps_bind.
  - destruct (Str.contains _ _); destruct (Str.rsplit1 _ _);
      (apply keeps_ret || apply keeps_raise).
  - intros split. apply keeps_get_db. intros d _.
    apply keeps_modify_db. intros d'. apply untouched_db_update.
    + apply artifact_ne. set_solver.
    + discriminate.
Qed.

Lemma keeps_reset_naming_series doctype :
  keeps J (reset_naming_series doctype).
Proof.
  unfold reset_naming_series. apply keeps_get_db. intros d _.
  destruct (db_get_value _ _ _ _) as [|[|c rest]|]; try apply keeps_ret.
  destruct (Str.contains _ _); [apply keeps_update_naming_series|apply keeps_ret].
Qed.

Lemma keeps_entry (self : Job) (docfield : TransactionDeletionRecordItem) :
  doctype_name docfield ≠ single →
  keeps J (delete_company_transactions_entry self docfield).
Proof.
  intros Hne. unfold delete_company_transactions_entry.
  case_decide; [|apply keeps_ret].
  apply keeps_get_db. intros d _. case_decide.
  - apply keeps_bind; [apply keeps_delete_version_log|intros _].
    apply keeps_bind; [apply keeps_delete_communications|intros _].
    apply keeps_bind; [apply keeps_delete_comments|intros _].
    apply keeps_bind; [apply keeps_unlink_attachments|intros _].
    apply keeps_bind; [apply keeps_delete_child_tables|intros _].
    apply keeps_bind.
    { apply keeps_modify_db. intros d'. by apply untouched_db_delete. }
    intros _. apply keeps_bind; [apply keeps_reset_naming_series|intros _].
    apply keeps_same_db. intros w a w' Hrun.
    unfold chain_callback, enqueue in Hrun. by simplify_eq.
  - apply keeps_same_db. intros w a w' Hrun.
    unfold set_value_done in Hrun. by simplify_eq.
Qed.

Lemma keeps_delete_company_transactions (self : Job) :
  (∀ docfield, docfield ∈ doctypes self → doctype_name docfield ≠ single) →
  keeps J (delete_company_transactions self).
Proof.
  intros Hinv. unfold delete_company_transactions.
  destruct (negb _); [|apply keeps_ret].
  apply keeps_bind.
  - apply keeps_for_each. intros docfield [] Hin. apply keeps_entry. by apply Hinv.
  - intros _. apply keeps_same_db. intros w a w' Hrun.
    unfold db_set in Hrun. by simplify_eq.
Qed.
End Frame.

Lemma single_is_ignored (self : Job) (d : DB) (single : string) :
  is_single d single → single ∈ get_doctypes_to_be_ignored_list self d.
Proof.
  intros (r & Hr & Hsingle & Hname). unfold get_doctypes_to_be_ignored_list.
  apply elem_of_app. left. eapply pluck_elem; [|exact Hname].
  unfold get_all. by apply list_elem_of_filter.
Qed.

Lemma scan_run (self : Job) (w : World) :
  ∃ self' w',
    initialize_doctypes_to_be_deleted_table self w = Ok (self', w') ∧
    db w' = db w ∧
    doctypes self' =
      if initialize_doctypes_table self then doctypes self
      else extend_inventory self (db w) (get_all_child_doctypes (db w))
             (get_doctypes_with_company_field (db w)
                (get_doctypes_to_be_ignored_list self (db w)))
             (doctypes self).
Proof.
  unfold initialize_doctypes_to_be_deleted_table.
  destruct (initialize_doctypes_table self) eqn:Hflag; cbn [negb].
  - eexists _, _. split; [reflexivity|]. done.
  - unfold mbind, M_bind, get_db.
    destruct (scan_loop (get_all_child_doctypes (db w))
                (get_doctypes_with_company_field (db w)
                   (get_doctypes_to_be_ignored_list self (db w))) self w)
      as (w1 & Hrun & Hdb & _).
    rewrite Hrun. unfold db_set, chain_callback, enqueue, mret, M_ret.
    eexists _, _. split; [reflexivity|]. done.
Qed.

(** C10: a doctype flagged [issingle] is in the ignore list that the scan
    and the transaction stage compute, and so is every row of the job's
    excluded-doctypes table.  The scan returns and adds no inventory row for
    the single doctype; when the inventory had none before the scan, the
    transaction stage run on the scanned inventory leaves the rows of the
    single doctype as they were (the doctype being neither one of the
    artifact tables nor the child table of a Table field).  Nothing is
    assumed about the excluded-doctypes table or the hook list. *)
Theorem singles_are_ignored (self : Job) (w : World) (single : string) :
  is_single (db w) single →
  single ∈ get_doctypes_to_be_ignored_list self (db w) ∧
  (∀ row, row ∈ doctypes_to_be_ignored self →
          doctype_name row ∈ get_doctypes_to_be_ignored_list self (db w)) ∧
  ∃ self1 w1,
    initialize_doctypes_to_be_deleted_table self w = Ok (self1, w1) ∧
    ((single ∉ doctype_name <$> doctypes self) →
     (single ∉ doctype_name <$> doctypes self1) ∧
     ((single ∉ artifact_tables) →
      (∀ r, r ∈ table (db w) "DocField" → col_is "fieldtype" "Table" r →
            ¬ col_is "options" single r) →
      ∀ self2 w2,
        delete_company_transactions self1 w1 = Ok (self2, w2) →
        table (db w2) single = table (db w) single)).
Proof.
  intros Hsingle. split; [by apply single_is_ignored|]. split.
  { intros row Hrow. unfold get_doctypes_to_be_ignored_list.
    apply elem_of_app. right. by apply list_elem_of_fmap_2. }
  destruct (scan_run self w) as (self1 & w1 & Hrun & Hdb & Hinv).
  exists self1, w1. split; [exact Hrun|]. intros Hfree.
  assert (single ∉ doctype_name <$> doctypes self1) as Hfree1.
  { rewrite Hinv. destruct (initialize_doctypes_table self); [done|].
    intros (e & Hname & He)%list_elem_of_fmap.
    assert (entry_field e ∈ entry_field <$>
              extend_inventory self (db w) (get_all_child_doctypes (db w))
                (get_doctypes_with_company_field (db w)
                   (get_doctypes_to_be_ignored_list self (db w))) (doctypes self))
      as Hfield by by apply list_elem_of_fmap_2.
    apply extend_inventory_elem in Hfield as [Hold|[Hnew _]].
    - apply Hfree. apply list_elem_of_fmap in Hold as (e' & Heq & He').
      apply list_elem_of_fmap. exists e'. split; [|done].
      unfold entry_field in Heq. by simplify_eq.
    - unfold entry_field in Hnew. apply company_field_elem in Hnew as [_ Hign].
      apply Hign. rewrite <- Hname. by apply single_is_ignored. }
  split; [exact Hfree1|]. intros Hartifact Hschema self2 w2 Hdelete.
  assert (untouched single (table (db w) single) (db w2)) as [Hrows _]; [|exact Hrows].
  eapply (keeps_delete_company_transactions single (table (db w) single) Hartifact self1);
    [|  |exact Hdelete].
  - intros docfield Hin Heq. apply Hfree1. apply list_elem_of_fmap. by exists docfield.
  - rewrite Hdb. by split.
Qed.

Lemma singles_are_ignored_witness :
  "Global Defaults" ∈ get_doctypes_to_be_ignored_list purge_job (db singles_world) ∧
  ∃ self1 w1,
    initialize_doctypes_to_be_deleted_table purge_job singles_world = Ok (self1, w1) ∧
    ("Global Defaults" ∉ doctype_name <$> doctypes self1) ∧
    ∀ self2 w2,
      delete_company_transactions self1 w1 = Ok (self2, w2) →
      table (db w2) "Global Defaults" = table (db singles_world) "Global Defaults".
Proof.
  assert (is_single (db singles_world) "Global Defaults") as Hsingle.
  { exists (doctype_row "Global Defaults" 1 0). split; [by_evaluation|]. by split. }
  destruct (singles_are_ignored purge_job singles_world "Global Defaults" Hsingle)
    as (Hign & _ & self1 & w1 & Hrun & Hrest).
  split; [exact Hign|]. exists self1, w1. split; [exact Hrun|].
  assert ("Global Defaults" ∉ doctype_name <$> doctypes purge_job) as Hfresh
    by by_evaluation.
  destruct (Hrest Hfresh) as [Hfree Hkeep].
  split; [exact Hfree|]. apply Hkeep; [by_evaluation|].
  apply (proj1 (Forall_forall
                  (λ r, col_is "fieldtype" "Table" r →
                        ¬ col_is "options" "Global Defaults" r) _)).
  by_evaluation.
Defined.

(** ** Status writes *)

Section Status.
Context (allowed : list string).

Local Abbreviation I := (stored_status_allowed allowed).
Local Abbreviation R := (status_allowed allowed).

Lemma ensures_ret {A} (R : A → Prop) (a : A) : R a → ensures I R (mret a).
Proof. intros HR w a' w' HI Hrun. unfold mret, M_ret in Hrun. by simplify_eq. Qed.

Lemma ensures_raise {A} (R : A → Prop) (e : exn) : ensures I R (raise e).
Proof. intros w a' w' HI Hrun. discriminate. Qed.

Lemma ensures_bind {A B} (R1 : A → Prop) (R2 : B → Prop) (m : M A) (k : A → M B) :
  ensures I R1 m → (∀ a, R1 a → ensures I R2 (k a)) → ensures I R2 (m ≫= k).
Proof.
  intros Hm Hk w b w' HI Hrun. unfold mbind, M_bind in Hrun.
  destruct (m w) as [[a w1]|e] eqn:Hmw; [|discriminate].
  destruct (Hm w a w1 HI Hmw) as [HR HI1]. by eapply Hk.
Qed.

Lemma ensures_get_db {B} (R : B → Prop) (k : DB → M B) :
  (∀ d, ensures I R (k d)) → ensures I R (get_db ≫= k).
Proof.
  intros Hk w b w' HI Hrun. unfold mbind, M_bind, get_db in Hrun. by eapply Hk.
Qed.

Lemma ensures_for_each {A S} (R : S → Prop) (l : list A) (body : A → S → M S) :
  (∀ x s, R s → ensures I R (body x s)) → ∀ s, R s → ensures I R (for_each l body s).
Proof.
  induction l as [|x l IH]; intros Hbody s Hs; cbn [for_each].
  - by apply ensures_ret.
  - eapply ensures_bind; [by apply Hbody|]. intros s' Hs'. by apply IH.
Qed.

(** Calls that do not write the stored document. *)
Lemma ensures_same_stored (m : M ()) :
  (∀ w a w', m w = Ok (a, w') → status (stored w') = status (stored w)) →
  ensures I anything m.
Proof.
  intros Hm w a w' HI Hrun. split; [done|]. unfold stored_status_allowed.
  by rewrite (Hm _ _ _ Hrun).
Qed.

Lemma ensures_modify_db (f : DB → DB) : ensures I anything (modify_db f).
Proof. apply ensures_same_stored. intros w a w' Hrun. unfold modify_db in Hrun. by simplify_eq. Qed.

Lemma ensures_chain_callback (self : Job) method :
  ensures I anything (chain_callback self method).
Proof.
  apply ensures_same_stored. intros w a w' Hrun.
  unfold chain_callback, enqueue in Hrun. by simplify_eq.
Qed.

Lemma ensures_set_value_done item : ensures I anything (set_value_done item).
Proof.
  apply ensures_same_stored. intros w a w' Hrun.
  unfold set_value_done in Hrun. by simplify_eq.
Qed.

Lemma ensures_save (self : Job) : R self → ensures I anything (save self).
Proof. intros Hs w a w' HI Hrun. unfold save in Hrun. by simplify_eq. Qed.

Lemma ensures_db_set (assign : Job → Job) (self : Job) :
  (∀ j, R j → R (assign j)) →
  R self → ensures I R (db_set assign self).
Proof.
  intros Hassign Hs w a w' HI Hrun. unfold db_set in Hrun. simplify_eq.
  split; [by apply Hassign|]. by apply (Hassign (stored w)).
Qed.

Ltac flag_write :=
  apply ensures_db_set; [intros j Hj; exact Hj|assumption].

Ltac chain :=
  let self' := fresh "self" in
  let Hs' := fresh "Hs" in
  intros self' Hs'; eapply ensures_bind; [apply ensures_chain_callback|];
  intros _ _; by apply ensures_ret.

Lemma ensures_delete_bins (self : Job) : R self → ensures I R (delete_bins self).
Proof.
  intros Hs. unfold delete_bins. eapply ensures_bind with (R1 := R); [|chain].
  destruct (negb _); [|by apply ensures_ret].
  eapply ensures_bind; [apply ensures_modify_db|]. intros _ _. flag_write.
Qed.

Lemma ensures_delete_lead_addresses (self : Job) :
  R self → ensures I R (delete_lead_addresses self).
Proof.
  intros Hs. unfold delete_lead_addresses.
  eapply ensures_bind with (R1 := R); [|chain].
  destruct (negb _); [|by apply ensures_ret].
  apply ensures_get_db. intros d.
  eapply ensures_bind with (R1 := anything); [|intros _ _; flag_write].
  destruct (pluck _ _); [by apply ensures_ret|].
  eapply ensures_bind with (R1 := anything); [|intros _ _; apply ensures_modify_db].
  destruct (pluck _ _); [by apply ensures_ret|].
  eapply ensures_bind; [apply ensures_modify_db|]. intros _ _. apply ensures_modify_db.
Qed.

Lemma ensures_reset_company_values (self : Job) :
  R self → ensures I R (reset_company_values self).
Proof.
  intros Hs. unfold reset_company_values.
  eapply ensures_bind with (R1 := R); [|chain].
  destruct (negb _); [|by apply ensures_ret].
  apply ensures_get_db. intros d.
  eapply ensures_bind with (R1 := anything); [|intros _ _; flag_write].
  destruct (filter _ _); [apply ensures_raise|].
  eapply ensures_bind; [apply ensures_modify_db|]. intros _ _. apply ensures_modify_db.
Qed.

Lemma ensures_delete_notifications (self : Job) :
  R self → ensures I R (delete_notifications self).
Proof.
  intros Hs. unfold delete_notifications.
  eapply ensures_bind with (R1 := R); [|chain].
  destruct (negb _); [|by apply ensures_ret].
  eapply ensures_bind with (R1 := anything); [|intros _ _; flag_write].
  apply ensures_same_stored. intros w a w' Hrun.
  unfold frappe_clear_notifications in Hrun. by simplify_eq.
Qed.

Lemma ensures_initialize (self : Job) :
  R self → ensures I R (initialize_doctypes_to_be_deleted_table self).
Proof.
  intros Hs. unfold initialize_doctypes_to_be_deleted_table.
  eapply ensures_bind with (R1 := R); [|chain].
  destruct (negb _); [|by apply ensures_ret].
  apply ensures_get_db. intros d.
  eapply ensures_bind with (R1 := R).
  - apply ensures_for_each; [|done]. intros docfield self1 Hs1.
    unfold initialize_doctypes_to_be_deleted_table_entry.
    case_decide; [|by apply ensures_ret].
    apply ensures_get_db. intros d1. case_decide; [|by apply ensures_ret].
    unfold populate_doctypes_table.
    assert (R (if decide (docfield.1 ∉ get_all_child_doctypes d)
               then set_doctypes
                      (doctypes self1 ++ [new_item (doctypes self1) docfield.1 docfield.2 0])
                      self1
               else self1)) as Hs2.
    { case_decide; done. }
    eapply ensures_bind; [by apply ensures_save|]. intros _ _. by apply ensures_ret.
  - intros self1 Hs1. flag_write.
Qed.

Lemma ensures_update_naming_series naming_series doctype :
  ensures I anything (update_naming_series naming_series doctype).
Proof.
  unfold update_naming_series. eapply ensures_bind with (R1 := anything).
  - destruct (Str.contains _ _); destruct (Str.rsplit1 _ _);
      (by apply ensures_ret) || apply ensures_raise.
  - intros split _. apply ensures_get_db. intros d. apply ensures_modify_db.
Qed.

Lemma ensures_batches {A} (names : list A) (body : list A → () → M ()) :
  (∀ batch, ensures I anything (body batch ())) →
  ensures I anything (for_each (create_batch names batch_size) body ()).
Proof.
  intros Hbody. apply ensures_for_each; [|done]. intros batch [] _. apply Hbody.
Qed.

Lemma ensures_entry (self : Job) docfield :
  ensures I anything (delete_company_transactions_entry self docfield).
Proof.
  unfold delete_company_transactions_entry. case_decide; [|by apply ensures_ret].
  apply ensures_get_db. intros d. case_decide; [|apply ensures_set_value_done].
  eapply ensures_bind; [apply ensures_modify_db|]. intros _ _.
  eapply ensures_bind with (R1 := anything).
  { unfold delete_communications. apply ensures_get_db. intros d1.
    destruct (pluck _ _); [by apply ensures_ret|].
    apply ensures_batches. intros batch. apply ensures_modify_db. }
  intros _ _. eapply ensures_bind with (R1 := anything).
  { unfold delete_comments. apply ensures_get_db. intros d1.
    destruct (pluck _ _); [by apply ensures_ret|].
    apply ensures_batches. intros batch. apply ensures_modify_db. }
  intros _ _. eapply ensures_bind with (R1 := anything).
  { unfold unlink_attachments. apply ensures_get_db. intros d1.
    destruct (pluck _ _); [by apply ensures_ret|].
    apply ensures_batches. intros batch.
    eapply ensures_bind; [apply ensures_modify_db|]. intros _ _. apply ensures_modify_db. }
  intros _ _. eapply ensures_bind with (R1 := anything).
  { unfold delete_child_tables. apply ensures_get_db. intros d1.
    apply ensures_for_each; [|done]. intros child [] _. apply ensures_modify_db. }
  intros _ _. eapply ensures_bind; [apply ensures_modify_db|]. intros _ _.
  eapply ensures_bind with (R1 := anything).
  { unfold reset_naming_series. apply ensures_get_db. intros d1.
    destruct (db_get_value _ _ _ _) as [|[|c rest]|]; try by apply ensures_ret.
    destruct (Str.contains _ _); [apply ensures_update_naming_series|by apply ensures_ret]. }
  intros _ _. apply ensures_chain_callback.
Qed.

Lemma ensures_delete_company_transactions (self : Job) :
  R self → ensures I R (delete_company_transactions self).
Proof.
  intros Hs. unfold delete_company_transactions.
  destruct (negb _); [|by apply ensures_ret].
  eapply ensures_bind with (R1 := anything); [|intros _ _; flag_write].
  apply ensures_for_each; [|done]. intros docfield [] _. apply ensures_entry.
Qed.

Lemma ensures_start_deletion_process (self : Job) :
  R self → ensures I R (start_deletion_process self).
Proof.
  intros Hs. unfold start_deletion_process.
  eapply ensures_bind; [by apply ensures_delete_bins|]. intros s1 H1.
  eapply ensures_bind; [by apply ensures_delete_lead_addresses|]. intros s2 H2.
  eapply ensures_bind; [by apply ensures_reset_company_values|]. intros s3 H3.
  eapply ensures_bind; [by apply ensures_delete_notifications|]. intros s4 H4.
  eapply ensures_bind; [by apply ensures_initialize|]. intros s5 H5.
  by apply ensures_delete_company_transactions.
Qed.

Lemma ensures_doc_method method m (self : Job) :
  doc_method method = Some m → R self → ensures I R (m self).
Proof.
  unfold doc_method. intros Hm Hs.
  repeat (case_decide; [simplify_eq;
    first [ by apply ensures_delete_bins | by apply ensures_delete_lead_addresses
          | by apply ensures_reset_company_values | by apply ensures_delete_notifications
          | by apply ensures_initialize | by apply ensures_delete_company_transactions
          | by apply ensures_start_deletion_process ] |]).
  discriminate.
Qed.

Lemma ensures_run_next : ensures I anything run_next.
Proof.
  intros w a w' HI Hrun. split; [done|]. unfold run_next in Hrun.
  destruct (queue w) as [|call rest]; [by simplify_eq|].
  unfold run_doc_method in Hrun.
  destruct (doc_method (q_doc_method call)) as [m|] eqn:Hm; [|discriminate].
  cbn [stored set_queue] in Hrun.
  destruct (m (stored w) (set_queue rest w)) as [[j w1]|e] eqn:Hmw; [|discriminate].
  simplify_eq.
  by destruct (ensures_doc_method _ _ (stored w) Hm HI (set_queue rest w) j w' HI Hmw).
Qed.

Lemma ensures_run_operation op (self : Job) :
  "" ∈ allowed → "Queued" ∈ allowed → "Cancelled" ∈ allowed →
  R self → ensures I R (run_operation op self).
Proof.
  intros Hempty Hqueued Hcancelled Hs. destruct op; cbn [run_operation].
  - eapply ensures_bind with (R1 := anything); [|intros _ _; by apply ensures_ret].
    apply ensures_same_stored. intros w a w' Hrun.
    rewrite validate_run in Hrun. repeat case_decide; by simplify_eq.
  - apply ensures_ret. unfold before_submit, status_allowed.
    destruct (doctypes_to_be_ignored self) eqn:Hrows; [|done].
    unfold populate_doctypes_to_be_ignored_table.
    generalize (get_doctypes_to_be_ignored hooks). intros l.
    clear Hrows. revert self Hs. induction l as [|x l IH]; intros self Hs; [done|].
    cbn [fold_left]. by apply IH.
  - by apply ensures_ret.
  - apply ensures_db_set; [intros j _; exact Hqueued|done].
  - apply ensures_db_set; [intros j _; exact Hcancelled|done].
  - by apply ensures_start_deletion_process.
  - eapply ensures_bind; [apply ensures_run_next|]. intros _ _. by apply ensures_ret.
Qed.
End Status.

Lemma apply_operation_status allowed op (st : Job * World) :
  "" ∈ allowed → "Queued" ∈ allowed → "Cancelled" ∈ allowed →
  status_allowed allowed st.1 ∧ stored_status_allowed allowed st.2 →
  status_allowed allowed (apply_operation op st).1 ∧
  stored_status_allowed allowed (apply_operation op st).2.
Proof.
  intros Hempty Hqueued Hcancelled [Hself Hstored]. unfold apply_operation.
  destruct (run_operation op st.1 st.2) as [[self' w']|e] eqn:Hrun; [|done].
  by eapply (ensures_run_operation allowed op st.1).
Qed.



(** ** Naming series *)

Lemma prefix_append (p t : string) : String.prefix p (p +:+ t) = true.
Proof.
  induction p as [|c p IH]; simpl.
  - by destruct t.
  - destruct (ascii_dec c c); [exact IH|done].
Qed.

Lemma prefix_all_digits (p t : string) :
  String.prefix p t = true → Str.all_digits t = true → Str.has_non_digit p = false.
Proof.
  revert t. induction p as [|c p IH]; intros t Hp Ht; [done|].
  destruct t as [|b t]; [done|]. cbn in Hp, Ht |- *.
  destruct (ascii_dec c b) as [->|]; [|done].
  apply andb_true_iff in Ht as [Hb Ht]. rewrite Hb. cbn. by eapply IH.
Qed.

Lemma remove_from_skip (old a t : string) :
  Str.remove_from old (String.length a) (a +:+ t) = Str.remove_from old O t.
Proof. induction a as [|c a IH]; [done|]. exact IH. Qed.

Lemma remove_from_digits (old t : string) :
  Str.has_non_digit old = true → Str.all_digits t = true →
  Str.remove_from old O t = t.
Proof.
  intros Hold. induction t as [|c t IH]; intros Ht; [done|].
  cbn [Str.remove_from].
  destruct (String.prefix old (String c t)) eqn:Hp.
  - by rewrite (prefix_all_digits _ _ Hp Ht) in Hold.
  - cbn in Ht. apply andb_true_iff in Ht as [_ Ht]. by rewrite IH.
Qed.

Lemma remove_all_prefix (prefix digits : string) :
  Str.has_non_digit prefix = true → Str.all_digits digits = true →
  Str.remove_all prefix (prefix +:+ digits) = digits.
Proof.
  intros Hp Hd. destruct prefix as [|c p]; [done|].
  unfold Str.remove_all. change (String c p +:+ digits) with (String c (p +:+ digits)).
  cbn [Str.remove_from].
  change (String c (p +:+ digits)) with (String c p +:+ digits).
  rewrite prefix_append. cbn [String.length Nat.pred].
  rewrite remove_from_skip. by apply remove_from_digits.
Qed.

Lemma cint_digits (digits : string) :
  Str.all_digits digits = true → cint digits = Str.decimal digits.
Proof. intros Hd. unfold cint. destruct digits; [done|]. by rewrite Hd. Qed.

Lemma rsplit1_contains (sep : ascii) (s before after : string) :
  Str.rsplit1 sep s = Some (before, after) → Str.contains sep s = true.
Proof.
  revert before after. induction s as [|c s IH]; intros before after Hs; [done|].
  cbn in Hs |- *. destruct (Ascii.eqb c sep); [done|].
  destruct (Str.rsplit1 sep s) as [[b a]|]; [|done]. by eapply IH.
Qed.

(** The byte-wise order on strings is transitive. *)
Lemma ascii_compare_trans (a b c : ascii) (o : comparison) :
  Ascii.compare a b = o → Ascii.compare b c = o → Ascii.compare a c = o.
Proof.
  unfold Ascii.compare. intros Hab Hbc. destruct o.
  - apply N.compare_eq_iff in Hab, Hbc. apply N.compare_eq_iff. congruence.
  - exact (N.lt_trans _ _ _ Hab Hbc).
  - apply N.compare_gt_iff. apply N.compare_gt_iff in Hab. apply N.compare_gt_iff in Hbc.
    exact (N.lt_trans _ _ _ Hbc Hab).
Qed.

Lemma string_compare_le_trans (a b c : string) :
  String.compare a b ≠ Gt → String.compare b c ≠ Gt → String.compare a c ≠ Gt.
Proof.
  revert b c. induction a as [|x a IH]; intros [|y b] [|z c]; cbn; try done.
  destruct (Ascii.compare x y) eqn:Hxy; [| |done];
    destruct (Ascii.compare y z) eqn:Hyz; try done.
  - rewrite (ascii_compare_trans _ _ _ _ Hxy Hyz). apply IH.
  - apply Ascii.compare_eq_iff in Hxy as ->. by rewrite Hyz.
  - apply Ascii.compare_eq_iff in Hyz as <-. by rewrite Hxy.
  - by rewrite (ascii_compare_trans _ _ _ _ Hxy Hyz).
Qed.

Lemma string_compare_refl (a : string) : String.compare a a = Eq.
Proof.
  induction a as [|c a IH]; [done|]. cbn. unfold Ascii.compare.
  by rewrite N.compare_refl.
Qed.

Lemma max_bounds (a b : string) :
  (Str.max a b = a ∨ Str.max a b = b) ∧
  String.compare a (Str.max a b) ≠ Gt ∧ String.compare b (Str.max a b) ≠ Gt.
Proof.
  unfold Str.max. destruct (String.compare a b) eqn:Hab.
  - split; [by left|]. split; [by rewrite string_compare_refl|].
    apply String.compare_eq_iff in Hab as ->. by rewrite string_compare_refl.
  - split; [by right|]. split; [by rewrite Hab|by rewrite string_compare_refl].
  - split; [by left|]. split; [by rewrite string_compare_refl|].
    rewrite String.compare_antisym, Hab. done.
Qed.

Lemma fold_max_greatest (rest : list string) (x : string) :
  is_greatest (fold_left Str.max rest x) (x :: rest).
Proof.
  revert x. induction rest as [|y rest IH]; intros x; cbn [fold_left].
  - split; [by left|]. intros n ->%list_elem_of_singleton. by rewrite string_compare_refl.
  - destruct (IH (Str.max x y)) as [Hin Hub].
    destruct (max_bounds x y) as (Hmax & Hx & Hy). split.
    + apply elem_of_cons in Hin as [->|Hin].
      * destruct Hmax as [->| ->]; [by left|right; by left].
      * right. by right.
    + intros n Hn.
      assert (String.compare (Str.max x y) (fold_left Str.max rest (Str.max x y)) ≠ Gt)
        as Hm by (apply Hub; by left).
      apply elem_of_cons in Hn as [->|Hn].
      * by eapply string_compare_le_trans.
      * apply elem_of_cons in Hn as [->|Hn].
        -- by eapply string_compare_le_trans.
        -- apply Hub. by right.
Qed.

Lemma greatest_is_max_list (m : string) (l : list string) :
  is_greatest m l → Str.max_list l = Some m.
Proof.
  intros [Hin Hub]. destruct l as [|x rest]; [by apply elem_of_nil in Hin|].
  cbn [Str.max_list]. f_equal.
  destruct (fold_max_greatest rest x) as [Hin' Hub'].
  specialize (Hub _ Hin'). specialize (Hub' _ Hin).
  destruct (String.compare (fold_left Str.max rest x) m) eqn:Hc.
  - by apply String.compare_eq_iff.
  - rewrite String.compare_antisym, Hc in Hub'. done.
  - done.
Qed.

(** For a prefix without [LIKE] wildcards, [name like prefix%] holds of the
    names that start with the prefix. *)
Lemma like_percent (s : string) : Str.like "%" s = true.
Proof.
  cbn. induction s as [|c s IH]; [done|]. cbn. exact IH.
Qed.

Lemma like_prefix (prefix n : string) :
  has_wildcard prefix = false →
  Str.like (prefix +:+ "%") n = String.prefix prefix n.
Proof.
  revert n. induction prefix as [|c p IH]; intros n Hw.
  - rewrite like_percent. by destruct n.
  - cbn in Hw. apply orb_false_iff in Hw as [Hc Hw]. unfold is_wildcard in Hc.
    apply orb_false_iff in Hc as [Hc Hbs]. apply orb_false_iff in Hc as [Hpc Hus].
    change (String c p +:+ "%") with (String c (p +:+ "%")).
    cbn [Str.like]. rewrite Hpc, Hus, Hbs.
    destruct n as [|b n]; [done|]. cbn [String.prefix].
    rewrite Ascii.eqb_sym.
    destruct (ascii_dec c b) as [->|Hne].
    + rewrite Ascii.eqb_refl. cbn. by apply IH.
    + apply Ascii.eqb_neq in Hne. by rewrite Hne.
Qed.

Lemma update_naming_series_run (w : World) (doctype naming_series prefix hashes : string) :
  Str.rsplit1 "." naming_series = Some (prefix, hashes) →
  update_naming_series naming_series doctype w =
    Ok ((), set_db
              (db_update "Series" (col_is "name" prefix) "current"
                 (VInt match max_name_like (db w) doctype prefix with
                       | Some (String c rest) => cint (Str.remove_all prefix (String c rest))
                       | _ => 0
                       end)
                 (db w)) w).
Proof.
  intros Hsplit. unfold update_naming_series.
  rewrite (rsplit1_contains _ _ _ _ Hsplit), Hsplit. reflexivity.
Qed.

Lemma last_of_greatest (prefix digits : string) :
  Str.has_non_digit prefix = true → Str.all_digits digits = true →
  match Some (prefix +:+ digits) with
  | Some (String c rest) => cint (Str.remove_all prefix (String c rest))
  | _ => 0
  end = Str.decimal digits.
Proof.
  intros Hp Hd. rewrite <- (cint_digits digits) by done.
  rewrite <- (remove_all_prefix prefix digits) at 2 by done.
  by destruct prefix.
Qed.



(** The same on a whole run of the transaction stage: the invoice of C1 is
    deleted and the counter of INV- goes from 43 to 42, the greatest number
    left. *)
Example transaction_stage_reconciles_series :
  ∃ self' w',
    delete_company_transactions large_job series_stage_world = Ok (self', w') ∧
    pluck "name" (table (db w') "Sales Invoice") = ["INV-00007"; "INV-00042"] ∧
    table (db w') "Series" = [row [("name", VStr "INV-"); ("current", VInt 42)]].
Proof.
  eexists _, _. split; [vm_compute; reflexivity|]. split; vm_compute; reflexivity.
Qed.

(** ** Batches of the transaction stage *)

Lemma pluck_length c (rows : list Row) : (length (pluck c rows) ≤ length rows)%nat.
Proof.
  unfold pluck. induction rows as [|r rows IH]; [done|].
  cbn. destruct (str_col r c); cbn; lia.
Qed.

(** The fetch of one inventory entry never returns more than [batch_size]
    identifiers. *)
Lemma fetch_is_bounded (self : Job) (d : DB) (docfield : TransactionDeletionRecordItem) :
  (length (reference_doc_names self d docfield) ≤ batch_size)%nat.
Proof.
  unfold reference_doc_names, get_all.
  etrans; [apply pluck_length|]. rewrite length_take. lia.
Qed.

(** An entry without a record of the company takes the [else] branch: the
    only call is the [set_value] that marks the stored row done. *)
Lemma entry_without_records (self : Job) (docfield : TransactionDeletionRecordItem) (w : World) :
  doctype_name docfield ≠ self_doctype → done docfield = false →
  get_number_of_docs_linked_with_specified_company
    self (db w) (doctype_name docfield) (docfield_name docfield) = O →
  delete_company_transactions_entry self docfield w = set_value_done docfield w.
Proof.
  intros Hown Hdone Hcount. unfold delete_company_transactions_entry.
  rewrite decide_True by done. unfold mbind, M_bind, get_db. rewrite Hcount.
  by rewrite decide_False by lia.
Qed.

Lemma large_world_run :
  delete_company_transactions large_job large_world =
    Ok (set_delete_transactions true large_job, large_world_after).
Proof. vm_compute. reflexivity. Qed.

Lemma scenario_world_run :
  delete_company_transactions scenario_job scenario_world =
    Ok (set_delete_transactions true scenario_job, scenario_world_after).
Proof. vm_compute. reflexivity. Qed.

Lemma scenario_world_continuation :
  run_next scenario_world_after = Ok ((), set_queue [] scenario_world_after).
Proof. vm_compute. reflexivity. Qed.

(** C1, at a doctype with one record more than a batch: the fetch returns
    [batch_size] identifiers, SINV-00001 to SINV-05000 and not SINV-05001,
    yet one run of the transaction stage deletes all [batch_size + 1] records
    of the company.  SINV-05001 is deleted without having been fetched, and
    its comment is left behind, the dependent artifacts having been removed
    for the fetched batch only. *)
Theorem batch_deletes_beyond_the_fetched_batch :
  let entry := inventory_row 1 "Sales Invoice" in
  let fetched := reference_doc_names large_job (db large_world) entry in
  length (table (db large_world) "Sales Invoice") = S batch_size ∧
  length fetched = batch_size ∧
  "SINV-05000" ∈ fetched ∧
  ("SINV-05001" ∉ fetched) ∧
  ∃ self' w',
    delete_company_transactions large_job large_world = Ok (self', w') ∧
    table (db w') "Sales Invoice" = [] ∧
    table (db w') "Comment" = [comment_on "c2" "Sales Invoice" "SINV-05001"].
Proof.
  cbv zeta. split; [vm_compute; reflexivity|]. split; [vm_compute; reflexivity|].
  split; [by_evaluation|]. split; [by_evaluation|].
  eexists _, _. split; [exact large_world_run|]. split; reflexivity.
Qed.

(** C2, on the scenario of the specification: Quotation has no record of
    C1 and the run marks its stored row done, leaving its table as it was;
    the same run removes the three sales invoices, their comments and their
    item rows and queues one continuation.  The stored Sales Invoice row is
    not done after the run, and still not done after the continuation, which
    finds [delete_transactions] set, does nothing and leaves the queue
    empty. *)
Theorem batch_round_leaves_entry_not_done :
  ∃ self1 w1,
    delete_company_transactions scenario_job scenario_world = Ok (self1, w1) ∧
    table (db w1) "Sales Invoice" = [] ∧
    table (db w1) "Comment" = [] ∧
    table (db w1) "Sales Invoice Item" = [] ∧
    table (db w1) "Quotation" = table (db scenario_world) "Quotation" ∧
    (λ e, (doctype_name e, done e)) <$> doctypes (stored w1) =
      [("Sales Invoice", false); ("Quotation", true)] ∧
    delete_transactions (stored w1) = true ∧
    q_doc_method <$> queue w1 = ["delete_company_transactions"] ∧
    ∃ w2,
      run_next w1 = Ok ((), w2) ∧
      queue w2 = [] ∧
      (λ e, (doctype_name e, done e)) <$> doctypes (stored w2) =
        [("Sales Invoice", false); ("Quotation", true)].
Proof.
  eexists _, _. split; [exact scenario_world_run|].
  do 7 (split; [reflexivity|]).
  eexists. split; [exact scenario_world_continuation|]. split; reflexivity.
Qed.

(** * Further properties *)

(** ** The excluded-doctypes table *)

Lemma populate_appends (names : list string) :
  ∀ self : Job,
    let filled :=
      fold_left
        (λ self doctype,
           set_doctypes_to_be_ignored
             (doctypes_to_be_ignored self ++
              [new_item (doctypes_to_be_ignored self) doctype "" 0]) self)
        names self in
    doctype_name <$> doctypes_to_be_ignored filled =
      ((doctype_name <$> doctypes_to_be_ignored self) ++ names)%list ∧
    idx <$> doctypes_to_be_ignored filled =
      ((idx <$> doctypes_to_be_ignored self) ++
       seq (S (length (doctypes_to_be_ignored self))) (length names))%list ∧
    filled = set_doctypes_to_be_ignored (doctypes_to_be_ignored filled) self.
Proof.
  induction names as [|doctype names IH]; intros self; cbn [fold_left].
  - cbn. rewrite !app_nil_r. by destruct self.
  - destruct (IH (set_doctypes_to_be_ignored
                    (doctypes_to_be_ignored self ++
                     [new_item (doctypes_to_be_ignored self) doctype "" 0]) self))
      as (Hnames & Hidx & Hrest).
    cbv zeta in *. split; [|split].
    + rewrite Hnames. cbn. rewrite fmap_app. cbn. by rewrite <- app_assoc.
    + rewrite Hidx. cbn. rewrite fmap_app, length_app. cbn.
      rewrite <- app_assoc. cbn. do 3 f_equal. lia.
    + etrans; [exact Hrest|].
      generalize (doctypes_to_be_ignored
                    (fold_left
                       (λ (self : Job) (doctype : string),
                          set_doctypes_to_be_ignored
                            (doctypes_to_be_ignored self ++
                             [new_item (doctypes_to_be_ignored self) doctype "" 0]) self)
                       names
                       (set_doctypes_to_be_ignored
                          (doctypes_to_be_ignored self ++
                           [new_item (doctypes_to_be_ignored self) doctype "" 0]) self))).
      intros table. reflexivity.
Qed.

Lemma validate_table_run (hooks : list string) (self : Job) (w : World) :
  validate_doctypes_to_be_ignored hooks self w =
    if decide (Forall (λ row, doctype_name row ∈ get_doctypes_to_be_ignored hooks)
                 (doctypes_to_be_ignored self))
    then Ok ((), w)
    else Raise (ValidationError "Not Allowed").
Proof.
  unfold validate_doctypes_to_be_ignored.
  apply (for_each_guard (λ row, doctype_name row ∈ get_doctypes_to_be_ignored hooks)).
Qed.

Lemma before_submit_on_empty_table (hooks : list string) (self : Job) (w : World) :
  doctypes_to_be_ignored self = [] →
  let submitted := before_submit hooks self in
  doctype_name <$> doctypes_to_be_ignored submitted = get_doctypes_to_be_ignored hooks ∧
  idx <$> doctypes_to_be_ignored submitted =
    seq 1 (length (get_doctypes_to_be_ignored hooks)) ∧
  submitted = set_doctypes_to_be_ignored (doctypes_to_be_ignored submitted) self ∧
  validate_doctypes_to_be_ignored hooks submitted w = Ok ((), w).
Proof.
  intros Hempty. cbv zeta. unfold before_submit. rewrite Hempty.
  unfold populate_doctypes_to_be_ignored_table.
  destruct (populate_appends (get_doctypes_to_be_ignored hooks) self)
    as (Hnames & Hidx & Hrest).
  cbv zeta in *. rewrite Hempty in Hnames, Hidx.
  change (doctype_name <$> []) with (@nil string) in Hnames.
  change (idx <$> []) with (@nil nat) in Hidx.
  change (S (length [])) with 1%nat in Hidx.
  rewrite app_nil_l in Hnames, Hidx.
  split; [exact Hnames|]. split; [exact Hidx|]. split; [exact Hrest|].
  rewrite validate_table_run. rewrite decide_True; [done|].
  apply Forall_forall. intros row Hrow. rewrite <- Hnames.
  by apply list_elem_of_fmap_2.
Qed.

(** X1: on a job whose excluded-doctypes table is empty, [before_submit]
    fills the table with the computed list, in order and numbered from 1,
    changes nothing else in the document, and the filled table passes
    [validate_doctypes_to_be_ignored] for the same hooks. *)
Theorem before_submit_fills_excluded_table (hooks : list string) (self : Job) (w : World) :
  doctypes_to_be_ignored self = [] →
  let submitted := before_submit hooks self in
  doctype_name <$> doctypes_to_be_ignored submitted = get_doctypes_to_be_ignored hooks ∧
  idx <$> doctypes_to_be_ignored submitted =
    seq 1 (length (get_doctypes_to_be_ignored hooks)) ∧
  submitted = set_doctypes_to_be_ignored (doctypes_to_be_ignored submitted) self ∧
  validate_doctypes_to_be_ignored hooks submitted w = Ok ((), w).
Proof. apply before_submit_on_empty_table. Qed.

Lemma before_submit_fills_excluded_table_witness :
  doctype_name <$> doctypes_to_be_ignored (before_submit ["Holiday List"] purge_job) =
    (builtin_doctypes_to_be_ignored ++ ["Holiday List"])%list ∧
  validate_doctypes_to_be_ignored ["Holiday List"]
    (before_submit ["Holiday List"] purge_job) lead_world = Ok ((), lead_world).
Proof.
  destruct (before_submit_fills_excluded_table ["Holiday List"] purge_job lead_world eq_refl)
    as (Hnames & _ & _ & Hvalid).
  split; [exact Hnames|exact Hvalid].
Defined.

(** X2: [before_submit] fills the table once: applied again, with whatever
    hooks, to its own result it changes nothing, and it leaves a job with a
    table that is not empty as it is. *)
Theorem before_submit_keeps_filled_table (hooks hooks' : list string) (self : Job) :
  before_submit hooks' (before_submit hooks self) = before_submit hooks self ∧
  (doctypes_to_be_ignored self ≠ [] → before_submit hooks self = self).
Proof.
  split.
  - unfold before_submit at 2 3.
    destruct (doctypes_to_be_ignored self) as [|row rows] eqn:Htable.
    + unfold before_submit.
      destruct (before_submit_on_empty_table hooks self (world_of ∅ self) Htable)
        as (Hnames & _).
      unfold before_submit in Hnames. rewrite Htable in Hnames.
      destruct (doctypes_to_be_ignored (populate_doctypes_to_be_ignored_table hooks self));
        [discriminate|done].
    + unfold before_submit. by rewrite Htable.
  - intros Hfilled. unfold before_submit. by destruct (doctypes_to_be_ignored self).
Qed.

(** X3: entries may be removed.  When [validate] accepts a job, it accepts,
    for the same session, every job whose excluded-doctypes rows are among
    the rows of the first, also when the hook list has grown. *)
Theorem validation_allows_removal
    (session_roles hooks hooks' : list string) (self self' : Job) (w w' : World) :
  validate session_roles hooks self w = Ok ((), w) →
  doctypes_to_be_ignored self' ⊆ doctypes_to_be_ignored self →
  hooks ⊆ hooks' →
  validate session_roles hooks' self' w' = Ok ((), w').
Proof.
  rewrite !validate_run. intros Hvalid Hrows Hhooks.
  destruct (decide ("System Manager" ∈ session_roles)); [|done].
  destruct (decide (Forall (λ row, doctype_name row ∈ get_doctypes_to_be_ignored hooks)
                      (doctypes_to_be_ignored self))) as [Hall|]; [|done].
  rewrite decide_True; [done|].
  apply Forall_forall. intros row Hrow.
  pose proof (proj1 (Forall_forall _ _) Hall row (Hrows row Hrow)) as Hin.
  unfold get_doctypes_to_be_ignored in *. apply elem_of_app in Hin as [Hin|Hin].
  - apply elem_of_app. by left.
  - apply elem_of_app. right. by apply Hhooks.
Qed.

Lemma validation_allows_removal_witness :
  validate ["System Manager"] ["Holiday List"]
    (set_doctypes_to_be_ignored [inventory_row 3 "Budget"] purge_job) lead_world =
    Ok ((), lead_world).
Proof.
  apply (validation_allows_removal ["System Manager"] [] ["Holiday List"]
           (set_doctypes_to_be_ignored
              [inventory_row 1 "Account"; inventory_row 3 "Budget"] purge_job)
           _ scan_world).
  - vm_compute. reflexivity.
  - cbn. intros row ->%list_elem_of_singleton. right. left.
  - by_evaluation.
Defined.

(** ** The one-time stages *)

Lemma delete_bins_run (self : Job) (w : World) :
  delete_bin_data self = false →
  ∃ w',
    delete_bins self w = Ok (set_delete_bin_data true self, w') ∧
    db w' =
      db_delete "Bin"
        (col_in "warehouse"
           (pluck "name" (filter (col_is "company" (company self)) (table (db w) "Warehouse"))))
        (db w) ∧
    stored w' = set_delete_bin_data true (stored w) ∧
    q_doc_method <$> queue w' = ((q_doc_method <$> queue w) ++ ["delete_lead_addresses"])%list ∧
    notification_cache w' = notification_cache w.
Proof.
  intros Hflag. unfold delete_bins. rewrite Hflag. eexists. split; [reflexivity|].
  cbn -[db_delete]. rewrite fmap_app. done.
Qed.

Lemma delete_bins_frame (self self' : Job) (w w' : World) (t : string) :
  delete_bins self w = Ok (self', w') → t ≠ "Bin" →
  table (db w') t = table (db w) t ∧
  company self' = company self ∧
  reset_company_default_values self' = reset_company_default_values self.
Proof.
  intros Hrun Ht. destruct (delete_bin_data self) eqn:Hflag.
  - unfold delete_bins in Hrun. rewrite Hflag in Hrun.
    unfold mbind, M_bind, mret, M_ret, chain_callback, enqueue in Hrun. cbn in Hrun.
    simplify_eq. by repeat split.
  - destruct (delete_bins_run self w Hflag) as (w1 & Hrun1 & Hdb & _).
    rewrite Hrun1 in Hrun. simplify_eq. rewrite Hdb.
    by rewrite table_db_delete_ne.
Qed.

(** X4: run with its flag unset, [delete_bins] removes the Bin rows kept in a
    warehouse of the job's company and no other: a Bin row is there
    afterwards exactly when it was there and is in no such warehouse.  No
    other table changes, the flag is set in the document and in the stored
    copy, and [delete_lead_addresses] is queued. *)
Theorem delete_bins_removes_company_bins (self : Job) (w : World) :
  delete_bin_data self = false →
  ∃ w',
    delete_bins self w = Ok (set_delete_bin_data true self, w') ∧
    (∀ bin, bin ∈ table (db w') "Bin" ↔
            bin ∈ table (db w) "Bin" ∧ ¬ in_warehouse_of_company self (db w) bin) ∧
    (∀ t, t ≠ "Bin" → table (db w') t = table (db w) t) ∧
    delete_bin_data (stored w') = true ∧
    q_doc_method <$> queue w' = ((q_doc_method <$> queue w) ++ ["delete_lead_addresses"])%list.
Proof.
  intros Hflag. destruct (delete_bins_run self w Hflag) as (w' & Hrun & Hdb & Hst & Hq & _).
  exists w'. split; [exact Hrun|]. rewrite Hdb, Hst. split; [|split; [|done]].
  - intros bin. rewrite table_db_delete_eq, list_elem_of_filter.
    unfold in_warehouse_of_company. split.
    + intros [Hkeep Hbin]. split; [done|]. intros (wh & name & Hwh & Hco & Hname & Hbw).
      apply Hkeep. exists name. split; [done|]. eapply pluck_elem; [|exact Hname].
      by apply list_elem_of_filter.
    + intros [Hbin Hout]. split; [|done]. intros (name & Hbw & Hin). apply Hout.
      apply elem_pluck in Hin as (wh & [Hco Hwh]%list_elem_of_filter & Hname).
      by exists wh, name.
  - intros t Ht. by rewrite table_db_delete_ne.
Qed.

Lemma delete_bins_removes_company_bins_witness :
  ∃ w',
    delete_bins purge_job bins_world = Ok (set_delete_bin_data true purge_job, w') ∧
    table (db w') "Bin" = [row [("name", VStr "b2"); ("warehouse", VStr "Stores - C2")]].
Proof.
  destruct (delete_bins_removes_company_bins purge_job bins_world eq_refl)
    as (w' & Hrun & _).
  exists w'. split; [exact Hrun|].
  assert (Some w' = Some (set_queue [queued "delete_lead_addresses"]
             (set_stored (set_delete_bin_data true purge_job)
                (set_db (db_delete "Bin" (col_in "warehouse" ["Stores - C1"]) (db bins_world))
                   bins_world)))) as Hw'.
  { assert (delete_bins purge_job bins_world =
            Ok (set_delete_bin_data true purge_job,
                set_queue [queued "delete_lead_addresses"]
                  (set_stored (set_delete_bin_data true purge_job)
                     (set_db (db_delete "Bin" (col_in "warehouse" ["Stores - C1"])
                                (db bins_world)) bins_world)))) as Hrun'
      by (vm_compute; reflexivity).
    rewrite Hrun in Hrun'. by simplify_eq. }
  simplify_eq. vm_compute. reflexivity.
Defined.

Lemma delete_lead_addresses_run (self : Job) (w : World) :
  delete_leads_and_addresses self = false →
  ∃ w',
    delete_lead_addresses self w = Ok (set_delete_leads_and_addresses true self, w') ∧
    let leads := leads_of_company self (db w) in
    let addresses :=
      pluck "parent" (filter (col_in "link_name" leads) (table (db w) "Dynamic Link")) in
    db w' =
      match leads with
      | [] => db w
      | _ =>
          db_update "Customer" (col_in "lead_name" leads) "lead_name" VNull
            match addresses with
            | [] => db w
            | _ =>
                db_delete "Dynamic Link"
                  (λ r, col_is "link_doctype" "Lead" r ∧ col_is "parenttype" "Address" r ∧
                        col_in "link_name" leads r)
                  (db_delete "Address"
                     (λ r, col_in "name" addresses r ∧
                           ¬ col_in "name" (parents_with_several_link_doctypes (db w)) r)
                     (db w))
            end
      end ∧
    stored w' = set_delete_leads_and_addresses true (stored w) ∧
    q_doc_method <$> queue w' = ((q_doc_method <$> queue w) ++ ["reset_company_values"])%list ∧
    notification_cache w' = notification_cache w.
Proof.
  intros Hflag. unfold delete_lead_addresses. rewrite Hflag. cbn [negb].
  unfold mbind, M_bind, get_db. cbn [get_all].
  fold (leads_of_company self (db w)).
  destruct (leads_of_company self (db w)) as [|lead leads'].
  - eexists. split; [reflexivity|]. cbn. by rewrite fmap_app.
  - destruct (pluck "parent" _) as [|addr addrs'];
      (eexists; split; [reflexivity|]; cbn -[db_delete db_update]; by rewrite fmap_app).
Qed.

Lemma delete_lead_addresses_frame (self self' : Job) (w w' : World) (t : string) :
  delete_lead_addresses self w = Ok (self', w') →
  t ≠ "Address" → t ≠ "Dynamic Link" → t ≠ "Customer" →
  table (db w') t = table (db w) t ∧
  company self' = company self ∧
  reset_company_default_values self' = reset_company_default_values self.
Proof.
  intros Hrun Ha Hl Hc. destruct (delete_leads_and_addresses self) eqn:Hflag.
  - unfold delete_lead_addresses in Hrun. rewrite Hflag in Hrun.
    unfold mbind, M_bind, mret, M_ret, chain_callback, enqueue in Hrun. cbn in Hrun.
    simplify_eq. by repeat split.
  - destruct (delete_lead_addresses_run self w Hflag) as (w1 & Hrun1 & Hdb & _).
    rewrite Hrun1 in Hrun. simplify_eq. cbv zeta in Hdb. rewrite Hdb.
    split; [|done]. destruct (leads_of_company self (db w)); [done|].
    rewrite table_db_update_ne by done. destruct (pluck "parent" _); [done|].
    by rewrite !table_db_delete_ne.
Qed.



Lemma delete_bins_returns (self : Job) (w : World) :
  ∃ self' w', delete_bins self w = Ok (self', w').
Proof.
  destruct (delete_bin_data self) eqn:Hflag.
  - unfold delete_bins. rewrite Hflag. by eexists _, _.
  - destruct (delete_bins_run self w Hflag) as (w' & Hrun & _). by eexists _, _.
Qed.

Lemma delete_lead_addresses_returns (self : Job) (w : World) :
  ∃ self' w', delete_lead_addresses self w = Ok (self', w').
Proof.
  destruct (delete_leads_and_addresses self) eqn:Hflag.
  - unfold delete_lead_addresses. rewrite Hflag. by eexists _, _.
  - destruct (delete_lead_addresses_run self w Hflag) as (w' & Hrun & _). by eexists _, _.
Qed.

Lemma reset_company_values_raises (self : Job) (w : World) :
  reset_company_default_values self = false →
  filter (col_is "name" (company self)) (table (db w) "Company") = [] →
  reset_company_values self w = Raise DoesNotExistError.
Proof.
  intros Hflag Hmissing. unfold reset_company_values. rewrite Hflag. cbn [negb].
  unfold mbind, M_bind, get_db. by rewrite Hmissing.
Qed.





(** ** What a stage does to the document *)

Lemma returns_ret {A} (R : A → Prop) (a : A) : R a → returns R (mret a).
Proof. intros HR w a' w' Hrun. unfold mret, M_ret in Hrun. by simplify_eq. Qed.

Lemma returns_bind {A B} (R1 : A → Prop) (R2 : B → Prop) (m : M A) (k : A → M B) :
  returns R1 m → (∀ a, R1 a → returns R2 (k a)) → returns R2 (m ≫= k).
Proof.
  intros Hm Hk w b w' Hrun. unfold mbind, M_bind in Hrun.
  destruct (m w) as [[a w1]|e] eqn:Hmw; [|discriminate].
  eapply Hk; [|exact Hrun]. by eapply Hm.
Qed.

Lemma returns_then {A B} (R : B → Prop) (m : M A) (k : A → M B) :
  (∀ a, returns R (k a)) → returns R (m ≫= k).
Proof.
  intros Hk. apply (returns_bind (λ _, True)); [done|]. intros a _. apply Hk.
Qed.

Lemma returns_db_set (assign : Job → Job) (self : Job) :
  returns (λ self', self' = assign self) (db_set assign self).
Proof. intros w a w' Hrun. unfold db_set in Hrun. by simplify_eq. Qed.

Lemma returns_for_each {A S} (R : S → Prop) (l : list A) (body : A → S → M S) :
  (∀ x s, R s → returns R (body x s)) → ∀ s, R s → returns R (for_each l body s).
Proof.
  induction l as [|x l IH]; intros Hbody s Hs; cbn [for_each].
  - by apply returns_ret.
  - eapply returns_bind; [by apply Hbody|]. intros s' Hs'. by apply IH.
Qed.

(** The document a guarded stage returns: the document itself when the flag
    was set, else the document with the flag assigned. *)
Lemma returns_guarded (flag : bool) (assign : Job → Job) (self : Job)
    (effect : M Job) (method : string) :
  (flag = false → returns (λ self', self' = assign self) effect) →
  returns (λ self', self' = if flag then self else assign self)
    (self ← (if negb flag then effect else mret self);
     _ ← chain_callback self method; mret self).
Proof.
  intros Heffect.
  apply (returns_bind (λ self', self' = if flag then self else assign self)).
  - destruct flag; cbn [negb]; [by apply returns_ret|by apply Heffect].
  - intros self' ->. apply returns_then. intros _. by apply returns_ret.
Qed.

Lemma extend_inventory_appends (self : Job) d tables docfields :
  ∀ inventory, ∃ added,
    extend_inventory self d tables docfields inventory = (inventory ++ added)%list.
Proof.
  induction docfields as [|docfield rest IH]; intros inventory; cbn [extend_inventory].
  - exists []. by rewrite app_nil_r.
  - case_decide.
    + destruct (IH (inventory ++ [new_item inventory docfield.1 docfield.2 0])%list)
        as (added & ->).
      eexists. by rewrite <- app_assoc.
    + apply IH.
Qed.

Lemma step_result (st : Step) (self self' : Job) (w w' : World) :
  step_method st self w = Ok (self', w') →
  step_flag st self' = true ∧
  (∀ st', st' ≠ st → step_flag st' self' = step_flag st' self) ∧
  name self' = name self ∧
  company self' = company self ∧
  status self' = status self ∧
  doctypes_to_be_ignored self' = doctypes_to_be_ignored self ∧
  ∃ added,
    doctypes self' = (doctypes self ++ added)%list ∧
    (st ≠ Checkpointed InventoryInitialized → added = []).
Proof.
  intros Hrun.
  assert (∀ (flag : Job → bool) (assign : Job → Job),
            self' = (if flag self then self else assign self) →
            (∀ j, flag (assign j) = true) →
            flag self' = true) as Hset.
  { intros flag assign -> Hassign. by destruct (flag self) eqn:Hf. }
  destruct st as [[| | | |]|]; cbn [step_method stage_method] in Hrun.
  - assert (self' = if delete_bin_data self then self
                    else set_delete_bin_data true self) as Hself.
    { revert Hrun. unfold delete_bins. apply returns_guarded. intros _.
      apply returns_then. intros _. apply returns_db_set. }
    split; [by apply (Hset delete_bin_data (set_delete_bin_data true))|].
    subst self'. destruct (delete_bin_data self) eqn:Hf.
    + repeat split; try done. exists []. by rewrite app_nil_r.
    + repeat split; try done.
      * by intros [[| | | |]|].
      * exists []. by rewrite app_nil_r.
  - assert (self' = if delete_leads_and_addresses self then self
                    else set_delete_leads_and_addresses true self) as Hself.
    { revert Hrun. unfold delete_lead_addresses. apply returns_guarded. intros _.
      apply returns_then. intros d. apply returns_then. intros _. apply returns_db_set. }
    split; [by apply (Hset delete_leads_and_addresses (set_delete_leads_and_addresses true))|].
    subst self'. destruct (delete_leads_and_addresses self) eqn:Hf.
    + repeat split; try done. exists []. by rewrite app_nil_r.
    + repeat split; try done.
      * by intros [[| | | |]|].
      * exists []. by rewrite app_nil_r.
  - assert (self' = if reset_company_default_values self then self
                    else set_reset_company_default_values true self) as Hself.
    { revert Hrun. unfold reset_company_values. apply returns_guarded. intros _.
      apply returns_then. intros d. apply returns_then. intros _. apply returns_db_set. }
    split; [by apply (Hset reset_company_default_values
                        (set_reset_company_default_values true))|].
    subst self'. destruct (reset_company_default_values self) eqn:Hf.
    + repeat split; try done. exists []. by rewrite app_nil_r.
    + repeat split; try done.
      * by intros [[| | | |]|].
      * exists []. by rewrite app_nil_r.
  - assert (self' = if clear_notifications self then self
                    else set_clear_notifications true self) as Hself.
    { revert Hrun. unfold delete_notifications. apply returns_guarded. intros _.
      apply returns_then. intros _. apply returns_db_set. }
    split; [by apply (Hset clear_notifications (set_clear_notifications true))|].
    subst self'. destruct (clear_notifications self) eqn:Hf.
    + repeat split; try done. exists []. by rewrite app_nil_r.
    + repeat split; try done.
      * by intros [[| | | |]|].
      * exists []. by rewrite app_nil_r.
  - destruct (scan_run self w) as (self1 & w1 & Hrun1 & _ & Hinv).
    rewrite Hrun1 in Hrun. simplify_eq.
    assert (returns
              (λ j, initialize_doctypes_table j = true ∧
                    (∀ st', st' ≠ Checkpointed InventoryInitialized →
                            step_flag st' j = step_flag st' self) ∧
                    name j = name self ∧ company j = company self ∧
                    status j = status self ∧
                    doctypes_to_be_ignored j = doctypes_to_be_ignored self)
              (initialize_doctypes_to_be_deleted_table self)) as Hret.
    { unfold initialize_doctypes_to_be_deleted_table.
      match goal with
      | |- returns ?R _ =>
          apply (returns_bind R); [|intros j Hj; apply returns_then; intros _;
                                    by apply returns_ret]
      end.
      destruct (initialize_doctypes_table self) eqn:Hf; cbn [negb].
      { apply returns_ret. by repeat split. }
      apply returns_then. intros d.
      eapply (returns_bind
                (λ j, (∀ st', st' ≠ Checkpointed InventoryInitialized →
                              step_flag st' j = step_flag st' self) ∧
                      name j = name self ∧ company j = company self ∧
                      status j = status self ∧
                      doctypes_to_be_ignored j = doctypes_to_be_ignored self)).
      - apply returns_for_each; [|by repeat split].
        intros docfield j Hj. unfold initialize_doctypes_to_be_deleted_table_entry.
        case_decide; [|by apply returns_ret]. apply returns_then. intros d'.
        case_decide; [|by apply returns_ret]. unfold populate_doctypes_table.
        apply returns_then. intros _. apply returns_ret.
        case_decide; [|done]. destruct Hj as (Hflags & ? & ? & ? & ?).
        repeat split; try done. intros st' Hst'. rewrite <- (Hflags st' Hst').
        by destruct st' as [[| | | |]|].
      - intros j (Hflags & ? & ? & ? & ?).
        intros w0 a w0' Hdb. unfold db_set in Hdb. simplify_eq.
        repeat split; try done. intros st' Hst'. rewrite <- (Hflags st' Hst').
        by destruct st' as [[| | | |]|]. }
    destruct (Hret _ _ _ Hrun1) as (Hflag & Hflags & Hname & Hco & Hst & Hign).
    repeat split; try done. rewrite Hinv.
    destruct (initialize_doctypes_table self).
    + exists []. by rewrite app_nil_r.
    + destruct (extend_inventory_appends self (db w) (get_all_child_doctypes (db w))
                  (get_doctypes_with_company_field (db w)
                     (get_doctypes_to_be_ignored_list self (db w))) (doctypes self))
        as (added & ->).
      exists added. split; [done|]. intros Hne. by destruct Hne.
  - assert (self' = if delete_transactions self then self
                    else set_delete_transactions true self) as Hself.
    { assert (returns (λ j, j = if delete_transactions self then self
                                else set_delete_transactions true self)
                (delete_company_transactions self)) as Hret; [|by eapply Hret].
      unfold delete_company_transactions.
      destruct (delete_transactions self); cbn [negb]; [by apply returns_ret|].
      apply returns_then. intros _. apply returns_db_set. }
    split; [by apply (Hset delete_transactions (set_delete_transactions true))|].
    subst self'. destruct (delete_transactions self) eqn:Hf.
    + repeat split; try done. exists []. by rewrite app_nil_r.
    + repeat split; try done.
      * by intros [[| | | |]|].
      * exists []. by rewrite app_nil_r.
Qed.

Lemma bind_ok {A B} (m : M A) (k : A → M B) (w w' : World) (b : B) :
  (m ≫= k) w = Ok (b, w') → ∃ a w1, m w = Ok (a, w1) ∧ k a w1 = Ok (b, w').
Proof.
  unfold mbind, M_bind. destruct (m w) as [[a w1]|e]; [|discriminate].
  intros Hrun. by exists a, w1.
Qed.

(** X8: a stage that returns (any of the five chained stages or the
    transaction stage) hands back the document with its own checkpoint flag
    set and every other flag, the name, the company, the status and the
    excluded-doctypes table as they were; the inventory is extended at its
    end, and only the inventory scan adds rows to it. *)
Theorem stage_changes_only_its_flag (st : Step) (self self' : Job) (w w' : World) :
  step_method st self w = Ok (self', w') →
  step_flag st self' = true ∧
  (∀ st', st' ≠ st → step_flag st' self' = step_flag st' self) ∧
  name self' = name self ∧
  company self' = company self ∧
  status self' = status self ∧
  doctypes_to_be_ignored self' = doctypes_to_be_ignored self ∧
  ∃ added,
    doctypes self' = (doctypes self ++ added)%list ∧
    (st ≠ Checkpointed InventoryInitialized → added = []).
Proof. apply step_result. Qed.

Lemma stage_changes_only_its_flag_witness :
  ∃ self' w',
    initialize_doctypes_to_be_deleted_table purge_job scan_world = Ok (self', w') ∧
    initialize_doctypes_table self' = true ∧
    (∀ st', st' ≠ Checkpointed InventoryInitialized →
            step_flag st' self' = step_flag st' purge_job) ∧
    name self' = "TDR-0001" ∧
    company self' = "C1" ∧
    status self' = "Queued" ∧
    doctypes_to_be_ignored self' = [] ∧
    ∃ added,
      doctypes self' = ([] ++ added)%list ∧
      (Checkpointed InventoryInitialized ≠ Checkpointed InventoryInitialized →
       added = []).
Proof.
  eexists _, _. split; [vm_compute; reflexivity|].
  eapply (stage_changes_only_its_flag (Checkpointed InventoryInitialized)
            purge_job _ scan_world).
  vm_compute. reflexivity.
Defined.

(** X9: when [start_deletion_process] returns, the document it hands back
    has all six checkpoint flags set, whatever they were; its name, company,
    status and excluded-doctypes table are those of the document it was
    called on, and its inventory extends the former one. *)
Theorem start_deletion_process_sets_every_flag (self self' : Job) (w w' : World) :
  start_deletion_process self w = Ok (self', w') →
  all_flags_set self' ∧
  name self' = name self ∧
  company self' = company self ∧
  status self' = status self ∧
  doctypes_to_be_ignored self' = doctypes_to_be_ignored self ∧
  ∃ added, doctypes self' = (doctypes self ++ added)%list.
Proof.
  intros Hrun. unfold start_deletion_process in Hrun.
  apply bind_ok in Hrun as (self1 & w1 & Hrun1 & Hrun).
  apply bind_ok in Hrun as (self2 & w2 & Hrun2 & Hrun).
  apply bind_ok in Hrun as (self3 & w3 & Hrun3 & Hrun).
  apply bind_ok in Hrun as (self4 & w4 & Hrun4 & Hrun).
  apply bind_ok in Hrun as (self5 & w5 & Hrun5 & Hrun6).
  apply (step_result (Checkpointed BinsCleared)) in Hrun1
    as (Hf1 & Ho1 & Hn1 & Hc1 & Hs1 & Hi1 & a1 & Hd1 & _).
  apply (step_result (Checkpointed AddressesCleared)) in Hrun2
    as (Hf2 & Ho2 & Hn2 & Hc2 & Hs2 & Hi2 & a2 & Hd2 & _).
  apply (step_result (Checkpointed CompanyValuesReset)) in Hrun3
    as (Hf3 & Ho3 & Hn3 & Hc3 & Hs3 & Hi3 & a3 & Hd3 & _).
  apply (step_result (Checkpointed NotificationsCleared)) in Hrun4
    as (Hf4 & Ho4 & Hn4 & Hc4 & Hs4 & Hi4 & a4 & Hd4 & _).
  apply (step_result (Checkpointed InventoryInitialized)) in Hrun5
    as (Hf5 & Ho5 & Hn5 & Hc5 & Hs5 & Hi5 & a5 & Hd5 & _).
  apply (step_result TransactionsDeleted) in Hrun6
    as (Hf6 & Ho6 & Hn6 & Hc6 & Hs6 & Hi6 & a6 & Hd6 & _).
  cbn [step_flag stage_flag] in *.
  assert (∀ st, step_flag st self' = true) as Hall.
  { intros st.
    destruct (decide (st = TransactionsDeleted)) as [->|H6]; [exact Hf6|].
    rewrite (Ho6 st H6).
    destruct (decide (st = Checkpointed InventoryInitialized)) as [->|H5]; [exact Hf5|].
    rewrite (Ho5 st H5).
    destruct (decide (st = Checkpointed NotificationsCleared)) as [->|H4]; [exact Hf4|].
    rewrite (Ho4 st H4).
    destruct (decide (st = Checkpointed CompanyValuesReset)) as [->|H3]; [exact Hf3|].
    rewrite (Ho3 st H3).
    destruct (decide (st = Checkpointed AddressesCleared)) as [->|H2]; [exact Hf2|].
    rewrite (Ho2 st H2).
    destruct st as [[| | | |]|]; done. }
  split.
  { repeat split.
    - apply (Hall (Checkpointed NotificationsCleared)).
    - apply (Hall (Checkpointed BinsCleared)).
    - apply (Hall (Checkpointed AddressesCleared)).
    - apply (Hall TransactionsDeleted).
    - apply (Hall (Checkpointed InventoryInitialized)).
    - apply (Hall (Checkpointed CompanyValuesReset)). }
  split; [congruence|]. split; [congruence|]. split; [congruence|].
  split; [congruence|].
  exists (a1 ++ a2 ++ a3 ++ a4 ++ a5 ++ a6)%list.
  rewrite Hd6, Hd5, Hd4, Hd3, Hd2, Hd1. by rewrite <- !app_assoc.
Qed.

Lemma start_deletion_process_sets_every_flag_witness :
  ∃ self' w',
    start_deletion_process purge_job pipeline_world = Ok (self', w') ∧
    all_flags_set self' ∧
    name self' = "TDR-0001" ∧
    company self' = "C1" ∧
    status self' = "Queued" ∧
    doctypes_to_be_ignored self' = [] ∧
    ∃ added, doctypes self' = ([] ++ added)%list.
Proof.
  eexists _, _. split; [vm_compute; reflexivity|].
  eapply (start_deletion_process_sets_every_flag purge_job _ pipeline_world).
  vm_compute. reflexivity.
Defined.

Lemma set_queue_same (w : World) : set_queue (queue w ++ []) w = w.
Proof. destruct w. unfold set_queue. cbn. by rewrite app_nil_r. Qed.

Lemma flagged_step_run (st : Step) (self : Job) (w : World) :
  step_flag st self = true →
  ∃ calls,
    step_method st self w = Ok (self, set_queue (queue w ++ calls) w) ∧
    q_doc_method <$> calls =
      match st with
      | Checkpointed BinsCleared => ["delete_lead_addresses"]
      | Checkpointed AddressesCleared => ["reset_company_values"]
      | Checkpointed CompanyValuesReset => ["delete_notifications"]
      | Checkpointed NotificationsCleared => ["initialize_doctypes_to_be_deleted_table"]
      | Checkpointed InventoryInitialized => ["delete_company_transactions"]
      | TransactionsDeleted => []
      end.
Proof.
  intros Hflag. destruct st as [[| | | |]|]; cbn [step_flag stage_flag] in Hflag.
  6: { exists []. split; [|done]. rewrite set_queue_same.
       cbn [step_method]. unfold delete_company_transactions. by rewrite Hflag. }
  all: eexists [_]; split;
    [ cbv [step_method stage_method delete_bins delete_lead_addresses
           reset_company_values delete_notifications
           initialize_doctypes_to_be_deleted_table];
      rewrite Hflag; reflexivity
    | reflexivity ].
Qed.

(** X10: running a stage again right after it has returned changes neither
    the document nor the tables, the stored job or the notification cache,
    whatever the first run did and whatever is left in the tables: a chained
    stage only queues its successor once more, and the transaction stage
    does nothing at all, even when records of the company remain. *)
Theorem stage_rerun_only_chains (st : Step) (self self' : Job) (w w' : World) :
  step_method st self w = Ok (self', w') →
  ∃ calls,
    step_method st self' w' = Ok (self', set_queue (queue w' ++ calls) w') ∧
    q_doc_method <$> calls =
      match st with
      | Checkpointed BinsCleared => ["delete_lead_addresses"]
      | Checkpointed AddressesCleared => ["reset_company_values"]
      | Checkpointed CompanyValuesReset => ["delete_notifications"]
      | Checkpointed NotificationsCleared => ["initialize_doctypes_to_be_deleted_table"]
      | Checkpointed InventoryInitialized => ["delete_company_transactions"]
      | TransactionsDeleted => []
      end.
Proof.
  intros Hrun. apply flagged_step_run. by apply step_result in Hrun as [Hflag _].
Qed.

Lemma stage_rerun_only_chains_witness :
  ∃ self' w',
    delete_company_transactions scenario_job scenario_world = Ok (self', w') ∧
    ∃ calls,
      delete_company_transactions self' w' =
        Ok (self', set_queue (queue w' ++ calls) w') ∧
      q_doc_method <$> calls = [].
Proof.
  eexists _, _. split; [exact scenario_world_run|].
  eapply (stage_rerun_only_chains TransactionsDeleted scenario_job _ scenario_world).
  exact scenario_world_run.
Defined.

(** ** What the stages never do to the tables *)

Section Stable.
Context (J : DB → Prop) (HJ : stable J).

Lemma stable_delete t (P : Row → Prop) `{!∀ r, Decision (P r)} :
  keeps J (modify_db (db_delete t P)).
Proof. apply keeps_modify_db. intros d. apply HJ. Qed.

Lemma stable_set_null t (P : Row → Prop) `{!∀ r, Decision (P r)} c :
  keeps J (modify_db (db_update t P c VNull)).
Proof. apply keeps_modify_db. intros d. by apply HJ. Qed.

Lemma stable_set_int t (P : Row → Prop) `{!∀ r, Decision (P r)} c z :
  keeps J (modify_db (db_update t P c (VInt z))).
Proof. apply keeps_modify_db. intros d. by apply HJ. Qed.

Lemma stable_db_set assign self : keeps J (db_set assign self).
Proof.
  apply keeps_same_db. intros w a w' Hrun. unfold db_set in Hrun. by simplify_eq.
Qed.

Lemma stable_chain_callback self method : keeps J (chain_callback self method).
Proof.
  apply keeps_same_db. intros w a w' Hrun.
  unfold chain_callback, enqueue in Hrun. by simplify_eq.
Qed.

Lemma stable_guarded (flag : bool) (self : Job) (effect : M Job) (method : string) :
  keeps J effect →
  keeps J (self ← (if negb flag then effect else mret self);
           _ ← chain_callback self method; mret self).
Proof.
  intros Heffect. apply keeps_bind.
  - destruct flag; cbn [negb]; [apply keeps_ret|exact Heffect].
  - intros j. apply keeps_bind; [apply stable_chain_callback|].
    intros _. apply keeps_ret.
Qed.

Lemma stable_delete_bins self : keeps J (delete_bins self).
Proof.
  apply stable_guarded. apply keeps_bind; [|intros _; apply stable_db_set].
  apply keeps_modify_db. intros d. apply HJ.
Qed.

Lemma stable_delete_lead_addresses self : keeps J (delete_lead_addresses self).
Proof.
  apply stable_guarded. apply keeps_get_db. intros d _.
  apply keeps_bind; [|intros _; apply stable_db_set].
  destruct (pluck "name" _); [apply keeps_ret|].
  apply keeps_bind; [|intros _; apply stable_set_null].
  destruct (pluck "parent" _); [apply keeps_ret|].
  apply keeps_bind; [|intros _; apply stable_delete].
  apply keeps_modify_db. intros d'. apply HJ.
Qed.

Lemma stable_reset_company_values self : keeps J (reset_company_values self).
Proof.
  apply stable_guarded. apply keeps_get_db. intros d _.
  apply keeps_bind; [|intros _; apply stable_db_set].
  destruct (filter _ _); [apply keeps_raise|].
  apply keeps_bind; [apply stable_set_int|intros _; apply stable_set_null].
Qed.

Lemma stable_delete_notifications self : keeps J (delete_notifications self).
Proof.
  apply stable_guarded. apply keeps_bind; [|intros _; apply stable_db_set].
  apply keeps_same_db. intros w a w' Hrun.
  unfold frappe_clear_notifications in Hrun. by simplify_eq.
Qed.

Lemma stable_initialize self : keeps J (initialize_doctypes_to_be_deleted_table self).
Proof.
  apply keeps_same_db. intros w a w' Hrun.
  destruct (scan_run self w) as (self1 & w1 & Hrun1 & Hdb & _).
  rewrite Hrun1 in Hrun. by simplify_eq.
Qed.

Lemma stable_delete_doc doctype names : keeps J (delete_doc doctype names).
Proof. apply stable_delete. Qed.

Lemma stable_delete_version_log doctype names :
  keeps J (delete_version_log doctype names).
Proof. apply stable_delete. Qed.

Lemma stable_delete_communications doctype names :
  keeps J (delete_communications doctype names).
Proof.
  unfold delete_communications. apply keeps_get_db. intros d _.
  destruct (pluck _ _); [apply keeps_ret|].
  apply keeps_for_each. intros batch [] _. apply stable_delete_doc.
Qed.

Lemma stable_delete_comments doctype names :
  keeps J (delete_comments doctype names).
Proof.
  unfold delete_comments. apply keeps_get_db. intros d _.
  destruct (pluck _ _); [apply keeps_ret|].
  apply keeps_for_each. intros batch [] _. apply stable_delete_doc.
Qed.

Lemma stable_unlink_attachments doctype names :
  keeps J (unlink_attachments doctype names).
Proof.
  unfold unlink_attachments. apply keeps_get_db. intros d _.
  destruct (pluck _ _); [apply keeps_ret|].
  apply keeps_for_each. intros batch [] _.
  apply keeps_bind; [|intros _]; apply stable_set_null.
Qed.

Lemma stable_delete_child_tables doctype names :
  keeps J (delete_child_tables doctype names).
Proof.
  unfold delete_child_tables. apply keeps_get_db. intros d _.
  apply keeps_for_each. intros child [] _. apply stable_delete.
Qed.

Lemma stable_update_naming_series naming_series doctype :
  keeps J (update_naming_series naming_series doctype).
Proof.
  unfold update_naming_series. apply keeps_bind.
  - destruct (Str.contains _ _); destruct (Str.rsplit1 _ _);
      (apply keeps_ret || apply keeps_raise).
  - intros split. apply keeps_get_db. intros d _. apply stable_set_int.
Qed.

Lemma stable_reset_naming_series doctype : keeps J (reset_naming_series doctype).
Proof.
  unfold reset_naming_series. apply keeps_get_db. intros d _.
  destruct (db_get_value _ _ _ _) as [|[|c rest]|]; try apply keeps_ret.
  destruct (Str.contains _ _); [apply stable_update_naming_series|apply keeps_ret].
Qed.

Lemma stable_entry self item : keeps J (delete_company_transactions_entry self item).
Proof.
  unfold delete_company_transactions_entry. case_decide; [|apply keeps_ret].
  apply keeps_get_db. intros d _. case_decide.
  - apply keeps_bind; [apply stable_delete_version_log|intros _].
    apply keeps_bind; [apply stable_delete_communications|intros _].
    apply keeps_bind; [apply stable_delete_comments|intros _].
    apply keeps_bind; [apply stable_unlink_attachments|intros _].
    apply keeps_bind; [apply stable_delete_child_tables|intros _].
    apply keeps_bind; [apply stable_delete|intros _].
    apply keeps_bind; [apply stable_reset_naming_series|intros _].
    apply stable_chain_callback.
  - apply keeps_same_db. intros w a w' Hrun.
    unfold set_value_done in Hrun. by simplify_eq.
Qed.

Lemma stable_delete_company_transactions self :
  keeps J (delete_company_transactions self).
Proof.
  unfold delete_company_transactions. destruct (negb _); [|apply keeps_ret].
  apply keeps_bind; [|intros _; apply stable_db_set].
  apply keeps_for_each. intros item [] _. apply stable_entry.
Qed.

Lemma stable_step st self : keeps J (step_method st self).
Proof.
  destruct st as [[| | | |]|]; cbn [step_method stage_method].
  - apply stable_delete_bins.
  - apply stable_delete_lead_addresses.
  - apply stable_reset_company_values.
  - apply stable_delete_notifications.
  - apply stable_initialize.
  - apply stable_delete_company_transactions.
Qed.

Lemma stable_start_deletion_process self : keeps J (start_deletion_process self).
Proof.
  unfold start_deletion_process.
  apply keeps_bind; [apply stable_delete_bins|intros self1].
  apply keeps_bind; [apply stable_delete_lead_addresses|intros self2].
  apply keeps_bind; [apply stable_reset_company_values|intros self3].
  apply keeps_bind; [apply stable_delete_notifications|intros self4].
  apply keeps_bind; [apply stable_initialize|intros self5].
  apply stable_delete_company_transactions.
Qed.

Lemma stable_run_doc_method method : keeps J (run_doc_method method).
Proof.
  intros w a w' HJw Hrun. unfold run_doc_method in Hrun.
  destruct (doc_method method) as [m|] eqn:Hm; [|discriminate].
  destruct (m (stored w) w) as [[self' w1]|e] eqn:Hmw; [|discriminate].
  simplify_eq. revert Hmw. revert HJw. revert Hm. unfold doc_method.
  repeat case_decide; intros; simplify_eq.
  - by eapply (stable_step (Checkpointed BinsCleared)).
  - by eapply (stable_step (Checkpointed AddressesCleared)).
  - by eapply (stable_step (Checkpointed CompanyValuesReset)).
  - by eapply (stable_step (Checkpointed NotificationsCleared)).
  - by eapply (stable_step (Checkpointed InventoryInitialized)).
  - by eapply (stable_step TransactionsDeleted).
  - by eapply stable_start_deletion_process.
Qed.
End Stable.

Lemma stable_row_count t n : stable (λ d, (length (table d t) ≤ n)%nat).
Proof.
  split.
  - intros t' P dec d Hd. rewrite table_db_delete. case_decide; [subst|done].
    etrans; [apply length_filter|done].
  - intros t' P dec c v d _ Hd. rewrite table_db_update. case_decide; [subst|done].
    by rewrite length_fmap.
Qed.

Lemma db_count_zero (d : DB) t (P : Row → Prop) `{!∀ r, Decision (P r)} :
  db_count d t P = O ↔ ∀ r, r ∈ table d t → ¬ P r.
Proof.
  unfold db_count. rewrite length_zero_iff_nil. split.
  - intros Hnil r Hr HP.
    assert (r ∈ filter P (table d t)) as Hin by by apply list_elem_of_filter.
    rewrite Hnil in Hin. by apply elem_of_nil in Hin.
  - intros Hnone. induction (table d t) as [|r rows IH]; [done|].
    rewrite filter_cons. destruct (decide (P r)) as [HP|HP].
    + exfalso. apply (Hnone r); [by left|done].
    + apply IH. intros r' Hr'. apply Hnone. by right.
Qed.

Lemma stable_purged self item : stable (purged self item).
Proof.
  unfold purged, get_number_of_docs_linked_with_specified_company. split.
  - intros t P dec d Hd. rewrite db_count_zero in Hd. apply db_count_zero.
    intros r. rewrite table_db_delete. case_decide; [subst|by apply Hd].
    intros [_ Hr]%list_elem_of_filter. by apply Hd.
  - intros t P dec c v d Hv Hd. rewrite db_count_zero in Hd. apply db_count_zero.
    intros r. rewrite table_db_update. case_decide; [subst|by apply Hd].
    intros (r0 & -> & Hr0)%list_elem_of_fmap. case_decide; [|by apply Hd].
    unfold col_is, col. destruct (decide (c = docfield_name item)) as [->|Hc].
    + rewrite lookup_insert_eq. cbn. apply Hv.
    + rewrite lookup_insert_ne by done. by apply Hd.
Qed.

Lemma establishes_bind_l {A B} (J : DB → Prop) (m : M A) (k : A → M B) :
  establishes J m → (∀ a, keeps J (k a)) → establishes J (m ≫= k).
Proof.
  intros Hm Hk w b w' Hrun. apply bind_ok in Hrun as (a & w1 & Hrun1 & Hrun2).
  eapply Hk; [|exact Hrun2]. by eapply Hm.
Qed.

Lemma establishes_bind_r {A B} (J : DB → Prop) (m : M A) (k : A → M B) :
  (∀ a, establishes J (k a)) → establishes J (m ≫= k).
Proof.
  intros Hk w b w' Hrun. apply bind_ok in Hrun as (a & w1 & Hrun1 & Hrun2).
  by eapply Hk.
Qed.

Lemma establishes_for_each {A S} (J : DB → Prop) (l : list A) (body : A → S → M S) x :
  x ∈ l →
  (∀ s, establishes J (body x s)) →
  (∀ y s, keeps J (body y s)) →
  ∀ s, establishes J (for_each l body s).
Proof.
  intros Hx Hest Hkeep. induction l as [|y l IH]; intros s.
  { by apply elem_of_nil in Hx. }
  cbn [for_each]. apply elem_of_cons in Hx as [->|Hx].
  - apply establishes_bind_l; [apply Hest|].
    intros s'. apply keeps_for_each. intros z s'' _. apply Hkeep.
  - apply establishes_bind_r. intros s'. by apply IH.
Qed.

Lemma entry_purges self item :
  doctype_name item ≠ self_doctype → done item = false →
  establishes (purged self item) (delete_company_transactions_entry self item).
Proof.
  intros Hown Hdone w a w' Hrun. unfold delete_company_transactions_entry in Hrun.
  rewrite decide_True in Hrun by done.
  apply bind_ok in Hrun as (d & w1 & Hget & Hrun).
  unfold get_db in Hget. simplify_eq. case_decide as Hcount.
  - revert Hrun.
    generalize (reference_doc_names self (db w1) item). intros names.
    revert w1 a w' Hcount.
    assert (establishes (purged self item)
              (_ ← delete_version_log (doctype_name item) names;
               _ ← delete_communications (doctype_name item) names;
               _ ← delete_comments (doctype_name item) names;
               _ ← unlink_attachments (doctype_name item) names;
               _ ← delete_child_tables (doctype_name item) names;
               _ ← delete_docs_linked_with_specified_company
                     self (doctype_name item) (docfield_name item);
               _ ← reset_naming_series (doctype_name item);
               chain_callback self "delete_company_transactions")) as Hest.
    { do 5 (apply establishes_bind_r; intros _).
      apply establishes_bind_l.
      - intros w a w' Hrun.
        unfold delete_docs_linked_with_specified_company, modify_db in Hrun.
        simplify_eq. cbn. unfold purged, get_number_of_docs_linked_with_specified_company.
        apply db_count_zero. intros r. rewrite table_db_delete_eq.
        by intros [Hr _]%list_elem_of_filter.
      - intros _. apply keeps_bind.
        + apply stable_reset_naming_series, stable_purged.
        + intros _. apply stable_chain_callback. }
    intros w1 a w' _ Hrun. by eapply Hest.
  - unfold set_value_done in Hrun. simplify_eq. cbn. unfold purged. lia.
Qed.

(** X11: when the transaction stage runs with its flag unset and returns,
    the company has no record left in any inventory entry that was open (not
    done and not the job's own doctype): whatever the number of records and
    the batch size, and whatever the later entries of the same run delete or
    update. *)
Theorem transaction_stage_purges_open_entries (self self' : Job) (w w' : World) :
  delete_transactions self = false →
  delete_company_transactions self w = Ok (self', w') →
  ∀ item, item ∈ doctypes self →
          doctype_name item ≠ self_doctype → done item = false →
          get_number_of_docs_linked_with_specified_company
            self (db w') (doctype_name item) (docfield_name item) = O.
Proof.
  intros Hflag Hrun item Hitem Hown Hdone.
  unfold delete_company_transactions in Hrun. rewrite Hflag in Hrun. cbn [negb] in Hrun.
  apply bind_ok in Hrun as ([] & w1 & Hloop & Hset).
  unfold db_set in Hset. simplify_eq. cbn.
  assert (establishes (purged self item)
            (for_each (doctypes self)
               (λ docfield (_ : ()), delete_company_transactions_entry self docfield)
               ())) as Hest; [|exact (Hest _ _ _ Hloop)].
  apply establishes_for_each with (x := item); [done| |].
  - intros []. by apply entry_purges.
  - intros item' []. apply stable_entry, stable_purged.
Qed.

Lemma transaction_stage_purges_open_entries_witness :
  ∃ self' w',
    delete_company_transactions large_job large_world = Ok (self', w') ∧
    ∀ item, item ∈ doctypes large_job →
            doctype_name item ≠ self_doctype → done item = false →
            get_number_of_docs_linked_with_specified_company
              large_job (db w') (doctype_name item) (docfield_name item) = O.
Proof.
  eexists _, _. split; [exact large_world_run|].
  eapply (transaction_stage_purges_open_entries large_job _ large_world);
    [reflexivity|exact large_world_run].
Defined.



(** ** The records the transaction stage keeps *)

Lemma leads_to_bind {A B} (J J1 J2 : DB → Prop) (m : M A) (k : A → M B) :
  leads_to J J1 m → (∀ a, leads_to J1 J2 (k a)) → leads_to J J2 (m ≫= k).
Proof.
  intros Hm Hk w b w' HJ Hrun. apply bind_ok in Hrun as (a & w1 & Hrun1 & Hrun2).
  eapply Hk; [|exact Hrun2]. by eapply Hm.
Qed.

Lemma filter_all {A} (P : A → Prop) `{!∀ x, Decision (P x)} (l : list A) :
  (∀ x, x ∈ l → P x) → filter P l = l.
Proof.
  induction l as [|x l IH]; intros Hall; [done|].
  rewrite filter_cons, decide_True by (apply Hall; by left).
  f_equal. apply IH. intros y Hy. apply Hall. by right.
Qed.

Lemma untouched_db_delete_eq doctype rows P `{!∀ r, Decision (P r)} (d : DB) :
  untouched doctype rows d →
  untouched doctype (filter (λ r, ¬ P r) rows) (db_delete doctype P d).
Proof.
  intros [Hrows Hschema]. split.
  - by rewrite table_db_delete_eq, Hrows.
  - intros r. rewrite table_db_delete. case_decide as Heq; [|exact (Hschema r)].
    intros [_ Hr]%list_elem_of_filter. rewrite Heq in Hr. exact (Hschema r Hr).
Qed.

Lemma survivors_elem self doctype inventory :
  ∀ rows r,
    r ∈ survivors self doctype inventory rows ↔
    r ∈ rows ∧
    ∀ item, item ∈ inventory → doctype_name item = doctype → open_entry item →
            ¬ col_is (docfield_name item) (company self) r.
Proof.
  induction inventory as [|item rest IH]; intros rows r; cbn [survivors].
  - split; [|by intros [? _]]. intros Hr. split; [done|].
    intros item Hitem. by apply elem_of_nil in Hitem.
  - rewrite IH. case_decide as Hitem.
    + rewrite list_elem_of_filter. split.
      * intros [[Hfield Hr] Hrest]. split; [done|].
        intros item' [->|Hin]%elem_of_cons; [done|by apply Hrest].
      * intros [Hr Hall]. split; [split; [|done]|].
        -- apply Hall; [by left|apply Hitem|apply Hitem].
        -- intros item' Hin. apply Hall. by right.
    + split.
      * intros [Hr Hrest]. split; [done|].
        intros item' [->|Hin]%elem_of_cons; [|by apply Hrest].
        intros Hname Hopen. by destruct Hitem.
      * intros [Hr Hall]. split; [done|].
        intros item' Hin. apply Hall. by right.
Qed.

Section Survivors.
Context (doctype : string) (Hartifact : doctype ∉ artifact_tables).

Lemma entry_filters (self : Job) (item : TransactionDeletionRecordItem) rows :
  doctype_name item = doctype → open_entry item →
  leads_to (untouched doctype rows)
    (untouched doctype
       (filter (λ r, ¬ col_is (docfield_name item) (company self) r) rows))
    (delete_company_transactions_entry self item).
Proof.
  intros Hname Hopen. unfold delete_company_transactions_entry.
  rewrite decide_True by exact Hopen.
  intros w a w' HJ Hrun. apply bind_ok in Hrun as (d & w1 & Hget & Hrun).
  unfold get_db in Hget. simplify_eq. case_decide as Hcount.
  - revert Hrun. generalize (reference_doc_names self (db w1) item). intros names Hrun.
    apply bind_ok in Hrun as ([] & w2 & Hrun2 & Hrun).
    apply (keeps_delete_version_log _ rows Hartifact) in Hrun2; [|exact HJ].
    apply bind_ok in Hrun as ([] & w3 & Hrun3 & Hrun).
    apply (keeps_delete_communications _ rows Hartifact) in Hrun3; [|exact Hrun2].
    apply bind_ok in Hrun as ([] & w4 & Hrun4 & Hrun).
    apply (keeps_delete_comments _ rows Hartifact) in Hrun4; [|exact Hrun3].
    apply bind_ok in Hrun as ([] & w5 & Hrun5 & Hrun).
    apply (keeps_unlink_attachments _ rows Hartifact) in Hrun5; [|exact Hrun4].
    apply bind_ok in Hrun as ([] & w6 & Hrun6 & Hrun).
    apply (keeps_delete_child_tables (doctype_name item) rows) in Hrun6; [|exact Hrun5].
    apply bind_ok in Hrun as ([] & w7 & Hrun7 & Hrun).
    unfold delete_docs_linked_with_specified_company, modify_db in Hrun7.
    simplify_eq.
    apply bind_ok in Hrun as ([] & w8 & Hrun8 & Hrun).
    apply (keeps_reset_naming_series _
             (filter (λ r, ¬ col_is (docfield_name item) (company self) r) rows)
             Hartifact) in Hrun8.
    + unfold chain_callback, enqueue in Hrun. by simplify_eq.
    + cbn. by apply untouched_db_delete_eq.
  - unfold set_value_done in Hrun. simplify_eq. cbn.
    rewrite filter_all; [done|].
    destruct HJ as [Hrows _]. rewrite <- Hrows.
    apply (db_count_zero (db w1) (doctype_name item)
             (col_is (docfield_name item) (company self))).
    unfold get_number_of_docs_linked_with_specified_company in Hcount. lia.
Qed.

Lemma loop_leaves_survivors (self : Job) inventory :
  ∀ rows,
    leads_to (untouched doctype rows)
      (untouched doctype (survivors self doctype inventory rows))
      (for_each inventory
         (λ docfield (_ : ()), delete_company_transactions_entry self docfield) ()).
Proof.
  induction inventory as [|item rest IH]; intros rows; cbn [for_each survivors].
  - intros w a w' HJ Hrun. unfold mret, M_ret in Hrun. by simplify_eq.
  - eapply leads_to_bind; [|intros []; apply IH].
    case_decide as Hitem.
    + apply entry_filters; apply Hitem.
    + destruct (decide (doctype_name item = doctype)) as [Hname|Hname].
      * unfold delete_company_transactions_entry.
        rewrite decide_False; [apply keeps_ret|].
        intros Hopen. apply Hitem. by split.
      * by apply keeps_entry.
Qed.
End Survivors.

(** X13: the transaction stage removes from a doctype's table the records
    of the company and no other.  For a doctype that is neither one of the
    artifact tables nor the child table of a Table field, a run with the
    flag unset leaves, in their order, exactly the rows that no open
    inventory entry for the doctype links to the company: records of other
    companies stay, and a doctype without an open entry keeps all its
    rows. *)
Theorem transaction_stage_keeps_other_records
    (self self' : Job) (w w' : World) (doctype : string) :
  delete_transactions self = false →
  doctype ∉ artifact_tables →
  (∀ r, r ∈ table (db w) "DocField" → col_is "fieldtype" "Table" r →
        ¬ col_is "options" doctype r) →
  delete_company_transactions self w = Ok (self', w') →
  table (db w') doctype = survivors self doctype (doctypes self) (table (db w) doctype) ∧
  ∀ r, r ∈ table (db w') doctype ↔
       r ∈ table (db w) doctype ∧
       ∀ item, item ∈ doctypes self → doctype_name item = doctype → open_entry item →
               ¬ col_is (docfield_name item) (company self) r.
Proof.
  intros Hflag Hartifact Hschema Hrun.
  assert (table (db w') doctype =
          survivors self doctype (doctypes self) (table (db w) doctype)) as Htable.
  { unfold delete_company_transactions in Hrun. rewrite Hflag in Hrun.
    cbn [negb] in Hrun. apply bind_ok in Hrun as ([] & w1 & Hloop & Hset).
    unfold db_set in Hset. simplify_eq. cbn.
    apply (loop_leaves_survivors doctype Hartifact self (doctypes self)
             (table (db w) doctype)) in Hloop; [apply Hloop|].
    by split. }
  split; [exact Htable|]. intros r. rewrite Htable. apply survivors_elem.
Qed.

Lemma transaction_stage_keeps_other_records_witness :
  ∃ self' w',
    delete_company_transactions large_job series_stage_world = Ok (self', w') ∧
    table (db w') "Sales Invoice" =
      survivors large_job "Sales Invoice" (doctypes large_job)
        (table (db series_stage_world) "Sales Invoice") ∧
    ∀ r, r ∈ table (db w') "Sales Invoice" ↔
         r ∈ table (db series_stage_world) "Sales Invoice" ∧
         ∀ item, item ∈ doctypes large_job →
                 doctype_name item = "Sales Invoice" → open_entry item →
                 ¬ col_is (docfield_name item) (company large_job) r.
Proof.
  eexists _, _. split; [vm_compute; reflexivity|].
  eapply (transaction_stage_keeps_other_records large_job _ series_stage_world).
  - reflexivity.
  - by_evaluation.
  - apply (proj1 (Forall_forall
                    (λ r, col_is "fieldtype" "Table" r → ¬ col_is "options" "Sales Invoice" r)
                    (table (db series_stage_world) "DocField"))).
    by_evaluation.
  - vm_compute. reflexivity.
Defined.

(** ** The cleaners of dependent records *)

Lemma create_batch_fuel_concat {A} (size : nat) :
  (0 < size)%nat →
  ∀ fuel (l : list A), (length l ≤ fuel)%nat →
    concat (create_batch_fuel fuel l size) = l.
Proof.
  intros Hsize. induction fuel as [|fuel IH]; intros l Hlen.
  - destruct l; [done|]. cbn in Hlen. lia.
  - destruct l as [|x l]; [done|]. cbn [create_batch_fuel concat].
    rewrite IH.
    + apply take_drop.
    + rewrite length_drop. cbn in Hlen |- *. lia.
Qed.

Lemma create_batch_concat {A} (l : list A) (size : nat) :
  (0 < size)%nat → concat (create_batch l size) = l.
Proof. intros Hsize. by apply create_batch_fuel_concat. Qed.

Lemma col_in_app c (l1 l2 : list string) (r : Row) :
  col_in c (l1 ++ l2) r ↔ col_in c l1 r ∨ col_in c l2 r.
Proof.
  unfold col_in. split.
  - intros (s & Hs & [Hin|Hin]%elem_of_app); [left|right]; eauto.
  - intros [(s & Hs & Hin)|(s & Hs & Hin)]; exists s; split; try done;
      apply elem_of_app; auto.
Qed.

Lemma filter_ext_in {A} (P Q : A → Prop) `{!∀ x, Decision (P x)} `{!∀ x, Decision (Q x)}
    (l : list A) :
  (∀ x, x ∈ l → P x ↔ Q x) → filter P l = filter Q l.
Proof.
  induction l as [|x l IH]; intros Hext; [done|].
  rewrite !filter_cons. rewrite IH by (intros y Hy; apply Hext; by right).
  destruct (decide (P x)) as [HP|HP], (decide (Q x)) as [HQ|HQ]; try done.
  - exfalso. apply HQ, (Hext x); [by left|done].
  - exfalso. apply HP, (Hext x); [by left|done].
Qed.

Lemma filter_twice {A} (P Q : A → Prop) `{!∀ x, Decision (P x)} `{!∀ x, Decision (Q x)}
    (l : list A) :
  filter Q (filter P l) = filter (λ x, P x ∧ Q x) l.
Proof.
  induction l as [|x l IH]; [done|]. rewrite !filter_cons.
  destruct (decide (P x)) as [HP|HP].
  - rewrite filter_cons. destruct (decide (Q x)) as [HQ|HQ].
    + rewrite decide_True by done. by rewrite IH.
    + rewrite decide_False by (by intros [_ ?]). exact IH.
  - rewrite decide_False by (by intros [? _]). exact IH.
Qed.

(** Deleting by name batch after batch is deleting by the names of all the
    batches. *)
Lemma delete_in_batches (t : string) (batches : list (list string)) :
  ∀ w, ∃ d',
    for_each batches (λ batch (_ : ()), delete_doc t batch) () w = Ok ((), set_db d' w) ∧
    table d' t = filter (λ r, ¬ col_in "name" (concat batches) r) (table (db w) t) ∧
    ∀ t', t' ≠ t → table d' t' = table (db w) t'.
Proof.
  induction batches as [|batch batches IH]; intros w; cbn [for_each concat].
  - exists (db w). split; [by destruct w|]. split; [|done].
    rewrite filter_all; [done|]. intros r _. apply not_col_in_nil.
  - unfold mbind, M_bind, delete_doc at 1, modify_db.
    destruct (IH (set_db (db_delete t (col_in "name" batch) (db w)) w))
      as (d' & Hrun & Htable & Hframe).
    exists d'. split; [exact Hrun|]. cbn [db set_db] in Htable, Hframe. split.
    + rewrite Htable, table_db_delete_eq, filter_twice.
      apply filter_ext_in. intros r _. rewrite col_in_app. tauto.
    + intros t' Ht'. rewrite (Hframe t' Ht'). by rewrite table_db_delete_ne.
Qed.

Lemma delete_named_run (t ref_doctype ref_name doctype : string) (names : list string)
    (w : World) :
  let found := referring (db w) t ref_doctype ref_name doctype names in
  ∃ d',
    match found with
    | [] => mret ()
    | _ => for_each (create_batch found batch_size)
             (λ batch (_ : ()), delete_doc t batch) ()
    end w = Ok ((), set_db d' w) ∧
    table d' t = filter (λ r, ¬ col_in "name" found r) (table (db w) t) ∧
    ∀ t', t' ≠ t → table d' t' = table (db w) t'.
Proof.
  intros found. destruct found as [|name found'] eqn:Hfound.
  - exists (db w). split; [by destruct w|]. split; [|done].
    rewrite filter_all; [done|]. intros r _. apply not_col_in_nil.
  - rewrite <- Hfound.
    destruct (delete_in_batches t (create_batch found batch_size) w)
      as (d' & Hrun & Htable & Hframe).
    exists d'. split; [exact Hrun|]. split; [|exact Hframe].
    rewrite Htable, create_batch_concat; [done|]. unfold batch_size. lia.
Qed.


Lemma col_insert_ne (r : Row) (c c' : string) (v : value) :
  c ≠ c' → col (<[c := v]> r) c' = col r c'.
Proof. intros Hne. unfold col. by rewrite lookup_insert_ne. Qed.

Lemma col_in_insert_ne (r : Row) (c c' : string) (v : value) (l : list string) :
  c ≠ c' → col_in c' l (<[c := v]> r) ↔ col_in c' l r.
Proof. intros Hne. unfold col_in. by rewrite col_insert_ne. Qed.

Lemma detached_twice (r : Row) : detached (detached r) = detached r.
Proof.
  apply map_eq. intros k. unfold detached.
  destruct (decide (k = "attached_to_name")) as [Hn|Hn];
    destruct (decide (k = "attached_to_doctype")) as [Hd|Hd];
    subst; by simplify_map_eq.
Qed.

Lemma col_in_detached (r : Row) (l : list string) :
  col_in "name" l (detached r) ↔ col_in "name" l r.
Proof. unfold detached. by rewrite !col_in_insert_ne. Qed.

Lemma detach_in_batches (batches : list (list string)) :
  ∀ w, ∃ d',
    for_each batches
      (λ batch (_ : ()),
         _ ← modify_db (db_update "File" (col_in "name" batch) "attached_to_doctype" VNull);
         modify_db (db_update "File" (col_in "name" batch) "attached_to_name" VNull))
      () w = Ok ((), set_db d' w) ∧
    table d' "File" =
      (λ r, if decide (col_in "name" (concat batches) r) then detached r else r)
        <$> table (db w) "File" ∧
    ∀ t, t ≠ "File" → table d' t = table (db w) t.
Proof.
  induction batches as [|batch batches IH]; intros w; cbn [for_each concat].
  - exists (db w). split; [by destruct w|]. split; [|done].
    rewrite <- (list_fmap_id (table (db w) "File")) at 1.
    apply list_fmap_ext. intros i r _.
    rewrite decide_False; [done|apply not_col_in_nil].
  - unfold mbind, M_bind, modify_db.
    match goal with
    | |- ∃ d', for_each _ _ _ ?w1 = _ ∧ _ => destruct (IH w1) as (d' & Hrun & Htable & Hframe)
    end.
    exists d'. split; [exact Hrun|]. cbn [db set_db] in Htable, Hframe. split.
    + rewrite Htable, !table_db_update_eq, <- !list_fmap_compose.
      apply list_fmap_ext. intros i r _. cbn [compose].
      destruct (decide (col_in "name" batch r)) as [Hin|Hout].
      * rewrite (decide_True (P := col_in "name" batch (<["attached_to_doctype" := VNull]> r)))
          by (by apply col_in_insert_ne).
        fold (detached r).
        rewrite (decide_True (P := col_in "name" (batch ++ concat batches) r))
          by (apply col_in_app; by left).
        case_decide; [apply detached_twice|done].
      * rewrite (decide_False (P := col_in "name" batch r)) by done.
        destruct (decide (col_in "name" (concat batches) r)) as [Hin'|Hout'].
        -- rewrite decide_True; [done|]. apply col_in_app. by right.
        -- rewrite decide_False; [done|]. rewrite col_in_app. tauto.
    + intros t Ht. rewrite (Hframe t Ht). by rewrite !table_db_update_ne.
Qed.

(** X15: [unlink_attachments] always returns, deletes no File row and
    writes no other table.  Whatever the number of batches, it sets
    [attached_to_doctype] and [attached_to_name] to null on the File rows
    named like a row attached to [doctype] and to one of [names], and leaves
    the other rows and every other column as they are; no named File row is
    attached to the documents afterwards. *)
Theorem attachments_are_unlinked_not_deleted
    (doctype : string) (names : list string) (w : World) :
  let found := referring (db w) "File" "attached_to_doctype" "attached_to_name"
                 doctype names in
  ∃ d',
    unlink_attachments doctype names w = Ok ((), set_db d' w) ∧
    table d' "File" =
      (λ r, if decide (col_in "name" found r) then detached r else r)
        <$> table (db w) "File" ∧
    length (table d' "File") = length (table (db w) "File") ∧
    (∀ t, t ≠ "File" → table d' t = table (db w) t) ∧
    (∀ r c, c ≠ "attached_to_doctype" → c ≠ "attached_to_name" →
            col (detached r) c = col r c) ∧
    (∀ r s, r ∈ table d' "File" → col r "name" = VStr s →
            ¬ (col_is "attached_to_doctype" doctype r ∧
               col_in "attached_to_name" names r)).
Proof.
  intros found.
  assert (∃ d',
            unlink_attachments doctype names w = Ok ((), set_db d' w) ∧
            table d' "File" =
              (λ r, if decide (col_in "name" found r) then detached r else r)
                <$> table (db w) "File" ∧
            ∀ t, t ≠ "File" → table d' t = table (db w) t)
    as (d' & Hrun & Htable & Hframe).
  { unfold unlink_attachments, mbind at 1, M_bind at 1, get_db.
    fold (referring (db w) "File" "attached_to_doctype" "attached_to_name" doctype names).
    fold found. destruct found as [|name found'] eqn:Hfound.
    - exists (db w). split; [by destruct w|]. split; [|done].
      rewrite <- (list_fmap_id (table (db w) "File")) at 1.
      apply list_fmap_ext. intros i r _.
      rewrite decide_False; [done|apply not_col_in_nil].
    - rewrite <- Hfound.
      destruct (detach_in_batches (create_batch found batch_size) w)
        as (d' & Hrun & Htable & Hframe).
      exists d'. split; [exact Hrun|]. split; [|exact Hframe].
      rewrite Htable, create_batch_concat; [done|]. unfold batch_size. lia. }
  exists d'. split; [exact Hrun|]. split; [exact Htable|].
  split; [by rewrite Htable, length_fmap|]. split; [exact Hframe|]. split.
  { intros r c Hd Hn. unfold detached. by rewrite !col_insert_ne. }
  intros r s Hr Hname [Hdoctype Hnames]. rewrite Htable in Hr.
  apply list_elem_of_fmap in Hr as (r0 & -> & Hr0).
  destruct (decide (col_in "name" found r0)) as [Hin|Hout].
  - unfold col_is, detached in Hdoctype.
    rewrite col_insert_ne in Hdoctype by done.
    unfold col in Hdoctype. by rewrite lookup_insert_eq in Hdoctype.
  - apply Hout. exists s. split; [done|]. subst found. unfold referring.
    eapply pluck_elem; [|exact Hname]. unfold get_all.
    by apply list_elem_of_filter.
Qed.

Lemma delete_from_tables (Q : Row → Prop) `{!∀ r, Decision (Q r)} (tables : list string) :
  ∀ w, ∃ d',
    for_each tables (λ table (_ : ()), modify_db (db_delete table Q)) () w =
      Ok ((), set_db d' w) ∧
    ∀ t, table d' t =
         if decide (t ∈ tables) then filter (λ r, ¬ Q r) (table (db w) t)
         else table (db w) t.
Proof.
  induction tables as [|child tables IH]; intros w; cbn [for_each].
  - exists (db w). split; [by destruct w|]. intros t.
    rewrite decide_False; [done|]. apply not_elem_of_nil.
  - unfold mbind, M_bind, modify_db.
    destruct (IH (set_db (db_delete child Q (db w)) w)) as (d' & Hrun & Htables).
    exists d'. split; [exact Hrun|]. intros t. rewrite (Htables t). cbn [db set_db].
    rewrite table_db_delete.
    destruct (decide (child = t)) as [->|Hne].
    + rewrite (decide_True (P := t ∈ t :: tables)) by (by left).
      case_decide; [|done]. rewrite filter_twice.
      apply filter_ext_in. intros r _. tauto.
    + destruct (decide (t ∈ tables)) as [Hin|Hout].
      * rewrite decide_True; [done|by right].
      * rewrite decide_False; [done|].
        intros [->|Hin]%elem_of_cons; [by apply Hne|by apply Hout].
Qed.

(** X16: [delete_child_tables] always returns.  In every table named by
    the [options] of a Table field of [doctype] it removes the rows whose
    [parent] is one of [names], whatever their [parenttype], and keeps the
    other rows in their order; every other table is left as it is. *)
Theorem child_rows_deleted_by_parent_name
    (doctype : string) (names : list string) (w : World) :
  let child_tables :=
    pluck "options"
      (get_all (db w) "DocField"
         (λ r, col_is "fieldtype" "Table" r ∧ col_is "parent" doctype r) None) in
  ∃ d',
    delete_child_tables doctype names w = Ok ((), set_db d' w) ∧
    (∀ t, t ∈ child_tables →
          table d' t = filter (λ r, ¬ col_in "parent" names r) (table (db w) t)) ∧
    (∀ t, t ∉ child_tables → table d' t = table (db w) t) ∧
    (∀ t r, t ∈ child_tables → r ∈ table d' t → ¬ col_in "parent" names r).
Proof.
  intros child_tables.
  destruct (delete_from_tables (col_in "parent" names) child_tables w)
    as (d' & Hrun & Htables).
  exists d'. split; [exact Hrun|]. split; [|split].
  - intros t Ht. by rewrite (Htables t), decide_True.
  - intros t Ht. by rewrite (Htables t), decide_False.
  - intros t r Ht. rewrite (Htables t), decide_True by done.
    by intros [Hr _]%list_elem_of_filter.
Qed.

(** ** The separator of a naming series *)

Lemma rsplit1_none (sep : ascii) (s : string) :
  Str.contains sep s = false → Str.rsplit1 sep s = None.
Proof.
  induction s as [|c s IH]; [done|]. cbn.
  destruct (Ascii.eqb c sep); [done|]. intros Hs. by rewrite IH.
Qed.

Lemma rsplit1_some (sep : ascii) (s : string) :
  Str.contains sep s = true →
  ∃ before after,
    Str.rsplit1 sep s = Some (before, after) ∧
    s = before +:+ String sep after ∧
    Str.contains sep after = false.
Proof.
  induction s as [|c s IH]; [done|]. cbn.
  destruct (Str.contains sep s) eqn:Hs.
  - intros _. destruct (IH eq_refl) as (before & after & -> & -> & Hafter).
    exists (String c before), after. by repeat split.
  - rewrite (rsplit1_none _ _ Hs).
    destruct (Ascii.eqb c sep) eqn:Hc; [|done]. intros _.
    apply Ascii.eqb_eq in Hc as ->. exists EmptyString, s. by repeat split.
Qed.

(** X17: [update_naming_series] splits the pattern at its last dot, or at
    its last opening brace when it has no dot.  A pattern with neither
    raises [ValueError]; so does [reset_naming_series] for a doctype whose
    [autoname] has a counter placeholder and no such separator.  Otherwise
    the call returns, and all it writes is the [current] column of the
    Series rows named by the text before that last separator. *)
Theorem naming_series_needs_a_separator
    (naming_series doctype : string) (w : World) :
  let sep := if Str.contains "." naming_series then "."%char else "{"%char in
  (Str.contains sep naming_series = false →
   update_naming_series naming_series doctype w = Raise ValueError ∧
   (db_get_value (db w) "DocType" doctype "autoname" = VStr naming_series →
    Str.contains "#" naming_series = true →
    reset_naming_series doctype w = Raise ValueError)) ∧
  (Str.contains sep naming_series = true →
   ∃ prefix hashes last,
     naming_series = prefix +:+ String sep hashes ∧
     Str.contains sep hashes = false ∧
     update_naming_series naming_series doctype w =
       Ok ((), set_db (db_update "Series" (col_is "name" prefix) "current"
                         (VInt last) (db w)) w)).
Proof.
  intros sep. split.
  - intros Hnone.
    assert (update_naming_series naming_series doctype w = Raise ValueError) as Hraise.
    { unfold update_naming_series, mbind, M_bind. subst sep.
      destruct (Str.contains "." naming_series) eqn:Hdot; [congruence|].
      by rewrite (rsplit1_none _ _ Hnone). }
    split; [exact Hraise|]. intros Hautoname Hcounter.
    unfold reset_naming_series, mbind, M_bind, get_db. rewrite Hautoname.
    destruct naming_series as [|c rest]; [done|]. by rewrite Hcounter.
  - intros Hsome.
    destruct (rsplit1_some _ _ Hsome) as (prefix & hashes & Hsplit & Htext & Hhashes).
    exists prefix, hashes. eexists. split; [exact Htext|]. split; [exact Hhashes|].
    unfold update_naming_series, mbind, M_bind. subst sep.
    destruct (Str.contains "." naming_series) eqn:Hdot; rewrite Hsplit; reflexivity.
Qed.

Lemma naming_series_needs_a_separator_witness :
  reset_naming_series "Sales Invoice"
    (world_of
       (database
          [("DocType", [row [("name", VStr "Sales Invoice");
                             ("autoname", VStr "SINV-#####")]])])
       purge_job) = Raise ValueError.
Proof.
  apply (naming_series_needs_a_separator "SINV-#####" "Sales Invoice"); reflexivity.
Defined.

(** ** The stored job under the worker *)

Lemma keeps_job_ret {A} (a : A) : keeps_job (mret a).
Proof. intros w a' w' Hrun. unfold mret, M_ret in Hrun. by simplify_eq. Qed.

Lemma keeps_job_raise {A} (e : exn) : keeps_job (raise (A:=A) e).
Proof. intros w a' w' Hrun. discriminate. Qed.

Lemma keeps_job_bind {A B} (m : M A) (k : A → M B) :
  keeps_job m → (∀ a, keeps_job (k a)) → keeps_job (m ≫= k).
Proof.
  intros Hm Hk w b w' Hrun. apply bind_ok in Hrun as (a & w1 & Hrun1 & Hrun2).
  destruct (Hm _ _ _ Hrun1) as [Hs1 Hq1]. destruct (Hk _ _ _ _ Hrun2) as [Hs2 Hq2].
  split; congruence.
Qed.

Lemma keeps_job_get_db {B} (k : DB → M B) :
  (∀ d, keeps_job (k d)) → keeps_job (get_db ≫= k).
Proof.
  intros Hk. apply keeps_job_bind; [|exact Hk].
  intros w a w' Hrun. unfold get_db in Hrun. by simplify_eq.
Qed.

Lemma keeps_job_modify_db (f : DB → DB) : keeps_job (modify_db f).
Proof. intros w a w' Hrun. unfold modify_db in Hrun. by simplify_eq. Qed.

Lemma keeps_job_for_each {A S} (l : list A) (body : A → S → M S) :
  (∀ x s, keeps_job (body x s)) → ∀ s, keeps_job (for_each l body s).
Proof.
  intros Hbody. induction l as [|x l IH]; intros s; cbn [for_each].
  - apply keeps_job_ret.
  - apply keeps_job_bind; [apply Hbody|exact IH].
Qed.

Lemma keeps_job_delete_communications doctype names :
  keeps_job (delete_communications doctype names).
Proof.
  unfold delete_communications. apply keeps_job_get_db. intros d.
  destruct (pluck _ _); [apply keeps_job_ret|].
  apply keeps_job_for_each. intros batch []. apply keeps_job_modify_db.
Qed.

Lemma keeps_job_delete_comments doctype names :
  keeps_job (delete_comments doctype names).
Proof.
  unfold delete_comments. apply keeps_job_get_db. intros d.
  destruct (pluck _ _); [apply keeps_job_ret|].
  apply keeps_job_for_each. intros batch []. apply keeps_job_modify_db.
Qed.

Lemma keeps_job_unlink_attachments doctype names :
  keeps_job (unlink_attachments doctype names).
Proof.
  unfold unlink_attachments. apply keeps_job_get_db. intros d.
  destruct (pluck _ _); [apply keeps_job_ret|].
  apply keeps_job_for_each. intros batch [].
  apply keeps_job_bind; [|intros _]; apply keeps_job_modify_db.
Qed.

Lemma keeps_job_delete_child_tables doctype names :
  keeps_job (delete_child_tables doctype names).
Proof.
  unfold delete_child_tables. apply keeps_job_get_db. intros d.
  apply keeps_job_for_each. intros child []. apply keeps_job_modify_db.
Qed.

Lemma keeps_job_reset_naming_series doctype : keeps_job (reset_naming_series doctype).
Proof.
  unfold reset_naming_series. apply keeps_job_get_db. intros d.
  destruct (db_get_value _ _ _ _) as [|[|c rest]|]; try apply keeps_job_ret.
  destruct (Str.contains _ _); [|apply keeps_job_ret].
  unfold update_naming_series. apply keeps_job_bind.
  - destruct (Str.contains _ _); destruct (Str.rsplit1 _ _);
      (apply keeps_job_ret || apply keeps_job_raise).
  - intros split. apply keeps_job_get_db. intros d'. apply keeps_job_modify_db.
Qed.

(** *** Moving forward *)

Lemma marked_refl item : marked item item.
Proof. by left. Qed.

Lemma marked_trans (l1 l2 l3 : list TransactionDeletionRecordItem) :
  Forall2 marked l1 l2 → Forall2 marked l2 l3 → Forall2 marked l1 l3.
Proof.
  intros H12. revert l3.
  induction H12 as [|x y l1 l2 Hxy _ IH]; intros l3 H23;
    inversion H23 as [|y' z l2' l3' Hyz H23']; subst; constructor; [|by apply IH].
  destruct Hxy as [->| ->], Hyz as [->| ->]; [by left|by right|by right|by right].
Qed.

Lemma advances_refl (j : Job) : advances j j.
Proof.
  repeat split; try done. exists (doctypes j), []. split; [by rewrite app_nil_r|].
  apply Forall2_same_length_lookup. split; [done|].
  intros i x y Hx Hy. simplify_eq. apply marked_refl.
Qed.

Lemma advances_trans (j1 j2 j3 : Job) : advances j1 j2 → advances j2 j3 → advances j1 j3.
Proof.
  intros (Hn1 & Hc1 & Hs1 & Hi1 & Hf1 & k1 & a1 & Hd1 & Hm1)
         (Hn2 & Hc2 & Hs2 & Hi2 & Hf2 & k2 & a2 & Hd2 & Hm2).
  split; [congruence|]. split; [congruence|]. split; [congruence|].
  split; [congruence|]. split; [by intros st Hst; apply Hf2, Hf1|].
  rewrite Hd1 in Hm2. apply Forall2_app_inv_l in Hm2 as (k2a & k2b & Hka & Hkb & ->).
  exists k2a, (k2b ++ a2)%list. split; [by rewrite Hd2, app_assoc|].
  by eapply marked_trans.
Qed.

Lemma advances_stored_ret {A} (a : A) : advances_stored (mret a).
Proof.
  intros w a' w' Hrun. unfold mret, M_ret in Hrun. simplify_eq. apply advances_refl.
Qed.

Lemma advances_stored_bind {A B} (m : M A) (k : A → M B) :
  advances_stored m → (∀ a, advances_stored (k a)) → advances_stored (m ≫= k).
Proof.
  intros Hm Hk w b w' Hrun. apply bind_ok in Hrun as (a & w1 & Hrun1 & Hrun2).
  eapply advances_trans; [by eapply Hm|by eapply Hk].
Qed.

Lemma advances_stored_keeps_job {A} (m : M A) : keeps_job m → advances_stored m.
Proof.
  intros Hm w a w' Hrun. destruct (Hm _ _ _ Hrun) as [-> _]. apply advances_refl.
Qed.

Lemma advances_stored_for_each {A S} (l : list A) (body : A → S → M S) :
  (∀ x s, advances_stored (body x s)) → ∀ s, advances_stored (for_each l body s).
Proof.
  intros Hbody. induction l as [|x l IH]; intros s; cbn [for_each].
  - apply advances_stored_ret.
  - apply advances_stored_bind; [apply Hbody|exact IH].
Qed.

Lemma advances_flag (assign : Job → Job) (j : Job) :
  name (assign j) = name j → company (assign j) = company j →
  status (assign j) = status j →
  doctypes_to_be_ignored (assign j) = doctypes_to_be_ignored j →
  doctypes (assign j) = doctypes j →
  (∀ st, step_flag st j = true → step_flag st (assign j) = true) →
  advances j (assign j).
Proof.
  intros Hn Hc Hs Hi Hd Hf.
  destruct (advances_refl j) as (_ & _ & _ & _ & _ & kept & added & Heq & Hkept).
  do 5 (split; [done|]). exists kept, added. split; [congruence|done].
Qed.

Lemma advances_stored_db_set (assign : Job → Job) (self : Job) :
  (∀ j, advances j (assign j)) → advances_stored (db_set assign self).
Proof.
  intros Hassign w a w' Hrun. unfold db_set in Hrun. simplify_eq. cbn. apply Hassign.
Qed.

Lemma advances_set_flag (st : Step) (j : Job) :
  advances j
    (match st with
     | Checkpointed BinsCleared => set_delete_bin_data true
     | Checkpointed AddressesCleared => set_delete_leads_and_addresses true
     | Checkpointed CompanyValuesReset => set_reset_company_default_values true
     | Checkpointed NotificationsCleared => set_clear_notifications true
     | Checkpointed InventoryInitialized => set_initialize_doctypes_table true
     | TransactionsDeleted => set_delete_transactions true
     end j).
Proof.
  destruct st as [[| | | |]|]; apply advances_flag; try done;
    by intros [[| | | |]|].
Qed.

Lemma advances_mark (item : TransactionDeletionRecordItem) (j : Job) :
  advances j
    (set_doctypes
       ((λ i, if decide (idx i = idx item) then set_done true i else i) <$> doctypes j) j).
Proof.
  repeat split; try done.
  - by intros [[| | | |]|].
  - eexists _, []. split; [by rewrite app_nil_r|]. cbn.
    apply Forall2_fmap_r, Forall2_same_length_lookup. split; [done|].
    intros i x y Hx Hy. simplify_eq. unfold marked.
    cbn [compose]. destruct (decide (idx x = idx item)); [by right|by left].
Qed.

Lemma keeps_job_chain_callback_stored self method :
  advances_stored (chain_callback self method).
Proof.
  intros w a w' Hrun. unfold chain_callback, enqueue in Hrun. simplify_eq.
  apply advances_refl.
Qed.

Lemma advances_stored_entry self item :
  advances_stored (delete_company_transactions_entry self item).
Proof.
  unfold delete_company_transactions_entry. case_decide; [|apply advances_stored_ret].
  apply advances_stored_bind.
  { apply advances_stored_keeps_job. intros w a w' Hrun.
    unfold get_db in Hrun. by simplify_eq. }
  intros d. case_decide.
  - apply advances_stored_bind;
      [apply advances_stored_keeps_job, keeps_job_modify_db|intros _].
    apply advances_stored_bind;
      [apply advances_stored_keeps_job, keeps_job_delete_communications|intros _].
    apply advances_stored_bind;
      [apply advances_stored_keeps_job, keeps_job_delete_comments|intros _].
    apply advances_stored_bind;
      [apply advances_stored_keeps_job, keeps_job_unlink_attachments|intros _].
    apply advances_stored_bind;
      [apply advances_stored_keeps_job, keeps_job_delete_child_tables|intros _].
    apply advances_stored_bind;
      [apply advances_stored_keeps_job, keeps_job_modify_db|intros _].
    apply advances_stored_bind;
      [apply advances_stored_keeps_job, keeps_job_reset_naming_series|intros _].
    apply keeps_job_chain_callback_stored.
  - intros w a w' Hrun. unfold set_value_done in Hrun. simplify_eq. cbn.
    apply advances_mark.
Qed.

Lemma advances_stored_transactions self :
  advances_stored (delete_company_transactions self).
Proof.
  unfold delete_company_transactions. destruct (negb _); [|apply advances_stored_ret].
  apply advances_stored_bind.
  - apply advances_stored_for_each. intros item []. apply advances_stored_entry.
  - intros _. apply advances_stored_db_set. intros j.
    apply (advances_set_flag TransactionsDeleted).
Qed.

(** The call that [chain_callback] queues. *)
Lemma chain_callback_run (self : Job) (method : string) (w : World) :
  ∃ call,
    chain_callback self method w = Ok ((), set_queue (queue w ++ [call]) w) ∧
    q_doc_method call = method.
Proof. eexists. split; reflexivity. Qed.

(** A guarded stage queues one call and, run on the stored job, hands back
    the job as it is stored afterwards. *)
Lemma guarded_sync (flag : bool) (self : Job) (effect : M Job) (method : string)
    (w w' : World) (self' : Job) :
  (∀ w0 a w1, effect w0 = Ok (a, w1) →
              queue w1 = queue w0 ∧ (stored w0 = self → stored w1 = a)) →
  (self ← (if negb flag then effect else mret self);
   _ ← chain_callback self method; mret self) w = Ok (self', w') →
  (∃ call, queue w' = (queue w ++ [call])%list ∧ q_doc_method call = method) ∧
  (stored w = self → stored w' = self').
Proof.
  intros Heffect Hrun. apply bind_ok in Hrun as (self1 & w1 & Hrun1 & Hrun).
  apply bind_ok in Hrun as ([] & w2 & Hchain & Hret).
  unfold mret, M_ret in Hret. simplify_eq.
  destruct (chain_callback_run self' method w1) as (call & Hcall & Hmethod).
  rewrite Hcall in Hchain. simplify_eq. cbn.
  destruct flag; cbn [negb] in Hrun1.
  - unfold mret, M_ret in Hrun1. simplify_eq. split; [|done]. by exists call.
  - destruct (Heffect _ _ _ Hrun1) as [Hq Hs]. rewrite Hq. split; [|done].
    by exists call.
Qed.

Lemma effect_sync (prelude : M ()) (assign : Job → Job) (self : Job) :
  keeps_job prelude →
  ∀ w0 a w1, (_ ← prelude; db_set assign self) w0 = Ok (a, w1) →
             queue w1 = queue w0 ∧ (stored w0 = self → stored w1 = a).
Proof.
  intros Hpre w0 a w1 Hrun. apply bind_ok in Hrun as ([] & w2 & Hrun1 & Hset).
  destruct (Hpre _ _ _ Hrun1) as [Hs Hq]. unfold db_set in Hset. simplify_eq. cbn.
  split; [done|]. intros <-. by rewrite Hs.
Qed.

Lemma stage_sync (s : Stage) (self self' : Job) (w w' : World) :
  stage_method s self w = Ok (self', w') →
  (∃ call, queue w' = (queue w ++ [call])%list ∧
           doc_method (q_doc_method call) = Some (next_method s)) ∧
  (stored w = self → stored w' = self').
Proof.
  intros Hrun. destruct s; cbn [stage_method] in Hrun.
  - apply guarded_sync in Hrun as [(call & Hq & Hm) Hs].
    + split; [|exact Hs]. exists call. by rewrite Hm.
    + apply effect_sync, keeps_job_modify_db.
  - apply guarded_sync in Hrun as [(call & Hq & Hm) Hs].
    + split; [|exact Hs]. exists call. by rewrite Hm.
    + intros w0 a w1 Hrun0. apply bind_ok in Hrun0 as (d & w2 & Hget & Hrun0).
      unfold get_db in Hget. simplify_eq. revert Hrun0. apply effect_sync.
      destruct (pluck "name" _); [apply keeps_job_ret|].
      apply keeps_job_bind; [|intros _; apply keeps_job_modify_db].
      destruct (pluck "parent" _); [apply keeps_job_ret|].
      apply keeps_job_bind; [|intros _]; apply keeps_job_modify_db.
  - apply guarded_sync in Hrun as [(call & Hq & Hm) Hs].
    + split; [|exact Hs]. exists call. by rewrite Hm.
    + intros w0 a w1 Hrun0. apply bind_ok in Hrun0 as (d & w2 & Hget & Hrun0).
      unfold get_db in Hget. simplify_eq. revert Hrun0. apply effect_sync.
      destruct (filter _ _); [apply keeps_job_raise|].
      apply keeps_job_bind; [|intros _]; apply keeps_job_modify_db.
  - apply guarded_sync in Hrun as [(call & Hq & Hm) Hs].
    + split; [|exact Hs]. exists call. by rewrite Hm.
    + apply effect_sync. intros w0 a w1 Hrun0.
      unfold frappe_clear_notifications in Hrun0. by simplify_eq.
  - apply guarded_sync in Hrun as [(call & Hq & Hm) Hs].
    + split; [|exact Hs]. exists call. by rewrite Hm.
    + intros w0 a w1 Hrun0. apply bind_ok in Hrun0 as (d & w2 & Hget & Hrun0).
      unfold get_db in Hget. simplify_eq.
      apply bind_ok in Hrun0 as (self1 & w3 & Hloop & Hset).
      destruct (scan_loop (get_all_child_doctypes (db w2))
                  (get_doctypes_with_company_field (db w2)
                     (get_doctypes_to_be_ignored_list self (db w2))) self w2)
        as (w4 & Hloop' & _ & Hq & _ & Hs).
      rewrite Hloop' in Hloop. unfold db_set in Hset. simplify_eq. cbn.
      split; [done|]. intros Hsync. by rewrite (Hs Hsync).
Qed.

Lemma step_advances (st : Step) (self self' : Job) (w w' : World) :
  step_method st self w = Ok (self', w') → advances self self'.
Proof.
  intros Hrun.
  apply step_result in Hrun as (Hflag & Hothers & Hn & Hc & Hs & Hi & added & Hd & _).
  do 4 (split; [done|]). split.
  - intros st' Hst'. destruct (decide (st' = st)) as [->|Hne]; [done|].
    by rewrite (Hothers st' Hne).
  - exists (doctypes self), added. split; [done|].
    apply Forall2_same_length_lookup. split; [done|].
    intros i x y Hx Hy. simplify_eq. apply marked_refl.
Qed.

Lemma start_deletion_process_advances (self self' : Job) (w w' : World) :
  start_deletion_process self w = Ok (self', w') → stored w = self →
  advances (stored w) (stored w').
Proof.
  intros Hrun Hsync. unfold start_deletion_process in Hrun.
  apply bind_ok in Hrun as (self1 & w1 & Hrun1 & Hrun).
  apply bind_ok in Hrun as (self2 & w2 & Hrun2 & Hrun).
  apply bind_ok in Hrun as (self3 & w3 & Hrun3 & Hrun).
  apply bind_ok in Hrun as (self4 & w4 & Hrun4 & Hrun).
  apply bind_ok in Hrun as (self5 & w5 & Hrun5 & Hrun6).
  pose proof (proj2 (stage_sync BinsCleared _ _ _ _ Hrun1) Hsync) as Hs1.
  pose proof (proj2 (stage_sync AddressesCleared _ _ _ _ Hrun2) Hs1) as Hs2.
  pose proof (proj2 (stage_sync CompanyValuesReset _ _ _ _ Hrun3) Hs2) as Hs3.
  pose proof (proj2 (stage_sync NotificationsCleared _ _ _ _ Hrun4) Hs3) as Hs4.
  pose proof (proj2 (stage_sync InventoryInitialized _ _ _ _ Hrun5) Hs4) as Hs5.
  apply (step_advances (Checkpointed BinsCleared)) in Hrun1.
  apply (step_advances (Checkpointed AddressesCleared)) in Hrun2.
  apply (step_advances (Checkpointed CompanyValuesReset)) in Hrun3.
  apply (step_advances (Checkpointed NotificationsCleared)) in Hrun4.
  apply (step_advances (Checkpointed InventoryInitialized)) in Hrun5.
  apply advances_stored_transactions in Hrun6.
  rewrite Hsync, <- Hs5 in *.
  repeat (eapply advances_trans; [eassumption|]). apply advances_refl.
Qed.

(** X18: a call run by the worker only moves the stored job forward.  When
    it returns, the stored name, company, status and excluded-doctypes table
    are as before, no checkpoint flag that was set is unset, and the stored
    inventory has its former rows in their places, changed at most by being
    marked done, with any new rows after them. *)
Theorem worker_call_advances_stored_job (method : string) (w w' : World) :
  run_doc_method method w = Ok ((), w') →
  name (stored w') = name (stored w) ∧
  company (stored w') = company (stored w) ∧
  status (stored w') = status (stored w) ∧
  doctypes_to_be_ignored (stored w') = doctypes_to_be_ignored (stored w) ∧
  (∀ st, step_flag st (stored w) = true → step_flag st (stored w') = true) ∧
  ∃ kept added,
    doctypes (stored w') = (kept ++ added)%list ∧
    Forall2 marked (doctypes (stored w)) kept.
Proof.
  intros Hrun. change (advances (stored w) (stored w')).
  unfold run_doc_method in Hrun.
  destruct (doc_method method) as [m|] eqn:Hm; [|discriminate].
  destruct (m (stored w) w) as [[self' w1]|e] eqn:Hmw; [|discriminate].
  simplify_eq. revert Hm Hmw. unfold doc_method.
  repeat case_decide; intros; simplify_eq.
  - rewrite (proj2 (stage_sync BinsCleared _ _ _ _ Hmw) eq_refl).
    by apply (step_advances (Checkpointed BinsCleared)) in Hmw.
  - rewrite (proj2 (stage_sync AddressesCleared _ _ _ _ Hmw) eq_refl).
    by apply (step_advances (Checkpointed AddressesCleared)) in Hmw.
  - rewrite (proj2 (stage_sync CompanyValuesReset _ _ _ _ Hmw) eq_refl).
    by apply (step_advances (Checkpointed CompanyValuesReset)) in Hmw.
  - rewrite (proj2 (stage_sync NotificationsCleared _ _ _ _ Hmw) eq_refl).
    by apply (step_advances (Checkpointed NotificationsCleared)) in Hmw.
  - rewrite (proj2 (stage_sync InventoryInitialized _ _ _ _ Hmw) eq_refl).
    by apply (step_advances (Checkpointed InventoryInitialized)) in Hmw.
  - by apply advances_stored_transactions in Hmw.
  - by apply start_deletion_process_advances in Hmw.
Qed.

Lemma worker_call_advances_stored_job_witness :
  ∃ w',
    run_doc_method "delete_company_transactions" scenario_world = Ok ((), w') ∧
    name (stored w') = "TDR-0001" ∧
    company (stored w') = "C1" ∧
    status (stored w') = "Queued" ∧
    doctypes_to_be_ignored (stored w') = [] ∧
    (∀ st, step_flag st (stored scenario_world) = true →
           step_flag st (stored w') = true) ∧
    ∃ kept added,
      doctypes (stored w') = (kept ++ added)%list ∧
      Forall2 marked (doctypes (stored scenario_world)) kept.
Proof.
  eexists. split; [vm_compute; reflexivity|].
  apply (worker_call_advances_stored_job "delete_company_transactions" scenario_world).
  vm_compute. reflexivity.
Defined.

(** X19: a chained stage run on the stored job, with nothing else queued,
    leaves one call in the queue, and the worker's next run is the
    successor stage on the very document the stage handed back: going
    through the queue does what [start_deletion_process] does by calling the
    stages one after the other. *)
Theorem chained_call_runs_successor (s : Stage) (self self' : Job) (w w' : World) :
  stage_method s self w = Ok (self', w') →
  stored w = self →
  queue w = [] →
  run_next w' =
    match next_method s self' (set_queue [] w') with
    | Ok (_, w'') => Ok ((), w'')
    | Raise e => Raise e
    end.
Proof.
  intros Hrun Hsync Hqueue.
  destruct (stage_sync s _ _ _ _ Hrun) as [(call & Hq & Hm) Hs].
  rewrite Hqueue in Hq. unfold run_next. rewrite Hq. cbn [app].
  unfold run_doc_method. rewrite Hm. cbn [stored set_queue]. by rewrite (Hs Hsync).
Qed.

Lemma chained_call_runs_successor_witness :
  ∃ self' w',
    delete_bins purge_job bins_world = Ok (self', w') ∧
    run_next w' =
      match delete_lead_addresses self' (set_queue [] w') with
      | Ok (_, w'') => Ok ((), w'')
      | Raise e => Raise e
      end.
Proof.
  eexists _, _. split; [vm_compute; reflexivity|].
  apply (chained_call_runs_successor BinsCleared purge_job _ bins_world);
    [vm_compute; reflexivity|reflexivity|reflexivity].
Defined.

(** ** Draining the queue *)

Lemma pending_app (q1 q2 : list Enqueued) :
  pending (q1 ++ q2) = (pending q1 + pending q2)%nat.
Proof.
  unfold pending. induction q1 as [|call q1 IH]; [done|].
  cbn. rewrite IH. lia.
Qed.

Lemma all_flags_step (j : Job) (st : Step) : all_flags_set j → step_flag st j = true.
Proof.
  intros (? & ? & ? & ? & ? & ?). by destruct st as [[| | | |]|].
Qed.

(** With every flag set, a call of a step is used up and replaced by the
    calls it chains, one call less in all. *)
Lemma flagged_step_pending (st : Step) (self : Job) (w : World) (method : string) :
  all_flags_set self →
  chain_length method =
    S (match st with
       | Checkpointed BinsCleared => 5
       | Checkpointed AddressesCleared => 4
       | Checkpointed CompanyValuesReset => 3
       | Checkpointed NotificationsCleared => 2
       | Checkpointed InventoryInitialized => 1
       | TransactionsDeleted => 0
       end) →
  ∃ calls,
    step_method st self w = Ok (self, set_queue (queue w ++ calls) w) ∧
    S (pending calls) = chain_length method ∧
    ∀ call, call ∈ calls → is_Some (doc_method (q_doc_method call)).
Proof.
  intros Hflags Hlength.
  destruct (flagged_step_run st self w (all_flags_step _ st Hflags))
    as (calls & Hrun & Hcalls).
  exists calls. split; [exact Hrun|]. rewrite Hlength.
  destruct st as [[| | | |]|];
    (destruct calls as [|call [|? ?]]; [try discriminate..];
     cbn in Hcalls; simplify_eq;
     split; [unfold pending; cbn; try rewrite H; reflexivity|];
     intros call' Hcall'; repeat (apply elem_of_cons in Hcall' as [->|Hcall']);
     try (by apply elem_of_nil in Hcall'); try rewrite H; by eexists).
Qed.

Lemma flagged_start_deletion_process (self : Job) (w : World) :
  all_flags_set self →
  ∃ calls,
    start_deletion_process self w = Ok (self, set_queue (queue w ++ calls) w) ∧
    q_doc_method <$> calls =
      ["delete_lead_addresses"; "reset_company_values"; "delete_notifications";
       "initialize_doctypes_to_be_deleted_table"; "delete_company_transactions"].
Proof.
  intros Hflags. unfold start_deletion_process, mbind, M_bind.
  destruct (flagged_step_run (Checkpointed BinsCleared) self w
              (all_flags_step _ _ Hflags)) as (c1 & Hrun1 & Hc1).
  cbn [step_method stage_method] in Hrun1. rewrite Hrun1.
  destruct (flagged_step_run (Checkpointed AddressesCleared) self
              (set_queue (queue w ++ c1) w) (all_flags_step _ _ Hflags))
    as (c2 & Hrun2 & Hc2).
  cbn [step_method stage_method] in Hrun2. rewrite Hrun2.
  destruct (flagged_step_run (Checkpointed CompanyValuesReset) self
              (set_queue (queue (set_queue (queue w ++ c1) w) ++ c2)
                 (set_queue (queue w ++ c1) w)) (all_flags_step _ _ Hflags))
    as (c3 & Hrun3 & Hc3).
  cbn [step_method stage_method] in Hrun3. rewrite Hrun3.
  match goal with
  | |- ∃ _, match delete_notifications self ?w3 with _ => _ end = _ ∧ _ =>
      destruct (flagged_step_run (Checkpointed NotificationsCleared) self w3
                  (all_flags_step _ _ Hflags)) as (c4 & Hrun4 & Hc4)
  end.
  cbn [step_method stage_method] in Hrun4. rewrite Hrun4.
  match goal with
  | |- ∃ _, match initialize_doctypes_to_be_deleted_table self ?w4 with _ => _ end = _ ∧ _ =>
      destruct (flagged_step_run (Checkpointed InventoryInitialized) self w4
                  (all_flags_step _ _ Hflags)) as (c5 & Hrun5 & Hc5)
  end.
  cbn [step_method stage_method] in Hrun5. rewrite Hrun5.
  match goal with
  | |- ∃ _, delete_company_transactions self ?w5 = _ ∧ _ =>
      destruct (flagged_step_run TransactionsDeleted self w5
                  (all_flags_step _ _ Hflags)) as (c6 & Hrun6 & Hc6)
  end.
  cbn [step_method] in Hrun6. rewrite Hrun6.
  exists (c1 ++ c2 ++ c3 ++ c4 ++ c5 ++ c6)%list. split.
  - f_equal. f_equal. destruct w. unfold set_queue. cbn. f_equal.
    by rewrite <- !app_assoc.
  - rewrite !fmap_app, Hc1, Hc2, Hc3, Hc4, Hc5, Hc6. reflexivity.
Qed.

Lemma known_calls (calls : list Enqueued) (methods : list string) :
  q_doc_method <$> calls = methods →
  Forall (λ method, is_Some (doc_method method)) methods →
  ∀ call, call ∈ calls → is_Some (doc_method (q_doc_method call)).
Proof.
  intros <- Hall call Hcall.
  apply (proj1 (Forall_forall _ _) Hall). by apply list_elem_of_fmap_2.
Qed.

Lemma pending_methods (calls : list Enqueued) (methods : list string) :
  q_doc_method <$> calls = methods →
  pending calls = sum_list (chain_length <$> methods).
Proof. intros <-. unfold pending. by rewrite <- list_fmap_compose. Qed.

(** With every flag of the stored job set, the worker uses up the oldest
    call and queues the calls chained from it, one call less in all. *)
Lemma flagged_run_next (w : World) (call : Enqueued) (rest : list Enqueued) :
  all_flags_set (stored w) →
  queue w = call :: rest →
  is_Some (doc_method (q_doc_method call)) →
  ∃ calls,
    run_next w = Ok ((), set_queue (rest ++ calls) w) ∧
    S (pending calls) = chain_length (q_doc_method call) ∧
    ∀ c, c ∈ calls → is_Some (doc_method (q_doc_method c)).
Proof.
  intros Hflags Hqueue [m Hm]. unfold run_next. rewrite Hqueue.
  unfold run_doc_method. rewrite Hm. cbn [stored set_queue].
  assert (∀ st method,
            q_doc_method call = method → m = step_method st →
            chain_length method =
              S (match st with
                 | Checkpointed BinsCleared => 5
                 | Checkpointed AddressesCleared => 4
                 | Checkpointed CompanyValuesReset => 3
                 | Checkpointed NotificationsCleared => 2
                 | Checkpointed InventoryInitialized => 1
                 | TransactionsDeleted => 0
                 end) →
            ∃ calls,
              match m (stored w) (set_queue rest w) with
              | Ok (_, w') => Ok ((), w')
              | Raise e => Raise e
              end = Ok ((), set_queue (rest ++ calls) w) ∧
              S (pending calls) = chain_length (q_doc_method call) ∧
              ∀ c, c ∈ calls → is_Some (doc_method (q_doc_method c))) as Hstep.
  { intros st method Hmethod -> Hlength.
    destruct (flagged_step_pending st (stored w) (set_queue rest w) method
                Hflags Hlength) as (calls & Hrun & Hpending & Hknown).
    exists calls. rewrite Hrun, Hmethod. split; [by destruct w|]. by split. }
  revert Hm. unfold doc_method. repeat case_decide; intros; simplify_eq.
  - by apply (Hstep (Checkpointed BinsCleared) "delete_bins").
  - by apply (Hstep (Checkpointed AddressesCleared) "delete_lead_addresses").
  - by apply (Hstep (Checkpointed CompanyValuesReset) "reset_company_values").
  - by apply (Hstep (Checkpointed NotificationsCleared) "delete_notifications").
  - by apply (Hstep (Checkpointed InventoryInitialized)
                "initialize_doctypes_to_be_deleted_table").
  - by apply (Hstep TransactionsDeleted "delete_company_transactions").
  - destruct (flagged_start_deletion_process (stored w) (set_queue rest w) Hflags)
      as (calls & Hrun & Hcalls).
    exists calls. rewrite Hrun. split; [by destruct w|]. split.
    + rewrite (pending_methods _ _ Hcalls).
      match goal with H : q_doc_method call = _ |- _ => rewrite H end. reflexivity.
    + apply (known_calls _ _ Hcalls). repeat constructor; by eexists.
Qed.

Lemma run_worker_drains (n : nat) :
  ∀ w, all_flags_set (stored w) →
       (∀ call, call ∈ queue w → is_Some (doc_method (q_doc_method call))) →
       pending (queue w) = n →
       run_worker n w = Ok ((), set_queue [] w).
Proof.
  induction n as [|n IH]; intros w Hflags Hknown Hpending.
  - destruct (queue w) as [|call rest] eqn:Hqueue.
    + cbn. unfold mret, M_ret. destruct w. cbn in Hqueue. by subst.
    + exfalso. destruct (Hknown call) as [m Hm]; [by left|].
      unfold pending in Hpending. cbn in Hpending.
      revert Hm. unfold doc_method, chain_length in *.
      repeat case_decide; intros; simplify_eq; lia.
  - destruct (queue w) as [|call rest] eqn:Hqueue; [done|].
    destruct (flagged_run_next w call rest Hflags Hqueue) as (calls & Hrun & Hlen & Hcalls).
    { apply Hknown. by left. }
    cbn [run_worker]. unfold mbind, M_bind. rewrite Hrun.
    rewrite (IH (set_queue (rest ++ calls) w)).
    + by destruct w.
    + exact Hflags.
    + cbn. intros c [Hc|Hc]%elem_of_app; [apply Hknown; by right|by apply Hcalls].
    + cbn [queue set_queue]. rewrite pending_app.
      change (pending (call :: rest))
        with (chain_length (q_doc_method call) + pending rest)%nat in Hpending.
      lia.
Qed.

(** X20: once every checkpoint flag of the stored job is set, the calls
    still queued (each of them a method of the class) drain: the worker uses
    up the queue in as many runs as the calls and their chains count, six
    for a [delete_bins] call down to one for a [delete_company_transactions]
    call and sixteen for [start_deletion_process], and these runs change no
    table, neither the stored job nor the notification cache. *)
Theorem queue_drains_once_every_flag_is_set (w : World) :
  all_flags_set (stored w) →
  (∀ call, call ∈ queue w → is_Some (doc_method (q_doc_method call))) →
  run_worker (pending (queue w)) w = Ok ((), set_queue [] w).
Proof. intros Hflags Hknown. by apply run_worker_drains. Qed.

Lemma queue_drains_once_every_flag_is_set_witness :
  run_worker 7 (set_queue [queued "delete_bins"; queued "delete_company_transactions"]
                  scenario_world_after) =
    Ok ((), set_queue [] scenario_world_after).
Proof.
  apply (queue_drains_once_every_flag_is_set
           (set_queue [queued "delete_bins"; queued "delete_company_transactions"]
              scenario_world_after)).
  - vm_compute. by repeat split.
  - apply (proj1 (Forall_forall
                    (λ call, is_Some (doc_method (q_doc_method call)))
                    [queued "delete_bins"; queued "delete_company_transactions"])).
    repeat constructor; by eexists.
Defined.

(** ** The status is never read *)

Section Blind.
Context (v : string).

Lemma blind_ret {A} (g : A → A) (a : A) : blind v g (mret (g a)) (mret a).
Proof. intros w. reflexivity. Qed.

Lemma blind_raise {A} (g : A → A) (e : exn) : blind v g (raise e) (raise e).
Proof. intros w. reflexivity. Qed.

Lemma blind_bind {A B} (gA : A → A) (gB : B → B) (m1 m2 : M A) (k1 k2 : A → M B) :
  blind v gA m1 m2 → (∀ a, blind v gB (k1 (gA a)) (k2 a)) →
  blind v gB (m1 ≫= k1) (m2 ≫= k2).
Proof.
  intros Hm Hk w. unfold mbind, M_bind. rewrite (Hm w).
  destruct (m2 w) as [[a w1]|e]; [|done]. cbn [lifted]. apply Hk.
Qed.

Lemma blind_get_db {B} (g : B → B) (k1 k2 : DB → M B) :
  (∀ d, blind v g (k1 d) (k2 d)) → blind v g (get_db ≫= k1) (get_db ≫= k2).
Proof. intros Hk. apply (blind_bind id); [|exact Hk]. intros w. reflexivity. Qed.

Lemma blind_modify_db (f : DB → DB) : blind v id (modify_db f) (modify_db f).
Proof. intros w. reflexivity. Qed.

Lemma blind_unit (m1 m2 : M ()) (k1 k2 : M ()) :
  blind v id m1 m2 → blind v id k1 k2 →
  blind v id (m1 ≫= λ _, k1) (m2 ≫= λ _, k2).
Proof. intros Hm Hk. apply (blind_bind id); [exact Hm|]. intros _. exact Hk. Qed.

Lemma blind_for_each {A S} (g : S → S) (l : list A) (body1 body2 : A → S → M S) :
  (∀ x s, blind v g (body1 x (g s)) (body2 x s)) →
  ∀ s, blind v g (for_each l body1 (g s)) (for_each l body2 s).
Proof.
  intros Hbody. induction l as [|x l IH]; intros s; cbn [for_each].
  - apply blind_ret.
  - apply (blind_bind g); [apply Hbody|exact IH].
Qed.

Lemma blind_for_each_unit {A} (l : list A) (body : A → () → M ()) :
  (∀ x, blind v id (body x ()) (body x ())) →
  blind v id (for_each l body ()) (for_each l body ()).
Proof.
  intros Hbody. apply (blind_for_each id). intros x []. apply Hbody.
Qed.

Lemma blind_chain_callback (self : Job) (method : string) :
  blind v id (chain_callback (set_status v self) method) (chain_callback self method).
Proof. intros w. reflexivity. Qed.

Lemma blind_db_set (assign : Job → Job) (self : Job) :
  (∀ j, assign (set_status v j) = set_status v (assign j)) →
  blind v (set_status v) (db_set assign (set_status v self)) (db_set assign self).
Proof.
  intros Hassign w. unfold db_set, lifted, with_status. cbn.
  by rewrite !Hassign.
Qed.

Lemma blind_guarded (flag : bool) (self : Job) (effect1 effect2 : M Job) (method : string) :
  blind v (set_status v) effect1 effect2 →
  blind v (set_status v)
    (self1 ← (if negb flag then effect1 else mret (set_status v self));
     _ ← chain_callback self1 method; mret self1)
    (self1 ← (if negb flag then effect2 else mret self);
     _ ← chain_callback self1 method; mret self1).
Proof.
  intros Heffect. apply (blind_bind (set_status v)).
  - destruct flag; cbn [negb]; [apply blind_ret|exact Heffect].
  - intros self1. apply (blind_bind id); [apply blind_chain_callback|].
    intros _. apply blind_ret.
Qed.

Lemma blind_delete_bins self :
  blind v (set_status v) (delete_bins (set_status v self)) (delete_bins self).
Proof.
  apply (blind_guarded (delete_bin_data self)).
  apply (blind_bind id); [apply blind_modify_db|]. intros _. by apply blind_db_set.
Qed.

Lemma blind_delete_lead_addresses self :
  blind v (set_status v)
    (delete_lead_addresses (set_status v self)) (delete_lead_addresses self).
Proof.
  apply (blind_guarded (delete_leads_and_addresses self)).
  apply blind_get_db. intros d.
  apply (blind_bind id); [|intros _; by apply blind_db_set].
  cbn [company set_status]. destruct (pluck "name" _); [apply (blind_ret id)|].
  apply blind_unit; [|apply blind_modify_db].
  destruct (pluck "parent" _); [apply (blind_ret id)|].
  apply blind_unit; apply blind_modify_db.
Qed.

Lemma blind_reset_company_values self :
  blind v (set_status v)
    (reset_company_values (set_status v self)) (reset_company_values self).
Proof.
  apply (blind_guarded (reset_company_default_values self)).
  apply blind_get_db. intros d.
  apply (blind_bind id); [|intros _; by apply blind_db_set].
  cbn [company set_status]. destruct (filter _ _); [apply blind_raise|].
  apply blind_unit; apply blind_modify_db.
Qed.

Lemma blind_delete_notifications self :
  blind v (set_status v)
    (delete_notifications (set_status v self)) (delete_notifications self).
Proof.
  apply (blind_guarded (clear_notifications self)).
  apply (blind_bind id); [|intros _; by apply blind_db_set].
  intros w. reflexivity.
Qed.

Lemma blind_scan_entry tables docfield self :
  blind v (set_status v)
    (initialize_doctypes_to_be_deleted_table_entry tables docfield (set_status v self))
    (initialize_doctypes_to_be_deleted_table_entry tables docfield self).
Proof.
  unfold initialize_doctypes_to_be_deleted_table_entry.
  case_decide; [|apply blind_ret]. apply blind_get_db. intros d.
  unfold get_number_of_docs_linked_with_specified_company. cbn [company set_status].
  case_decide; [|apply blind_ret].
  unfold populate_doctypes_table. intros w.
  case_decide; reflexivity.
Qed.

Lemma blind_initialize self :
  blind v (set_status v)
    (initialize_doctypes_to_be_deleted_table (set_status v self))
    (initialize_doctypes_to_be_deleted_table self).
Proof.
  apply (blind_guarded (initialize_doctypes_table self)).
  apply blind_get_db. intros d.
  apply (blind_bind (set_status v)).
  - apply (blind_for_each (set_status v)). intros docfield j. apply blind_scan_entry.
  - intros j. by apply blind_db_set.
Qed.

Lemma blind_delete_communications doctype names :
  blind v id (delete_communications doctype names) (delete_communications doctype names).
Proof.
  unfold delete_communications. apply blind_get_db. intros d.
  destruct (pluck _ _); [apply (blind_ret id)|].
  apply blind_for_each_unit. intros batch. apply blind_modify_db.
Qed.

Lemma blind_delete_comments doctype names :
  blind v id (delete_comments doctype names) (delete_comments doctype names).
Proof.
  unfold delete_comments. apply blind_get_db. intros d.
  destruct (pluck _ _); [apply (blind_ret id)|].
  apply blind_for_each_unit. intros batch. apply blind_modify_db.
Qed.

Lemma blind_unlink_attachments doctype names :
  blind v id (unlink_attachments doctype names) (unlink_attachments doctype names).
Proof.
  unfold unlink_attachments. apply blind_get_db. intros d.
  destruct (pluck _ _); [apply (blind_ret id)|].
  apply blind_for_each_unit. intros batch. apply blind_unit; apply blind_modify_db.
Qed.

Lemma blind_delete_child_tables doctype names :
  blind v id (delete_child_tables doctype names) (delete_child_tables doctype names).
Proof.
  unfold delete_child_tables. apply blind_get_db. intros d.
  apply blind_for_each_unit. intros child. apply blind_modify_db.
Qed.

Lemma blind_reset_naming_series doctype :
  blind v id (reset_naming_series doctype) (reset_naming_series doctype).
Proof.
  unfold reset_naming_series. apply blind_get_db. intros d.
  destruct (db_get_value _ _ _ _) as [|[|c rest]|]; try apply (blind_ret id).
  destruct (Str.contains _ _); [|apply (blind_ret id)].
  unfold update_naming_series. apply (blind_bind id).
  - destruct (Str.contains _ _); destruct (Str.rsplit1 _ _);
      (apply (blind_ret id) || apply blind_raise).
  - intros split. apply blind_get_db. intros d'. apply blind_modify_db.
Qed.

Lemma blind_entry self item :
  blind v id
    (delete_company_transactions_entry (set_status v self) item)
    (delete_company_transactions_entry self item).
Proof.
  unfold delete_company_transactions_entry. case_decide; [|apply (blind_ret id)].
  apply blind_get_db. intros d.
  unfold get_number_of_docs_linked_with_specified_company, reference_doc_names,
    delete_docs_linked_with_specified_company.
  cbn [company set_status]. case_decide.
  - apply blind_unit; [apply blind_modify_db|].
    apply blind_unit; [apply blind_delete_communications|].
    apply blind_unit; [apply blind_delete_comments|].
    apply blind_unit; [apply blind_unlink_attachments|].
    apply blind_unit; [apply blind_delete_child_tables|].
    apply blind_unit; [apply blind_modify_db|].
    apply blind_unit; [apply blind_reset_naming_series|].
    apply blind_chain_callback.
  - intros w. reflexivity.
Qed.

Lemma blind_delete_company_transactions self :
  blind v (set_status v)
    (delete_company_transactions (set_status v self)) (delete_company_transactions self).
Proof.
  unfold delete_company_transactions. cbn [delete_transactions doctypes set_status].
  destruct (negb _); [|apply blind_ret].
  apply (blind_bind id); [|intros _; by apply blind_db_set].
  apply (blind_for_each id). intros item []. apply blind_entry.
Qed.

Lemma blind_start_deletion_process self :
  blind v (set_status v)
    (start_deletion_process (set_status v self)) (start_deletion_process self).
Proof.
  unfold start_deletion_process.
  apply (blind_bind (set_status v)); [apply blind_delete_bins|intros self1].
  apply (blind_bind (set_status v)); [apply blind_delete_lead_addresses|intros self2].
  apply (blind_bind (set_status v)); [apply blind_reset_company_values|intros self3].
  apply (blind_bind (set_status v)); [apply blind_delete_notifications|intros self4].
  apply (blind_bind (set_status v)); [apply blind_initialize|intros self5].
  apply blind_delete_company_transactions.
Qed.

Lemma blind_run_doc_method method :
  blind v id (run_doc_method method) (run_doc_method method).
Proof.
  intros w. unfold run_doc_method.
  destruct (doc_method method) as [m|] eqn:Hm; [|done].
  assert (blind v (set_status v) (m (set_status v (stored w))) (m (stored w))) as Hblind.
  { revert Hm. unfold doc_method. repeat case_decide; intros; simplify_eq.
    - apply blind_delete_bins.
    - apply blind_delete_lead_addresses.
    - apply blind_reset_company_values.
    - apply blind_delete_notifications.
    - apply blind_initialize.
    - apply blind_delete_company_transactions.
    - apply blind_start_deletion_process. }
  change (stored (with_status v w)) with (set_status v (stored w)).
  rewrite (Hblind w). by destruct (m (stored w) w) as [[a w1]|e].
Qed.
End Blind.

